(** * lib/data/video.py: synthetic video sources and the capture factory

    A shallow embedding of [VideoSynthBase], [Book], [Cube], [Chess],
    [create_capture], [getImg] and the script at the end of the module,
    with the Python built-ins they rest on, followed by the facts
    proved about them.

    Conventions.
    - A Python [str] is a [string]; each character is read as the code
      point of its byte (0..255), and the character classes below are
      Python 3's on that range.
    - An [int] is a [Z].  A [float] is read as a real number: binary64
      rounding, infinities and NaN are outside the model.  The one
      exception is the clock of the Chess generator, the only float
      that the module accumulates from frame to frame: beside its
      reading as a real it is given in binary64 ([binary64_clock]).
    - A [dict] with string keys is a [gmap string _].
    - numpy arrays live in a store of buffers and are named by their
      index, so that copies and aliases can be told apart.  Methods are
      functions in a monad that threads the store, the state of the
      random generator and the lines printed, and that can raise.
    - An object is a record that its methods return updated.
    - What the module imports (OpenCV, the geometry helpers, the scene
      engine) is a record of functions, [Env], over which everything
      is stated. *)

From Stdlib Require Import ZArith List String Ascii Bool Lia Reals Lra Floats.
From stdpp Require Import gmap strings list.

Open Scope string_scope.
Open Scope list_scope.
Open Scope Z_scope.

(** ** Python built-ins on strings *)

Module Py.

Definition ord (c : ascii) : N := N_of_ascii c.

(** [str.isspace] on one character, code points below 256. *)
Definition isspace (c : ascii) : bool :=
  let n := ord c in
  ((9 <=? n) && (n <=? 13) || (28 <=? n) && (n <=? 32)
   || (n =? 133) || (n =? 160))%N.

(** [str.isalpha] on one character, code points below 256. *)
Definition isalpha_char (c : ascii) : bool :=
  let n := ord c in
  ((65 <=? n) && (n <=? 90) || (97 <=? n) && (n <=? 122)
   || (n =? 170) || (n =? 181) || (n =? 186)
   || (192 <=? n) && (n <=? 214) || (216 <=? n) && (n <=? 246)
   || (248 <=? n) && (n <=? 255))%N.

(** [s.isalpha()]: every character alphabetic and at least one of them. *)
Fixpoint all_alpha (s : string) : bool :=
  match s with
  | EmptyString => true
  | String c r => isalpha_char c && all_alpha r
  end.

Definition isalpha (s : string) : bool :=
  match s with
  | EmptyString => false
  | _ => all_alpha s
  end.

Definition len (s : string) : Z := Z.of_nat (String.length s).

Fixpoint lstrip (s : string) : string :=
  match s with
  | String c r => if isspace c then lstrip r else s
  | EmptyString => EmptyString
  end.

Fixpoint rstrip (s : string) : string :=
  match s with
  | String c r =>
      match rstrip r with
      | EmptyString => if isspace c then EmptyString else String c EmptyString
      | r' => String c r'
      end
  | EmptyString => EmptyString
  end.

(** [s.strip()] *)
Definition strip (s : string) : string := rstrip (lstrip s).

(** [s.split(sep)] for a separator of one character: never empty. *)
Fixpoint split (sep : ascii) (s : string) : list string :=
  match s with
  | EmptyString => [EmptyString]
  | String c r =>
      if Ascii.eqb c sep then EmptyString :: split sep r
      else match split sep r with
           | h :: t => String c h :: t
           | [] => [String c EmptyString]
           end
  end.

(** [c in s] for a character [c] *)
Fixpoint contains (c : ascii) (s : string) : bool :=
  match s with
  | EmptyString => false
  | String d r => Ascii.eqb d c || contains c r
  end.

(** The tokens of a string once the blanks at its end are stripped:
    only the last token can change. *)
Fixpoint rstrip_last (tokens : list string) : list string :=
  match tokens with
  | [] => []
  | [x] => [rstrip x]
  | x :: rest => x :: rstrip_last rest
  end.

(** The blanks [int] skips around a literal: ASCII white space, and the
    two blanks above 127 (which it first rewrites to a space). *)
Definition int_space (c : ascii) : bool :=
  let n := ord c in
  ((9 <=? n) && (n <=? 13) || (n =? 32) || (n =? 133) || (n =? 160))%N.

Fixpoint int_lstrip (s : string) : string :=
  match s with
  | String c r => if int_space c then int_lstrip r else s
  | EmptyString => EmptyString
  end.

Fixpoint int_rstrip (s : string) : string :=
  match s with
  | String c r =>
      match int_rstrip r with
      | EmptyString => if int_space c then EmptyString else String c EmptyString
      | r' => String c r'
      end
  | EmptyString => EmptyString
  end.

Definition digit (c : ascii) : option Z :=
  let n := ord c in
  if ((48 <=? n) && (n <=? 57))%N then Some (Z.of_N n - 48) else None.

(** Decimal digits, single underscores allowed between two digits. *)
Fixpoint int_digits (s : string) (acc : Z) (after_digit : bool) : option Z :=
  match s with
  | EmptyString => if after_digit then Some acc else None
  | String c r =>
      match digit c with
      | Some d => int_digits r (10 * acc + d) true
      | None =>
          if Ascii.eqb c "_" && after_digit then int_digits r acc false
          else None
      end
  end.

(** [int(s)] in base ten; [None] stands for [ValueError].  The
    interpreter's cap on the number of digits is not modelled. *)
Definition int (s : string) : option Z :=
  match int_rstrip (int_lstrip s) with
  | String "+" r => int_digits r 0 false
  | String "-" r => Z.opp <$> int_digits r 0 false
  | r => int_digits r 0 false
  end.

(** The decimal digits of a number that is not negative, most
    significant first, in front of [acc]; [fuel] bounds their number. *)
Fixpoint str_digits (fuel : nat) (n : Z) (acc : string) : string :=
  match fuel with
  | O => acc
  | S fuel =>
      let acc := String (ascii_of_N (48 + Z.to_N (n mod 10))) acc in
      if n <? 10 then acc else str_digits fuel (n / 10) acc
  end.

Definition str_nonneg (n : Z) : string :=
  str_digits (S (Z.to_nat (Z.log2 n))) n "".

(** [str(n)] for an [int] *)
Definition str (n : Z) : string :=
  if n <? 0 then String "-" (str_nonneg (- n)) else str_nonneg n.

(** ['%03d' % n] for an [int]: at least three characters, the sign
    first, zeros in front of the digits. *)
Definition pad3 (n : Z) : string :=
  let digits := str_nonneg (Z.abs n) in
  let sign := if n <? 0 then "-" else "" in
  (sign
   ++ String.string_of_list_ascii
        (List.repeat "0"%char
           (3 - String.length sign - String.length digits)%nat)
   ++ digits)%string.

(** Every character of [s] passes the test [p]. *)
Fixpoint all_chars (p : ascii -> bool) (s : string) : bool :=
  match s with
  | EmptyString => true
  | String c r => p c && all_chars p r
  end.

(** A decimal digit, or also the minus sign: the characters of [str(n)]. *)
Definition is_digit (c : ascii) : bool :=
  match digit c with Some _ => true | None => false end.

Definition is_numeric (c : ascii) : bool := is_digit c || Ascii.eqb c "-".

(** [s.count(c)] for a character [c] *)
Fixpoint count (c : ascii) (s : string) : nat :=
  match s with
  | EmptyString => O
  | String d r => ((if Ascii.eqb d c then 1 else 0) + count c r)%nat
  end.

End Py.

(** ** Exceptions, the store of buffers and the monad of the embedding *)

(** Python exceptions that the module can raise.  [CvError] is OpenCV's
    [cv2.error]; [ExternalError] is whatever a missing collaborator
    raises; [MemoryFault] marks a read of a buffer that was never
    allocated, which Python cannot do and which is proved unreachable. *)
Inductive exn :=
| ValueError | TypeError | AttributeError | CvError | ExternalError
| MemoryFault.

Inductive result (A : Type) :=
| Ok (a : A)
| Raise (e : exn).
Arguments Ok {A} a.
Arguments Raise {A} e.

(** A numpy array of shape (rows, cols, 3): [uint8] samples for a frame,
    [int8] samples for a noise field, row-major. *)
Record image := Image { rows : N; cols : N; data : list Z }.

Definition shape (a : image) : N * N := (rows a, cols a).

(** A buffer is named by its index in the store. *)
Definition loc := nat.

(** The source of [cv.VideoCapture(source)] and of the diagnostic:
    a device index or a path. *)
Inductive source_t :=
| SrcInt (n : Z)
| SrcStr (s : string).

(** One line written by [print]. *)
Inductive diag :=
| Warning_unable_to_open (source : source_t).

(** What the module reads and writes besides its own objects: the
    buffers, OpenCV's global random generator, standard output. *)
Record world := World { heap : list image; rng : N; stdout : list diag }.

Definition M (A : Type) : Type := world -> result (A * world).

Definition ret {A} (a : A) : M A := fun w => Ok (a, w).

Definition bind {A B} (m : M A) (k : A -> M B) : M B :=
  fun w => match m w with
           | Ok (a, w') => k a w'
           | Raise e => Raise e
           end.

Definition raise {A} (e : exn) : M A := fun _ => Raise e.

Definition lift {A} (r : result A) : M A :=
  fun w => match r with Ok a => Ok (a, w) | Raise e => Raise e end.

Declare Scope py_scope.
Delimit Scope py_scope with py.
Notation "'let!' x ':=' m 'in' k" := (bind m (fun x => k))
  (at level 10, x pattern, m at level 100, k at level 200) : py_scope.
Open Scope py_scope.

(** [try: m  except: pass] around the binding of a variable that is
    [None] before: buffers allocated before the exception are garbage. *)
Definition try_or_None {A} (m : M A) : M (option A) :=
  fun w => match m w with
           | Ok (a, w') => Ok (Some a, w')
           | Raise _ => Ok (None, w)
           end.

(** A new buffer, appended to the store. *)
Definition alloc (a : image) : M loc :=
  fun w => Ok (length (heap w),
               World (heap w ++ [a]) (rng w) (stdout w)).

Definition load (l : loc) : M image :=
  fun w => match heap w !! l with
           | Some a => Ok (a, w)
           | None => Raise MemoryFault
           end.

(** In-place write of an existing buffer. *)
Definition store (l : loc) (a : image) : M unit :=
  fun w => Ok (tt, World (<[l := a]> (heap w)) (rng w) (stdout w)).

Definition print (d : diag) : M unit :=
  fun w => Ok (tt, World (heap w) (rng w) (stdout w ++ [d])).

(** ** numpy and OpenCV operations whose result the module fixes *)

(** [np.zeros((h, w, 3), dtype)] *)
Definition np_zeros (h w : Z) : M loc :=
  if (h <? 0) || (w <? 0) then raise ValueError
  else alloc (Image (Z.to_N h) (Z.to_N w) (repeat 0 (Z.to_nat (h * w * 3)))).

(** [a.copy()] *)
Definition np_copy (l : loc) : M loc := let! a := load l in alloc a.

Definition saturate_u8 (x : Z) : Z := Z.max 0 (Z.min 255 x).

Definition saturate_i8 (x : Z) : Z := Z.max (-128) (Z.min 127 x).

Fixpoint add_samples (xs ys : list Z) : list Z :=
  match xs, ys with
  | x :: xs, y :: ys => saturate_u8 (x + y) :: add_samples xs ys
  | _, _ => []
  end.

(** [cv.add(a, b, dtype=cv.CV_8UC3)]: a new array, each sample the
    saturated sum; arrays of different shapes are refused. *)
Definition cv_add (a b : image) : M loc :=
  if (rows a =? rows b)%N && (cols a =? cols b)%N
  then alloc (Image (rows a) (cols a) (add_samples (data a) (data b)))
  else raise CvError.

(** [np.int32(x)] on a float: truncation toward zero. *)
Definition np_int32 (x : R) : Z :=
  if Rle_dec 0 x then Int_part x else - Int_part (- x).

Definition vec3 : Type := R * R * R.
Definition mat : Type := list (list R).

Definition vadd (a b : vec3) : vec3 :=
  let '(a1, a2, a3) := a in let '(b1, b2, b3) := b in
  (a1 + b1, a2 + b2, a3 + b3)%R.

Definition vscale (a : vec3) (k : R) : vec3 :=
  let '(a1, a2, a3) := a in (a1 * k, a2 * k, a3 * k)%R.

(** ** The collaborators that are not part of the module *)

(** File and device access, the pixel work of OpenCV, the parser of
    [float], the geometry helpers of [lib.data.common] and the scene
    engine of [lib.data.tst_scene_render] are taken as given. *)

(** An opened or unopened [cv.VideoCapture]. *)
Record VideoCapture := { vc_handle : N; vc_isOpened : bool }.

(** A [TestSceneRender]: the module reads its [sceneBg] and calls its
    [getNextFrame]; the rest of it is opaque. *)
Record TestSceneRender := { sceneBg : image; scene_state : N }.

Record Env := {
  (** the image file at a path, as [cv.imread] decodes it in colour;
      [None] when there is none *)
  cv_imread : string -> option image;
  (** the samples of [cv.resize(src, (w, h))] *)
  cv_resize_data : image -> Z -> Z -> list Z;
  (** [float(s)]; [None] for [ValueError] *)
  py_float : string -> option R;
  (** [cv.randn] on an array of the given rows and columns, with zero
      mean and the given deviation: the samples and the next state of
      the generator *)
  cv_randn : N -> Z -> Z -> R -> list Z * N;
  (** [common.lookat(eye, target)] *)
  lookat : vec3 -> vec3 -> mat * vec3;
  (** [common.mtx2rvec(R)] *)
  mtx2rvec : mat -> vec3;
  (** the image point that [cv.projectPoints(points, rvec, tvec, K,
      dist_coef)[0]] holds for one of the points: each is projected on
      its own *)
  cv_projectPoint : Z * Z * Z -> vec3 -> vec3 -> mat -> list R -> R * R;
  (** the samples of the image after
      [cv.fillConvexPoly(img, pts, color, cv.LINE_AA, shift=2)] *)
  cv_fillConvexPoly : image -> list (Z * Z) -> Z * Z * Z -> list Z;
  (** [TestSceneRender(bgImg, fgImg, deformation, speed)] *)
  TestSceneRender_init :
    option image -> option image -> bool -> R -> result TestSceneRender;
  (** [engine.getNextFrame()]: the frame and the engine afterwards *)
  getNextFrame : TestSceneRender -> result (image * TestSceneRender);
  (** [cv.VideoCapture(source)] *)
  cv_VideoCapture : source_t -> result VideoCapture;
  (** [cap.set(prop, value)] *)
  cap_set : VideoCapture -> Z -> Z -> result VideoCapture
}.

(** ** The synthetic sources *)

Section Video.

Context (E : Env).

(** *** class VideoSynthBase *)

Record VideoSynthBase := {
  bg : option loc;          (** [self.bg]: [None] or the background array *)
  frame_size : Z * Z;       (** [self.frame_size], as (w, h) *)
  noise : R                 (** [self.noise] *)
}.

(** [w, h = map(int, size.split('x'))] *)
Definition parse_size (size : string) : result (Z * Z) :=
  match Py.split "x" size with
  | [sw; sh] =>
      match Py.int sw, Py.int sh with
      | Some w, Some h => Ok (w, h)
      | _, _ => Raise ValueError
      end
  | _ => Raise ValueError
  end.

(** [cv.imread(path)], in colour: [None] when no image can be read,
    and never an empty image. *)
Definition imread (path : string) : option image :=
  match cv_imread E path with
  | Some a => if (0 <? rows a)%N && (0 <? cols a)%N then Some a else None
  | None => None
  end.

(** [cv.resize(src, (w, h))]: refused on [None], on an empty source and
    on an empty target size. *)
Definition cv_resize (src : option loc) (w h : Z) : M loc :=
  match src with
  | None => raise CvError
  | Some l =>
      let! a := load l in
      if (0 <? rows a)%N && (0 <? cols a)%N && (0 <? w) && (0 <? h)
      then alloc (Image (Z.to_N h) (Z.to_N w) (cv_resize_data E a w h))
      else raise CvError
  end.

(** Binding of the keyword arguments of a constructor: a key named
    [self] collides with the receiver. *)
Definition bind_kwargs (kw : gmap string string) : M unit :=
  match kw !! "self" with
  | Some _ => raise TypeError
  | None => ret tt
  end.

(** [VideoSynthBase.__init__(self, size=None, noise=0.0, bg=None, **params)] *)
Definition VideoSynthBase_init (kw : gmap string string) : M VideoSynthBase :=
  let! _ := bind_kwargs kw in
  let! (self_bg, self_frame_size) :=
    match kw !! "bg" with
    | Some path =>
        match imread path with
        | Some a =>
            let! l := alloc a in
            ret (Some l, (Z.of_N (cols a), Z.of_N (rows a)))
        | None => raise AttributeError
        end
    | None => ret (None, (640, 480))
    end in
  let! (self_bg, self_frame_size) :=
    match kw !! "size" with
    | Some size =>
        let! (w, h) := lift (parse_size size) in
        let! l := cv_resize self_bg w h in
        ret (Some l, (w, h))
    | None => ret (self_bg, self_frame_size)
    end in
  let! self_noise :=
    match kw !! "noise" with
    | Some s =>
        match py_float E s with
        | Some x => ret x
        | None => raise ValueError
        end
    | None => ret 0%R
    end in
  ret {| bg := self_bg; frame_size := self_frame_size; noise := self_noise |}.

(** The noise field of [read]: an [int8] array filled by [cv.randn]
    with deviation [255 * noise]. *)
Definition randn_noise (h w : Z) (level : R) : M image :=
  if (h <? 0) || (w <? 0) then raise ValueError
  else fun wd =>
    let '(samples, g) := cv_randn E (rng wd) h w (255 * level)%R in
    Ok (Image (Z.to_N h) (Z.to_N w) (map saturate_i8 samples),
        World (heap wd) g (stdout wd)).

(** [VideoSynthBase.read(self, dst=None)], for a receiver of any class
    that inherits it: [base] projects the inherited fields and [render]
    is the method that [self.render(buf)] dispatches to. *)
Definition VideoSynthBase_read {S : Type} (base : S -> VideoSynthBase)
    (render : S -> loc -> M S) (self : S) : M (bool * loc * S) :=
  let '(w, h) := frame_size (base self) in
  let! buf :=
    match bg (base self) with
    | None => np_zeros h w
    | Some l => np_copy l
    end in
  let! self := render self buf in
  if Rlt_dec 0 (noise (base self)) then
    let! noise_field := randn_noise h w (noise (base self)) in
    let! a := load buf in
    let! buf := cv_add a noise_field in
    ret (true, buf, self)
  else ret (true, buf, self).

(** [VideoSynthBase.render(self, dst)]: [pass] *)
Definition VideoSynthBase_render (self : VideoSynthBase) (dst : loc)
  : M VideoSynthBase := ret self.

(** *** class Book, class Cube *)

Record Scene := {
  scene_base : VideoSynthBase;
  scene_render : TestSceneRender     (** [self.render] *)
}.

(** [Book.__init__(self, **kw)] *)
Definition Book_init (kw : gmap string string) : M Scene :=
  let! _ := bind_kwargs kw in
  let! b := VideoSynthBase_init kw in
  let backGr := imread "../data/graf1.png" in
  let fgr := imread "../data/box.png" in
  let! r := lift (TestSceneRender_init E backGr fgr false 1%R) in
  ret {| scene_base := b; scene_render := r |}.

(** [Cube.__init__(self, **kw)] *)
Definition Cube_init (kw : gmap string string) : M Scene :=
  let! _ := bind_kwargs kw in
  let! b := VideoSynthBase_init kw in
  let! r := lift (TestSceneRender_init E
                    (imread "../data/pca_test1.jpg") None true 1%R) in
  ret {| scene_base := b; scene_render := r |}.

(** [Book.read(self, dst=None)] and [Cube.read(self, dst=None)], which
    have the same body. *)
Definition Scene_read (self : Scene) : M (bool * loc * Scene) :=
  let '(h, w) := shape (sceneBg (scene_render self)) in
  let! noise_field :=
    randn_noise (Z.of_N h) (Z.of_N w) (noise (scene_base self)) in
  let! (frame, r) := lift (getNextFrame E (scene_render self)) in
  let! out := cv_add frame noise_field in
  ret (true, out, {| scene_base := scene_base self; scene_render := r |}).

(** *** class Chess *)

(** A quad: four corners in the plane z = 0. *)
Definition quad : Type := list (Z * Z * Z).

Record Chess := {
  chess_base : VideoSynthBase;
  grid_size : Z * Z;
  white_quads : list quad;
  black_quads : list quad;
  K : mat;
  dist_coef : list R;
  t : R;                    (** [self.t], read as a real number *)
  rvec : option vec3;       (** unset until the first [render] *)
  tvec : option vec3
}.

(** [np.ndindex(n, m)]: row-major index pairs. *)
Definition ndindex (n m : Z) : list (Z * Z) :=
  flat_map (fun i => map (fun j => (i, j)) (seqZ 0 m)) (seqZ 0 n).

(** The loop of [Chess.__init__] that sorts the squares of the board
    into the white and the black list. *)
Definition chess_quads (sx sy : Z) : list quad * list quad :=
  fold_left
    (fun (acc : list quad * list quad) (ij : Z * Z) =>
       let '(white, black) := acc in
       let '(i, j) := ij in
       let q := [(j, i, 0); (j + 1, i, 0); (j + 1, i + 1, 0); (j, i + 1, 0)] in
       if (i + j) mod 2 =? 0 then (white ++ [q], black)
       else (white, black ++ [q]))
    (ndindex sy sx) ([], []).

(** [Chess.__init__(self, **kw)] *)
Definition Chess_init (kw : gmap string string) : M Chess :=
  let! _ := bind_kwargs kw in
  let! b := VideoSynthBase_init kw in
  let '(w, h) := frame_size b in
  let '(sx, sy) := (10, 7) in
  let '(white, black) := chess_quads sx sy in
  let fx := 0.9%R in
  ret {| chess_base := b;
         grid_size := (sx, sy);
         white_quads := white;
         black_quads := black;
         K := [[fx * IZR w; 0; 0.5 * (IZR w - 1)];
               [0; fx * IZR w; 0.5 * (IZR h - 1)];
               [0; 0; 1]]%R;
         dist_coef := [-0.2; 0.1; 0; 0]%R;
         t := 0%R;
         rvec := None;
         tvec := None |}.

Fixpoint group4 {A} (l : list A) : list (list A) :=
  match l with
  | a :: b :: c :: d :: r => [a; b; c; d] :: group4 r
  | _ => []
  end.

(** The loop of [draw_quads]: one polygon per projected quad, drawn
    into the array [img] itself. *)
Fixpoint fill_quads (img : loc) (img_quads : list (list (R * R)))
    (color : Z * Z * Z) : M unit :=
  match img_quads with
  | [] => ret tt
  | q :: rest =>
      let! a := load img in
      let pts := map (fun p : R * R =>
                        (np_int32 (fst p * 4), np_int32 (snd p * 4))) q in
      let! _ := store img (Image (rows a) (cols a)
                             (cv_fillConvexPoly E a pts color)) in
      fill_quads img rest color
  end.

(** [Chess.draw_quads(self, img, quads, color)]: the corners of all
    quads in one list, projected, and taken four by four again. *)
Definition draw_quads (self : Chess) (img : loc) (quads : list quad)
    (color : Z * Z * Z) : M unit :=
  match rvec self, tvec self with
  | Some rv, Some tv =>
      let img_quads :=
        group4 (map (fun p => cv_projectPoint E p rv tv
                                (K self) (dist_coef self))
                  (concat quads)) in
      fill_quads img img_quads color
  | _, _ => raise AttributeError
  end.

(** Lines 143 to 148 of [Chess.render], as a function of the board and
    of the local variable [t]: the elevation [phi], [eye_pos] and
    [target_pos]. *)
Definition Chess_camera (grid : Z * Z) (t : R) : R * vec3 * vec3 :=
  let '(sx, sy) := grid in
  let center := (0.5 * IZR sx, 0.5 * IZR sy, 0)%R in
  let phi := (PI / 3 + sin (t * 3) * PI / 8)%R in
  let c := cos phi in
  let s := sin phi in
  let ofs :=
    vscale (vscale (sin (1.2 * t), cos (1.8 * t), 0)%R (IZR sx)) 0.2%R in
  let eye_pos :=
    vadd (vadd center (vscale (cos t * c, sin t * c, s)%R 15%R)) ofs in
  let target_pos := vadd center ofs in
  (phi, eye_pos, target_pos).

(** [Chess.render(self, dst)] *)
Definition Chess_render (self : Chess) (dst : loc) : M Chess :=
  let t0 := t self in
  let self :=
    {| chess_base := chess_base self; grid_size := grid_size self;
       white_quads := white_quads self; black_quads := black_quads self;
       K := K self; dist_coef := dist_coef self;
       t := (t self + 1 / 30)%R;
       rvec := rvec self; tvec := tvec self |} in
  let '(_, eye_pos, target_pos) := Chess_camera (grid_size self) t0 in
  let '(Rm, tv) := lookat E eye_pos target_pos in
  let self :=
    {| chess_base := chess_base self; grid_size := grid_size self;
       white_quads := white_quads self; black_quads := black_quads self;
       K := K self; dist_coef := dist_coef self; t := t self;
       rvec := Some (mtx2rvec E Rm); tvec := Some tv |} in
  let! _ := draw_quads self dst (white_quads self) (245, 245, 245) in
  let! _ := draw_quads self dst (black_quads self) (10, 10, 10) in
  ret self.

(** The clock in binary64, as the interpreter keeps it: [self.t = 0]
    at line 130, then [self.t += 1.0/30.0] at line 140 in every call of
    [render].  The field [t] is this clock read as a real number, each
    addition taken as exact. *)
Definition clock_step (time : float) : float := (time + 1 / 30)%float.

Definition binary64_clock (calls : nat) : float :=
  Nat.iter calls clock_step 0%float.

(** The object that one call of [Chess.render] leaves behind: the clock
    advanced, the pose of this frame stored. *)
Definition Chess_next (self : Chess) : Chess :=
  let '(_, eye_pos, target_pos) := Chess_camera (grid_size self) (t self) in
  let '(Rm, tv) := lookat E eye_pos target_pos in
  {| chess_base := chess_base self; grid_size := grid_size self;
     white_quads := white_quads self; black_quads := black_quads self;
     K := K self; dist_coef := dist_coef self;
     t := (t self + 1 / 30)%R;
     rvec := Some (mtx2rvec E Rm); tvec := Some tv |}.

(** A Chess object with other values in its two pose attributes. *)
Definition with_pose (self : Chess) (rv tv : option vec3) : Chess :=
  {| chess_base := chess_base self; grid_size := grid_size self;
     white_quads := white_quads self; black_quads := black_quads self;
     K := K self; dist_coef := dist_coef self; t := t self;
     rvec := rv; tvec := tv |}.

(** *** Objects of the four classes, with method dispatch *)

Inductive synth :=
| Base_obj (b : VideoSynthBase)
| Chess_obj (c : Chess)
| Book_obj (s : Scene)
| Cube_obj (s : Scene).

(** [g.read()] *)
Definition read (g : synth) : M (bool * loc * synth) :=
  match g with
  | Base_obj b =>
      let! (ok, frame, b) :=
        VideoSynthBase_read (fun b => b) VideoSynthBase_render b in
      ret (ok, frame, Base_obj b)
  | Chess_obj c =>
      let! (ok, frame, c) := VideoSynthBase_read chess_base Chess_render c in
      ret (ok, frame, Chess_obj c)
  | Book_obj s =>
      let! (ok, frame, s) := Scene_read s in ret (ok, frame, Book_obj s)
  | Cube_obj s =>
      let! (ok, frame, s) := Scene_read s in ret (ok, frame, Cube_obj s)
  end.

(** [VideoSynthBase.isOpened(self)], inherited by every class *)
Definition synth_isOpened (g : synth) : bool := true.

(** The inherited fields of an object. *)
Definition base_of (g : synth) : VideoSynthBase :=
  match g with
  | Base_obj b => b
  | Chess_obj c => chess_base c
  | Book_obj s | Cube_obj s => scene_base s
  end.

(** The classes whose objects use [VideoSynthBase.read]. *)
Definition inherits_read (g : synth) : bool :=
  match g with
  | Base_obj _ | Chess_obj _ => true
  | Book_obj _ | Cube_obj _ => false
  end.

(** The object after one call of the inherited [read]: only a Chess
    object changes. *)
Definition after_read (g : synth) : synth :=
  match g with
  | Chess_obj c => Chess_obj (Chess_next c)
  | _ => g
  end.

(** What [Book] and [Cube] need from the scene engine for a [read] to
    return: a frame of the size of the engine's background. *)
Definition engine_delivers : Prop :=
  forall e, exists frame e',
    getNextFrame E e = Ok (frame, e')
    /\ rows frame = rows (sceneBg e) /\ cols frame = cols (sceneBg e).

(** [n] consecutive calls of [g.read()], as the consuming loop makes
    them: the pairs returned, in order, and the object afterwards. *)
Fixpoint reads (n : nat) (g : synth) : M (list (bool * loc) * synth) :=
  match n with
  | O => ret ([], g)
  | S n =>
      let! (ok, frame, g) := read g in
      let! (rest, g) := reads n g in
      ret ((ok, frame) :: rest, g)
  end.

(** The inherited fields describe buffers of the store [hp]: the
    frame size is not negative and the background, when there is one,
    is an allocated array of that size. *)
Definition valid (b : VideoSynthBase) (hp : list image) : bool :=
  let '(w, h) := frame_size b in
  (0 <=? w) && (0 <=? h) &&
  match bg b with
  | Some l =>
      match hp !! l with
      | Some a => (Z.of_N (cols a) =? w) && (Z.of_N (rows a) =? h)
      | None => false
      end
  | None => true
  end.

(** The frame of a source that draws nothing and adds no noise: the
    background, or black. *)
Definition still_frame (b : VideoSynthBase) (hp : list image) : image :=
  let '(w, h) := frame_size b in
  match bg b with
  | Some l => default (Image (Z.to_N h) (Z.to_N w) []) (hp !! l)
  | None => Image (Z.to_N h) (Z.to_N w) (repeat 0 (Z.to_nat (h * w * 3)))
  end.

(** ** The factory *)

Inductive Class := VideoSynthBase_class | Chess_class | Book_class | Cube_class.

(** [classes = dict(chess=Chess, book=Book, cube=Cube)] *)
Definition classes : gmap string Class :=
  <["chess" := Chess_class]>
    (<["book" := Book_class]> (<["cube" := Cube_class]> ∅)).

Definition presets : gmap string string :=
  <["empty" := "synth:"]>
  (<["lena" := "synth:bg=../data/lena.jpg:noise=0.1"]>
  (<["chess" :=
       "synth:class=chess:bg=../data/lena.jpg:noise=0.1:size=640x480"]>
  (<["book" :=
       "synth:class=book:bg=../data/graf1.png:noise=0.1:size=640x480"]>
  (<["cube" :=
       "synth:class=cube:bg=../data/pca_test1.jpg:noise=0.0:size=640x480"]>
   ∅)))).

(** The call of [Class] with [params] as its keyword arguments *)
Definition construct (C : Class) (params : gmap string string) : M synth :=
  match C with
  | VideoSynthBase_class =>
      let! b := VideoSynthBase_init params in ret (Base_obj b)
  | Chess_class => let! c := Chess_init params in ret (Chess_obj c)
  | Book_class => let! s := Book_init params in ret (Book_obj s)
  | Cube_class => let! s := Cube_init params in ret (Cube_obj s)
  end.

(** The class of an object. *)
Definition class_of (g : synth) : Class :=
  match g with
  | Base_obj _ => VideoSynthBase_class
  | Chess_obj _ => Chess_class
  | Book_obj _ => Book_class
  | Cube_obj _ => Cube_class
  end.

(** [classes.get(params.get('class', None), VideoSynthBase)] *)
Definition select_class (params : gmap string string) : Class :=
  match params !! "class" with
  | Some name => default VideoSynthBase_class (classes !! name)
  | None => VideoSynthBase_class
  end.

(** What [create_capture] returns when it returns an object. *)
Inductive capture :=
| Synth (g : synth)
| Device (v : VideoCapture).

Definition isOpened (cap : capture) : bool :=
  match cap with
  | Synth g => synth_isOpened g
  | Device v => vc_isOpened v
  end.

(** Lines 180 to 184: the tokens of the descriptor, a drive letter
    merged back into the path it belongs to. *)
Definition drive_letter (chunks : list string) : list string :=
  match chunks with
  | c0 :: c1 :: rest =>
      if (Py.len c0 =? 1) && Py.isalpha c0
      then (c0 ++ ":" ++ c1)%string :: rest
      else chunks
  | _ => chunks
  end.

Definition descriptor_chunks (source : string) : list string :=
  drive_letter (Py.split ":" (Py.strip source)).

(** [dict(items)] on a sequence of sequences: each must have two
    elements, a later key overrides an earlier one. *)
Fixpoint py_dict (items : list (list string)) (acc : gmap string string)
  : result (gmap string string) :=
  match items with
  | [] => Ok acc
  | [k; v] :: rest => py_dict rest (<[k := v]> acc)
  | _ :: _ => Raise ValueError
  end.

(** Lines 186 to 189: the source, a device index when it reads as an
    integer, and the parameters. *)
Definition parse_descriptor (source : string)
  : result (source_t * gmap string string) :=
  let chunks := descriptor_chunks source in
  let source := hd "" chunks in
  let source :=
    match Py.int source with
    | Some n => SrcInt n
    | None => SrcStr source
    end in
  match py_dict (map (Py.split "=") (tl chunks)) ∅ with
  | Ok params => Ok (source, params)
  | Raise e => Raise e
  end.

Definition CAP_PROP_FRAME_WIDTH : Z := 3.
Definition CAP_PROP_FRAME_HEIGHT : Z := 4.

(** Lines 179 to 201: the source that the descriptor resolves to,
    before any fallback. *)
Definition open_source (source : string) : M (source_t * option capture) :=
  let! (source, params) := lift (parse_descriptor source) in
  let! cap :=
    match source with
    | SrcStr "synth" =>
        let C := select_class params in
        let! g := try_or_None (construct C params) in
        ret (Synth <$> g)
    | _ =>
        let! cap := lift (cv_VideoCapture E source) in
        match params !! "size" with
        | Some size =>
            let! (w, h) := lift (parse_size size) in
            let! cap := lift (cap_set E cap CAP_PROP_FRAME_WIDTH w) in
            let! cap := lift (cap_set E cap CAP_PROP_FRAME_HEIGHT h) in
            ret (Some (Device cap))
        | None => ret (Some (Device cap))
        end
    end in
  ret (source, cap).

(** The world after the diagnostic about [src] has been printed. *)
Definition warned (src : source_t) (w : world) : world :=
  World (heap w) (rng w) (stdout w ++ [Warning_unable_to_open src]).

(** [cap is None or not cap.isOpened()] *)
Definition unopened (cap : option capture) : bool :=
  match cap with
  | None => true
  | Some c => negb (isOpened c)
  end.

(** [create_capture(source, fallback)].  The recursion of the source is
    bounded here by [fuel], the number of nested calls allowed; [None]
    means that the bound was reached. *)
Fixpoint create_capture (fuel : nat) (source : string)
    (fallback : option string) (w : world)
  : option (result (option capture * world)) :=
  match fuel with
  | O => None
  | S fuel =>
      match open_source source w with
      | Raise e => Some (Raise e)
      | Ok (src, cap, w) =>
          if unopened cap then
            match print (Warning_unable_to_open src) w with
            | Raise e => Some (Raise e)
            | Ok (_, w) =>
                match fallback with
                | Some fb => create_capture fuel fb None w
                | None => Some (Ok (cap, w))
                end
            end
          else Some (Ok (cap, w))
      end
  end.

End Video.

(** ** The rest of the module: default arguments, [getImg], the script *)

(** What a caller passes as [source]: an [int] or a [str]. *)
Inductive py_source :=
| IntSource (n : Z)
| StrSource (s : string).

(** [str(source)], line 179 *)
Definition str_source (source : py_source) : string :=
  match source with
  | IntSource n => Py.str n
  | StrSource s => s
  end.

(** What only [getImg] and the script ask of OpenCV. *)
Record Device_env := {
  (** [cap.read()] on a [cv.VideoCapture]: the flag, the frame ([None]
      when none was grabbed) and the capture afterwards *)
  vc_read : VideoCapture -> result (bool * option image * VideoCapture);
  (** [cv.resize(src, (0,0), fx=0.5, fy=0.5, interpolation=cv.INTER_AREA)]
      on an array *)
  cv_resize_half : image -> result image
}.

(** What the script shows, writes and prints after the captures are
    made, in order. *)
Inductive event :=
| Shown (window : string) (img : loc)
| Written (path : string) (img : loc)
| Saved (path : string)
| Windows_destroyed.

Section Script.

Context (E : Env) (D : Device_env).

(** The default value of the parameter [fallback] of [create_capture]:
    [presets['chess']]. *)
Definition default_fallback : option string := presets !! "chess".

(** A call of [create_capture] from outside, with [fuel] nested calls
    allowed. *)
Definition create_capture_call (fuel : nat) (source : py_source)
    (fallback : option string) (w : world)
  : option (result (option capture * world)) :=
  create_capture E fuel (str_source source) fallback w.

(** [cap.read()] on what [create_capture] returned: [None] has no
    method [read]. *)
Definition capture_read (cap : option capture)
  : M (bool * option loc * option capture) :=
  match cap with
  | None => raise AttributeError
  | Some (Synth g) =>
      let! (ok, frame, g) := read E g in
      ret (ok, Some frame, Some (Synth g))
  | Some (Device v) =>
      let! (ok, img, v) := lift (vc_read D v) in
      match img with
      | Some a => let! l := alloc a in ret (ok, Some l, Some (Device v))
      | None => ret (ok, None, Some (Device v))
      end
  end.

(** [getImg(cam, frame)]: only a [cv.VideoCapture] has a method [set];
    the flag that [read] returns is not looked at, and [cv.resize]
    refuses [None]. *)
Definition getImg (cam : option capture) (frame : Z)
  : M (loc * option capture) :=
  match cam with
  | Some (Device v) =>
      let! v := lift (cap_set E v 1 frame) in
      let! (_, icol, cam) := capture_read (Some (Device v)) in
      match icol with
      | Some l =>
          let! a := load l in
          let! r := lift (cv_resize_half D a) in
          let! icol := alloc r in
          ret (icol, cam)
      | None => raise CvError
      end
  | _ => raise AttributeError
  end.

(** [cv.imshow(window, img)]: refused on [None] and on an empty array *)
Definition cv_imshow (window : string) (img : option loc) : M event :=
  match img with
  | Some l =>
      let! a := load l in
      if (0 <? rows a)%N && (0 <? cols a)%N then ret (Shown window l)
      else raise CvError
  | None => raise CvError
  end.

(** Lines 224 to 227, from index [i] on: a frame of every source, shown
    in the window of its index.  The frames, the sources afterwards and
    what was shown. *)
Fixpoint show_frames (i : Z) (caps : list (option capture))
  : M (list (option loc) * list (option capture) * list event) :=
  match caps with
  | [] => ret ([], [], [])
  | cap :: rest =>
      let! (_, img, cap) := capture_read cap in
      let! shown := cv_imshow ("capture " ++ Py.str i) img in
      let! (imgs, rest, evs) := show_frames (i + 1) rest in
      ret (img :: imgs, cap :: rest, shown :: evs)
  end.

(** ['%s/shot_%d_%03d.bmp' % (shotdir, i, shot_idx)] *)
Definition shot_name (shotdir : string) (i shot_idx : Z) : string :=
  (shotdir ++ "/shot_" ++ Py.str i ++ "_" ++ Py.pad3 shot_idx ++ ".bmp")%string.

(** Lines 232 to 235, from index [i] on: every frame written under a
    name of its own and reported.  Every frame was shown before, so
    none of them is [None]. *)
Fixpoint save_shots (shotdir : string) (i shot_idx : Z)
    (imgs : list (option loc)) : M (list event) :=
  match imgs with
  | [] => ret []
  | img :: rest =>
      let fn := shot_name shotdir i shot_idx in
      match img with
      | Some l =>
          let! evs := save_shots shotdir (i + 1) shot_idx rest in
          ret (Written fn l :: Saved fn :: evs)
      | None => raise CvError
      end
  end.

(** The loop of lines 222 to 236.  [keys] are the values that the
    successive calls of [cv.waitKey(1)] return; [None] means that the
    loop is still running when they are used up.  The result: what was
    shown, written and printed after [evs], the sources, the counter of
    screenshots and the store at the [break]. *)
Fixpoint main_loop (keys : list Z) (shotdir : string)
    (caps : list (option capture)) (shot_idx : Z) (evs : list event)
    (w : world)
  : option (result (list event * list (option capture) * Z * world)) :=
  match show_frames 0 caps w with
  | Raise e => Some (Raise e)
  | Ok (imgs, caps, shown, w) =>
      match keys with
      | [] => None
      | ch :: keys =>
          if ch =? 27 then Some (Ok (evs ++ shown, caps, shot_idx, w))
          else if ch =? Z.of_N (Py.ord " ") then
            match save_shots shotdir 0 shot_idx imgs w with
            | Raise e => Some (Raise e)
            | Ok (saved, w) =>
                main_loop keys shotdir caps (shot_idx + 1)
                  (evs ++ shown ++ saved) w
            end
          else main_loop keys shotdir caps shot_idx (evs ++ shown) w
      end
  end.

(** [list(map(create_capture, sources))]: each source with the default
    fallback, in order. *)
Fixpoint open_all (fuel : nat) (sources : list py_source) (w : world)
  : option (result (list (option capture) * world)) :=
  match sources with
  | [] => Some (Ok ([], w))
  | source :: rest =>
      match create_capture_call fuel source default_fallback w with
      | None => None
      | Some (Raise e) => Some (Raise e)
      | Some (Ok (cap, w)) =>
          match open_all fuel rest w with
          | None => None
          | Some (Raise e) => Some (Raise e)
          | Some (Ok (caps, w)) => Some (Ok (cap :: caps, w))
          end
      end
  end.

(** The script from line 216 on, for the value of the option
    [--shotdir], when it is given, and the sources of the command line. *)
Definition main (fuel : nat) (keys : list Z) (shotdir : option string)
    (sources : list string) (w : world)
  : option (result (list event * world)) :=
  let shotdir := default "." shotdir in
  let sources :=
    match sources with
    | [] => [IntSource 0]
    | _ => map StrSource sources
    end in
  match open_all fuel sources w with
  | None => None
  | Some (Raise e) => Some (Raise e)
  | Some (Ok (caps, w)) =>
      match main_loop keys shotdir caps 0 [] w with
      | None => None
      | Some (Raise e) => Some (Raise e)
      | Some (Ok (evs, _, _, w)) => Some (Ok (evs ++ [Windows_destroyed], w))
      end
  end.

(** A source that the loop can read for ever, whatever the engines
    do: a base or Chess object whose background is in the store [hp]
    and whose frames are not empty. *)
Definition steady (hp : list image) (cap : option capture) : bool :=
  match cap with
  | Some (Synth g) =>
      inherits_read g && valid (base_of g) hp
      && (0 <? fst (frame_size (base_of g)))
      && (0 <? snd (frame_size (base_of g)))
  | _ => false
  end.

(** The windows that were shown a frame, in order. *)
Definition shown_windows (evs : list event) : list string :=
  flat_map (fun e => match e with Shown window _ => [window] | _ => [] end)
    evs.

(** The paths handed to [cv.imwrite], in order. *)
Definition written_paths (evs : list event) : list string :=
  flat_map (fun e => match e with Written path _ => [path] | _ => [] end) evs.

(** The picture that the loop of [draw_quads] leaves of [a]: the
    polygons of [img_quads] drawn into it, first to last. *)
Definition paint (color : Z * Z * Z) (a : image)
    (img_quads : list (list (R * R))) : image :=
  fold_left
    (fun (a : image) (q : list (R * R)) =>
       Image (rows a) (cols a)
         (cv_fillConvexPoly E a
            (map (fun p : R * R =>
                    (np_int32 (fst p * 4), np_int32 (snd p * 4))) q)
            color))
    img_quads a.

End Script.

(** ** The camera path in the words of the specification

    Section 4.2, steps 2 to 5, for a board of [sx] by [sy] squares at
    time [t]: the elevation, the eye and the target. *)
Definition Chess_camera_spec (sx sy : Z) (t : R) : R * vec3 * vec3 :=
  let phi := (PI / 3 + sin (3 * t) * PI / 8)%R in
  let ofs1 := (sin (1.2 * t) * (0.2 * IZR sx))%R in
  let ofs2 := (cos (1.8 * t) * (0.2 * IZR sx))%R in
  let ofs3 := (0 * (0.2 * IZR sx))%R in
  (phi,
   (0.5 * IZR sx + cos t * cos phi * 15 + ofs1,
    0.5 * IZR sy + sin t * cos phi * 15 + ofs2,
    0 + sin phi * 15 + ofs3)%R,
   (0.5 * IZR sx + ofs1, 0.5 * IZR sy + ofs2, 0 + ofs3)%R).

(** ** A sample environment

    A machine with two image files and no camera, used to run the
    definitions on concrete inputs: [bg.png] is 3 by 2 pixels, the
    picture of the book scene 2 by 1.  The pixel work is the simplest
    that has the right shape. *)

Definition sample_files (path : string) : option image :=
  if String.eqb path "bg.png" then Some (Image 2 3 (repeat 7 18))
  else if String.eqb path "../data/graf1.png" then Some (Image 1 2 (repeat 9 6))
  else None.

Definition sample_float (s : string) : option R :=
  if String.eqb s "0" then Some 0%R
  else if String.eqb s "0.0" then Some 0%R
  else if String.eqb s "0.1" then Some (1 / 10)%R
  else None.

Definition sample_env : Env := {|
  cv_imread := sample_files;
  cv_resize_data := fun a w h => repeat (hd 0 (data a)) (Z.to_nat (h * w * 3));
  py_float := sample_float;
  cv_randn := fun g h w sigma => (repeat 0 (Z.to_nat (h * w * 3)), N.succ g);
  lookat := fun eye target => ([], eye);
  mtx2rvec := fun _ => (0, 0, 0)%R;
  cv_projectPoint :=
    fun p _ _ _ _ => (IZR (fst (fst p)), IZR (snd (fst p)));
  cv_fillConvexPoly := fun a _ _ => data a;
  TestSceneRender_init :=
    fun bgImg _ _ _ =>
      match bgImg with
      | Some a => Ok {| sceneBg := a; scene_state := 0 |}
      | None => Raise ExternalError
      end;
  getNextFrame :=
    fun e => Ok (sceneBg e,
                 {| sceneBg := sceneBg e;
                    scene_state := N.succ (scene_state e) |});
  cv_VideoCapture := fun _ => Ok {| vc_handle := 0; vc_isOpened := false |};
  cap_set := fun v _ _ => Ok v
|}.

(** A camera, when one is handed in, delivers one black pixel; halving
    a picture leaves it as it is. *)
Definition sample_device : Device_env := {|
  vc_read := fun v => Ok (true, Some (Image 1 1 [0; 0; 0]), v);
  cv_resize_half := fun a => Ok a
|}.

Definition empty_world : world := World [] 0 [].

(** The keyword arguments of the sample constructions, and a world
    that holds the background of a base object already. *)
Definition sample_kw : gmap string string :=
  <["size" := "4x3"]> (<["bg" := "bg.png"]> ∅).

Definition sample_base : VideoSynthBase :=
  {| bg := Some 0%nat; frame_size := (3, 2); noise := 0%R |}.

Definition sample_world : world := World [Image 2 3 (repeat 7 18)] 0 [].

Ltac unfold_monad :=
  unfold bind, ret, raise, lift, alloc, load, store, print in *.

(** * Facts *)

(** ** Strings *)

Example split_examples :
  Py.split ":" "synth:" = ["synth"; ""]
  /\ Py.split ":" "a::b" = ["a"; ""; "b"]
  /\ Py.split "=" "noise=0.1" = ["noise"; "0.1"]
  /\ Py.split "=" "" = [""].
Proof. repeat split. Qed.

Example int_examples :
  Py.int " 12 " = Some 12 /\ Py.int "-5" = Some (-5) /\ Py.int "1_0" = Some 10
  /\ Py.int "007" = Some 7 /\ Py.int "1__0" = None /\ Py.int "- 5" = None
  /\ Py.int "" = None /\ Py.int "1_" = None /\ Py.int "synth" = None.
Proof. repeat split. Qed.

Example parse_size_examples :
  parse_size "320x240" = Ok (320, 240)
  /\ parse_size " 3 x 4 " = Ok (3, 4)
  /\ parse_size "3x4x5" = Raise ValueError
  /\ parse_size "3X4" = Raise ValueError.
Proof. repeat split. Qed.

Lemma split_head_tail sep s : exists h t, Py.split sep s = h :: t.
Proof.
  induction s as [|c r IH]; simpl; [eauto|].
  destruct (Ascii.eqb c sep); [eauto|].
  destruct IH as (h & t & ->). eauto.
Qed.

Lemma split_without_separator sep s :
  Py.contains sep s = false -> Py.split sep s = [s].
Proof.
  induction s as [|c r IH]; simpl; [reflexivity|].
  intros H. apply orb_false_iff in H as [Hc Hr].
  rewrite Hc, (IH Hr). reflexivity.
Qed.

Lemma split_cons_other sep c s :
  c <> sep ->
  Py.split sep (String c s)
  = match Py.split sep s with
    | h :: t => String c h :: t
    | [] => [String c ""]
    end.
Proof.
  intros Hne. cbn [Py.split].
  destruct (Ascii.eqb_spec c sep); [contradiction|reflexivity].
Qed.

Lemma split_app_sep sep s :
  Py.split sep (s ++ String sep "") = Py.split sep s ++ [""].
Proof.
  induction s as [|c r IH]; simpl.
  - rewrite Ascii.eqb_refl. reflexivity.
  - destruct (Ascii.eqb c sep); [rewrite IH; reflexivity|].
    rewrite IH. destruct (split_head_tail sep r) as (h & t & ->). reflexivity.
Qed.

Lemma split_singleton sep s h : Py.split sep s = [h] -> h = s.
Proof.
  revert h. induction s as [|c r IH]; simpl; intros h H.
  - congruence.
  - destruct (Ascii.eqb c sep).
    + destruct (split_head_tail sep r) as (h' & t' & E'). rewrite E' in H.
      discriminate.
    + destruct (split_head_tail sep r) as (h' & t' & E'). rewrite E' in H.
      injection H as <- ->. rewrite (IH h' E'). reflexivity.
Qed.

Lemma split_first_char sep s c rest :
  Py.split sep s = String c "" :: rest -> exists r, s = String c r.
Proof.
  destruct s as [|d r]; cbn [Py.split]; [discriminate|].
  destruct (Ascii.eqb d sep); [discriminate|].
  destruct (split_head_tail sep r) as (h & tl & ->).
  intros [= -> _ _]. eauto.
Qed.

Lemma rstrip_cons c s :
  Py.isspace c = false -> Py.rstrip (String c s) = String c (Py.rstrip s).
Proof.
  intros H. cbn [Py.rstrip]. rewrite H. destruct (Py.rstrip s); reflexivity.
Qed.

Lemma rstrip_blank_no_separator sep s :
  Py.isspace sep = false -> Py.rstrip s = "" -> Py.contains sep s = false.
Proof.
  intros Hsep. induction s as [|d r IH]; [reflexivity|].
  cbn [Py.rstrip Py.contains]. intros H.
  destruct (Py.rstrip r) eqn:Hr; [|discriminate].
  destruct (Py.isspace d) eqn:Hd; [|discriminate].
  rewrite (IH eq_refl), orb_false_r.
  destruct (Ascii.eqb_spec d sep) as [->|]; [congruence|reflexivity].
Qed.

Lemma rstrip_last_cons x y rest :
  Py.rstrip_last (x :: y :: rest) = x :: Py.rstrip_last (y :: rest).
Proof. reflexivity. Qed.

(** Stripping the end of a string strips the end of its last token. *)
Lemma split_rstrip sep s :
  Py.isspace sep = false ->
  Py.split sep (Py.rstrip s) = Py.rstrip_last (Py.split sep s).
Proof.
  intros Hsep. induction s as [|c r IH]; [reflexivity|].
  destruct (split_head_tail sep r) as (h & tl & Hr).
  cbn [Py.split]. destruct (Ascii.eqb_spec c sep) as [->|Hne].
  - rewrite (rstrip_cons _ _ Hsep). cbn [Py.split].
    rewrite Ascii.eqb_refl, IH, Hr. reflexivity.
  - rewrite Hr. rewrite Hr in IH.
    destruct (Py.rstrip r) as [|d r'] eqn:Hstrip.
    + pose proof (rstrip_blank_no_separator sep r Hsep Hstrip) as Hno.
      rewrite (split_without_separator _ _ Hno) in Hr. injection Hr as <- <-.
      cbn [Py.rstrip_last Py.rstrip]. rewrite Hstrip.
      destruct (Py.isspace c); [reflexivity|].
      cbn [Py.split].
      destruct (Ascii.eqb_spec c sep); [contradiction|reflexivity].
    + assert (Hcons : Py.rstrip (String c r) = String c (String d r')).
      { cbn [Py.rstrip]. rewrite Hstrip. reflexivity. }
      rewrite Hcons, (split_cons_other _ _ _ Hne), IH.
      destruct tl as [|y rest].
      * apply split_singleton in Hr. subst h.
        cbn [Py.rstrip_last]. rewrite Hcons, Hstrip. reflexivity.
      * rewrite !rstrip_last_cons. reflexivity.
Qed.

Lemma alpha_not_space c : Py.isalpha_char c = true -> Py.isspace c = false.
Proof.
  destruct c as [[] [] [] [] [] [] [] []]; intros H;
    try reflexivity; discriminate H.
Qed.

(** The tokens that [create_capture] sees when the descriptor starts
    with a drive letter. *)
Lemma split_strip_drive source c second rest :
  Py.split ":" source = String c "" :: second :: rest ->
  Py.isalpha_char c = true ->
  Py.split ":" (Py.strip source)
  = String c "" :: Py.rstrip_last (second :: rest).
Proof.
  intros Hsplit Halpha.
  destruct (split_first_char _ _ _ _ Hsplit) as (r & ->).
  unfold Py.strip. cbn [Py.lstrip]. rewrite (alpha_not_space _ Halpha).
  rewrite split_rstrip by reflexivity. rewrite Hsplit. reflexivity.
Qed.

Lemma int_rstrip_cons c s :
  Py.int_space c = false ->
  Py.int_rstrip (String c s) = String c (Py.int_rstrip s).
Proof.
  intros H. simpl. rewrite H. destruct (Py.int_rstrip s); reflexivity.
Qed.

(** A token that starts with a letter is not an integer literal. *)
Lemma int_of_letter c s : Py.isalpha_char c = true -> Py.int (String c s) = None.
Proof.
  intros H. unfold Py.int.
  assert (Hsp : Py.int_space c = false).
  { destruct c as [[] [] [] [] [] [] [] []]; try reflexivity; discriminate H. }
  cbn [Py.int_lstrip]. rewrite Hsp, (int_rstrip_cons _ _ Hsp).
  destruct c as [[] [] [] [] [] [] [] []]; try discriminate H; reflexivity.
Qed.

(** ** Descriptors *)

Lemma drive_letter_merge c second rest :
  Py.isalpha_char c = true ->
  drive_letter (String c "" :: second :: rest)
  = String c (String ":" second) :: rest.
Proof.
  intros H. unfold drive_letter, Py.isalpha.
  cbn [Py.len String.length Py.all_alpha]. rewrite H. reflexivity.
Qed.

Lemma drive_letter_tail_last chunks :
  (2 <= length chunks)%nat ->
  In "" (tl (drive_letter (chunks ++ [""]))).
Proof.
  destruct chunks as [|c0 [|c1 r]]; simpl; try lia. intros _.
  destruct ((Py.len c0 =? 1) && Py.isalpha c0); cbn [tl];
    [|right]; apply in_or_app; right; left; reflexivity.
Qed.

(** A descriptor that ends in a colon has an empty last parameter,
    unless it is a drive letter and its colon. *)
Lemma trailing_colon_empty_token source s :
  Py.strip source = (s ++ ":")%string ->
  (Py.len s =? 1) && Py.isalpha s = false ->
  In "" (tl (descriptor_chunks source)).
Proof.
  intros Hs Hnot. unfold descriptor_chunks. rewrite Hs, split_app_sep.
  destruct (Py.split ":" s) as [|c0 [|c1 r]] eqn:Hsp.
  - destruct (split_head_tail ":" s) as (? & ? & ?); congruence.
  - apply split_singleton in Hsp. subst c0.
    cbn [app drive_letter]. rewrite Hnot. left. reflexivity.
  - apply (drive_letter_tail_last (c0 :: c1 :: r)). simpl. lia.
Qed.

Lemma py_dict_malformed items : forall acc it,
  In it items -> length it <> 2%nat -> py_dict items acc = Raise ValueError.
Proof.
  induction items as [|x rest IH]; intros acc it Hin Hlen; [destruct Hin|].
  destruct Hin as [->|Hin].
  - destruct it as [|a [|b [|c r]]]; simpl; try reflexivity.
    exfalso. apply Hlen. reflexivity.
  - destruct x as [|a [|b [|c r]]]; simpl; try reflexivity.
    eapply IH; eauto.
Qed.

Lemma parse_descriptor_malformed source tok :
  In tok (tl (descriptor_chunks source)) ->
  Py.contains "=" tok = false ->
  parse_descriptor source = Raise ValueError.
Proof.
  intros Hin Hno. unfold parse_descriptor.
  rewrite (py_dict_malformed _ ∅ [tok]); [reflexivity| |simpl; lia].
  apply in_map_iff. exists tok. split; [|assumption].
  apply split_without_separator. assumption.
Qed.

(** C7. When the first colon-separated token of a descriptor is one
    alphabetic character and a further token follows, [create_capture]
    merges the two back into one path token: the tokens it works with
    are the merged path and then the remaining tokens (the last of them
    without the blanks that end the descriptor), the source is that
    path, not an integer and not the letter alone, and only the
    remaining tokens are read as parameters. *)
Theorem drive_letter_is_merged source c second rest :
  Py.split ":" source = String c "" :: second :: rest ->
  Py.isalpha_char c = true ->
  exists second' rest',
    Py.rstrip_last (second :: rest) = second' :: rest'
    /\ descriptor_chunks source = String c (String ":" second') :: rest'
    /\ (forall params,
          py_dict (map (Py.split "=") rest') ∅ = Ok params ->
          parse_descriptor source
          = Ok (SrcStr (String c (String ":" second')), params))
    /\ (forall e,
          py_dict (map (Py.split "=") rest') ∅ = Raise e ->
          parse_descriptor source = Raise e).
Proof.
  intros Hsplit Halpha.
  pose proof (split_strip_drive _ _ _ _ Hsplit Halpha) as Hstrip.
  assert (Hne : exists second' rest',
             Py.rstrip_last (second :: rest) = second' :: rest').
  { destruct rest; cbn [Py.rstrip_last]; eauto. }
  destruct Hne as (second' & rest' & Hlast). rewrite Hlast in Hstrip.
  exists second', rest'. split; [exact Hlast|].
  assert (Hchunks : descriptor_chunks source
                    = String c (String ":" second') :: rest').
  { unfold descriptor_chunks. rewrite Hstrip.
    apply drive_letter_merge, Halpha. }
  split; [exact Hchunks|].
  unfold parse_descriptor. rewrite Hchunks. cbn [hd tl].
  rewrite (int_of_letter _ _ Halpha).
  split; intros ? ->; reflexivity.
Qed.

(** ** The factory *)

Section Factory.

Context (E : Env).

Lemma create_capture_parse_error source e fuel fallback w :
  parse_descriptor source = Raise e ->
  create_capture E (S fuel) source fallback w = Some (Raise e).
Proof.
  intros H. simpl. unfold open_source, bind, lift. rewrite H. reflexivity.
Qed.

(** Without a fallback the body runs once and does not call itself. *)
Lemma create_capture_without_fallback k source w :
  create_capture E (S k) source None w
  = match open_source E source w with
    | Raise e => Some (Raise e)
    | Ok (src, cap, w1) =>
        if unopened cap then Some (Ok (cap, warned src w1))
        else Some (Ok (cap, w1))
    end.
Proof.
  cbn [create_capture].
  destruct (open_source E source w) as [[[src cap] w1]|]; [|reflexivity].
  destruct (unopened cap); reflexivity.
Qed.

Lemma create_capture_terminates source fallback w :
  exists r, create_capture E 2 source fallback w = Some r.
Proof.
  cbn [create_capture].
  destruct (open_source E source w) as [[[src cap] w1]|]; [|eauto].
  destruct (unopened cap); [|eauto]. unfold print.
  destruct fallback as [fb|]; [|eauto].
  destruct (open_source E fb _) as [[[src' cap'] w2]|]; [|eauto].
  destruct (unopened cap'); eauto.
Qed.

Lemma open_source_synth source params w :
  parse_descriptor source = Ok (SrcStr "synth", params) ->
  open_source E source w
  = match construct E (select_class params) params w with
    | Ok (g, w') => Ok (SrcStr "synth", Some (Synth g), w')
    | Raise _ => Ok (SrcStr "synth", None, w)
    end.
Proof.
  intros Hp. unfold open_source, lift, bind. rewrite Hp.
  unfold try_or_None, bind, ret.
  destruct (construct E (select_class params) params w) as [[g w']|];
    reflexivity.
Qed.

(** C1. When the source that the descriptor resolves to is missing or
    not opened, [create_capture] prints the diagnostic and resolves the
    fallback once, with no fallback of its own: whatever depth of calls
    is allowed, the result is what the fallback resolves to, opened or
    not (after a second diagnostic when it is not), or the exception
    that its resolution raises; it is the result of one call on the
    fallback with fallback [None], for which a depth of one call is
    enough.  Two nested calls are therefore always enough: the
    resolution ends for every descriptor and fallback. *)
Theorem create_capture_one_fallback_hop source fb w src cap w1 :
  open_source E source w = Ok (src, cap, w1) ->
  unopened cap = true ->
  (forall k,
     create_capture E (S (S k)) source (Some fb) w
     = match open_source E fb (warned src w1) with
       | Raise e => Some (Raise e)
       | Ok (src', cap', w2) =>
           Some (Ok (cap', if unopened cap' then warned src' w2 else w2))
       end)
  /\ (forall k, create_capture E (S (S k)) source (Some fb) w
              = create_capture E 1 fb None (warned src w1))
  /\ (forall source' fallback' w',
        exists r, create_capture E 2 source' fallback' w' = Some r).
Proof.
  intros Hopen Hun.
  assert (Hhop : forall k, create_capture E (S (S k)) source (Some fb) w
                           = create_capture E 1 fb None (warned src w1)).
  { intros k. cbn [create_capture]. rewrite Hopen, Hun. unfold print.
    destruct (open_source E fb _) as [[[src' cap'] w2]|]; [|reflexivity].
    destruct (unopened cap'); reflexivity. }
  split; [|split].
  - intros k. rewrite Hhop, create_capture_without_fallback.
    destruct (open_source E fb _) as [[[src' cap'] w2]|]; [|reflexivity].
    destruct (unopened cap'); reflexivity.
  - exact Hhop.
  - intros. apply create_capture_terminates.
Qed.

(** C8. A parameter token without an equals sign makes the parse of
    the descriptor fail: [parse_descriptor] raises [ValueError] and so
    does [create_capture], whatever the fallback, so no source is built
    from the descriptor.  A class name that is not in the registry is
    no error: the class selected is the base generator, and the
    descriptor resolves to what the base constructor makes of the
    parameters; with nothing but an unknown class that is an opened
    base generator with the default frame size. *)
Theorem malformed_parameter_fails_parse source fallback fuel w :
  (forall tok,
     In tok (tl (descriptor_chunks source)) ->
     Py.contains "=" tok = false ->
     parse_descriptor source = Raise ValueError
     /\ create_capture E (S fuel) source fallback w = Some (Raise ValueError))
  /\ (forall params name,
        parse_descriptor source = Ok (SrcStr "synth", params) ->
        params !! "class" = Some name ->
        classes !! name = None ->
        select_class params = VideoSynthBase_class
        /\ open_source E source w
           = match VideoSynthBase_init E params w with
             | Ok (b, w') => Ok (SrcStr "synth", Some (Synth (Base_obj b)), w')
             | Raise _ => Ok (SrcStr "synth", None, w)
             end)
  /\ create_capture E (S fuel) "synth:class=nosuch" fallback w
     = Some (Ok (Some (Synth (Base_obj {| bg := None;
                                          frame_size := (640, 480);
                                          noise := 0%R |})), w)).
Proof.
  split; [|split].
  - intros tok Hin Hno.
    pose proof (parse_descriptor_malformed _ _ Hin Hno) as Hp.
    split; [assumption|]. apply create_capture_parse_error. assumption.
  - intros params name Hp Hclass Hunknown.
    assert (Hsel : select_class params = VideoSynthBase_class).
    { unfold select_class. rewrite Hclass, Hunknown. reflexivity. }
    split; [assumption|].
    rewrite (open_source_synth _ _ _ Hp), Hsel. cbn [construct].
    unfold bind, ret.
    destruct (VideoSynthBase_init E params w) as [[b w']|]; reflexivity.
  - reflexivity.
Qed.

(** C10, as amended. A descriptor whose parameters (the tokens of the
    descriptor without the blanks around it, after the source, a drive
    letter merged back first) contain an empty token makes
    [create_capture] raise [ValueError] while it builds the parameter
    dictionary.  Every descriptor that ends in a colon once the blanks
    around it are stripped is one of these, unless what then stands
    before the colon is a single letter; the preset [empty], which is
    [synth:], is one of them. *)
Theorem empty_parameter_token_raises fuel fallback w :
  (forall source,
     In "" (tl (descriptor_chunks source)) ->
     create_capture E (S fuel) source fallback w = Some (Raise ValueError))
  /\ (forall source s,
        Py.strip source = (s ++ ":")%string ->
        (Py.len s =? 1) && Py.isalpha s = false ->
        create_capture E (S fuel) source fallback w = Some (Raise ValueError))
  /\ presets !! "empty" = Some "synth:"
  /\ create_capture E (S fuel) "synth:" fallback w = Some (Raise ValueError).
Proof.
  assert (Hgen : forall source,
            In "" (tl (descriptor_chunks source)) ->
            create_capture E (S fuel) source fallback w
            = Some (Raise ValueError)).
  { intros source Hin. apply create_capture_parse_error.
    apply (parse_descriptor_malformed source ""); [assumption|reflexivity]. }
  split; [exact Hgen|]. split; [|split].
  - intros source s Hs Hnot. apply Hgen.
    eapply trailing_colon_empty_token; eassumption.
  - reflexivity.
  - reflexivity.
Qed.

End Factory.

(** ** Buffers and drawing *)

Section Sources.

Context (E : Env).

Lemma lookup_second_new {A} (hp : list A) x y :
  (hp ++ [x; y]) !! length (hp ++ [x]) = Some y.
Proof.
  replace (hp ++ [x; y]) with ((hp ++ [x]) ++ [y])
    by (rewrite <- app_assoc; reflexivity).
  apply list_lookup_middle. reflexivity.
Qed.

Lemma nonneg_dims_accepted fw fh :
  0 <= fw -> 0 <= fh -> (fh <? 0) || (fw <? 0) = false.
Proof. intros. apply orb_false_iff. split; apply Z.ltb_ge; assumption. Qed.

(** Polygons are drawn into the array itself: the store keeps its
    length and its other buffers, the array keeps its shape. *)
Lemma fill_quads_inplace img color qs : forall w a,
  heap w !! img = Some a ->
  exists a', fill_quads E img qs color w
             = Ok (tt, World (<[img := a']> (heap w)) (rng w) (stdout w))
             /\ rows a' = rows a /\ cols a' = cols a.
Proof.
  induction qs as [|q rest IH]; intros w a Hl; cbn [fill_quads].
  - exists a. rewrite list_insert_id by assumption. destruct w; auto.
  - unfold_monad. rewrite Hl.
    set (a1 := Image (rows a) (cols a) _).
    pose proof (lookup_lt_Some _ _ _ Hl) as Hlt.
    destruct (IH (World (<[img := a1]> (heap w)) (rng w) (stdout w)) a1)
      as (a' & Hrun & Hr & Hc).
    { cbn [heap]. apply list_lookup_insert_eq. assumption. }
    exists a'. rewrite Hrun. cbn [heap rng stdout].
    rewrite list_insert_insert_eq. auto.
Qed.

Lemma draw_quads_inplace c img quads color rv tv w a :
  rvec c = Some rv -> tvec c = Some tv ->
  heap w !! img = Some a ->
  exists a', draw_quads E c img quads color w
             = Ok (tt, World (<[img := a']> (heap w)) (rng w) (stdout w))
             /\ rows a' = rows a /\ cols a' = cols a.
Proof.
  intros Hr Ht Hl. unfold draw_quads. rewrite Hr, Ht.
  apply fill_quads_inplace. assumption.
Qed.

(** [Chess.render] on an allocated array always returns: it leaves
    [Chess_next] and an array of the same shape in the same place. *)
Lemma Chess_render_inplace c dst w a :
  heap w !! dst = Some a ->
  exists a', Chess_render E c dst w
             = Ok (Chess_next E c,
                   World (<[dst := a']> (heap w)) (rng w) (stdout w))
             /\ rows a' = rows a /\ cols a' = cols a.
Proof.
  intros Hl. unfold Chess_render, Chess_next.
  cbn [chess_base grid_size white_quads black_quads K dist_coef t rvec tvec].
  destruct (Chess_camera (grid_size c) (t c)) as [[phi eye] target].
  destruct (lookat E eye target) as [Rm tv].
  cbn [chess_base grid_size white_quads black_quads K dist_coef t rvec tvec].
  set (c' := {| chess_base := chess_base c; t := _; rvec := Some _ |}).
  pose proof (lookup_lt_Some _ _ _ Hl) as Hlt.
  destruct (draw_quads_inplace c' dst (white_quads c) (245, 245, 245)
              (mtx2rvec E Rm) tv w a eq_refl eq_refl Hl)
    as (a1 & H1 & Hr1 & Hc1).
  unfold bind at 1. rewrite H1.
  destruct (draw_quads_inplace c' dst (black_quads c) (10, 10, 10)
              (mtx2rvec E Rm) tv
              (World (<[dst := a1]> (heap w)) (rng w) (stdout w)) a1
              eq_refl eq_refl) as (a2 & H2 & Hr2 & Hc2).
  { cbn [heap]. apply list_lookup_insert_eq. assumption. }
  unfold bind. rewrite H2. cbn [heap rng stdout].
  rewrite list_insert_insert_eq.
  exists a2. unfold ret. split; [reflexivity|]. split; congruence.
Qed.

Lemma Chess_render_result c dst w c' w' :
  Chess_render E c dst w = Ok (c', w') -> c' = Chess_next E c.
Proof.
  unfold Chess_render, Chess_next.
  cbn [chess_base grid_size white_quads black_quads K dist_coef t rvec tvec].
  destruct (Chess_camera _ _) as [[? ?] ?]. destruct (lookat _ _ _).
  cbn [chess_base grid_size white_quads black_quads K dist_coef t rvec tvec].
  unfold bind, ret.
  destruct (draw_quads _ _ _ _ _ _) as [[[] w1]|]; [|discriminate].
  destruct (draw_quads _ _ _ _ _ _) as [[[] w2]|]; [|discriminate].
  intros [= <- <-]. reflexivity.
Qed.

Lemma Chess_next_fields c :
  chess_base (Chess_next E c) = chess_base c
  /\ grid_size (Chess_next E c) = grid_size c
  /\ white_quads (Chess_next E c) = white_quads c
  /\ black_quads (Chess_next E c) = black_quads c
  /\ K (Chess_next E c) = K c
  /\ dist_coef (Chess_next E c) = dist_coef c
  /\ t (Chess_next E c) = (t c + 1 / 30)%R.
Proof.
  unfold Chess_next. destruct (Chess_camera _ _) as [[? ?] ?].
  destruct (lookat _ _ _). cbn. auto 10.
Qed.

(** The pose that a call of [render] stores comes from the camera at
    the time the object held when the call began. *)
Lemma Chess_next_pose c phi eye_pos target_pos :
  Chess_camera (grid_size c) (t c) = (phi, eye_pos, target_pos) ->
  tvec (Chess_next E c) = Some (snd (lookat E eye_pos target_pos))
  /\ rvec (Chess_next E c)
     = Some (mtx2rvec E (fst (lookat E eye_pos target_pos))).
Proof.
  intros Hcam. unfold Chess_next. rewrite Hcam.
  destruct (lookat E eye_pos target_pos). cbn. auto.
Qed.

Lemma iter_Chess_next_clock n c :
  t (Nat.iter n (Chess_next E) c) = (t c + INR n / 30)%R
  /\ grid_size (Nat.iter n (Chess_next E) c) = grid_size c.
Proof.
  induction n as [|n [IHt IHg]].
  - cbn [Nat.iter nat_rect INR]. split; [lra|reflexivity].
  - rewrite Nat.iter_succ.
    destruct (Chess_next_fields (Nat.iter n (Chess_next E) c))
      as (_ & Hg & _ & _ & _ & _ & Ht).
    rewrite Ht, Hg, IHt, S_INR. split; [lra|assumption].
Qed.

(** ** The inherited read *)

Lemma valid_inv b hp :
  valid b hp = true ->
  0 <= fst (frame_size b) /\ 0 <= snd (frame_size b) /\
  match bg b with
  | Some l => exists a, hp !! l = Some a
                        /\ Z.of_N (cols a) = fst (frame_size b)
                        /\ Z.of_N (rows a) = snd (frame_size b)
  | None => True
  end.
Proof.
  unfold valid. destruct (frame_size b) as [fw fh]. cbn [fst snd].
  intros H. apply andb_prop in H as [H Hbg]. apply andb_prop in H as [Hw Hh].
  repeat split; try lia.
  destruct (bg b) as [l|]; [|exact I].
  destruct (hp !! l) as [a|]; [|discriminate].
  apply andb_prop in Hbg as [Hc Hr]. exists a. repeat split; lia.
Qed.

Lemma valid_grows b hp extra :
  valid b hp = true -> valid b (hp ++ extra) = true.
Proof.
  unfold valid. destruct (frame_size b) as [fw fh].
  destruct (bg b) as [l|]; [|auto].
  destruct (hp !! l) as [a|] eqn:Hl.
  - rewrite (lookup_app_l_Some _ _ _ _ Hl). auto.
  - rewrite andb_false_r. discriminate.
Qed.

Lemma still_frame_grows b hp extra :
  valid b hp = true -> still_frame b (hp ++ extra) = still_frame b hp.
Proof.
  intros Hv. destruct (valid_inv _ _ Hv) as (_ & _ & Hbg).
  unfold still_frame. destruct (frame_size b) as [fw fh].
  destruct (bg b) as [l|]; [|reflexivity].
  destruct Hbg as (a & Hl & _).
  rewrite (lookup_app_l_Some _ _ _ _ Hl), Hl. reflexivity.
Qed.

(** The first step of [read]: a new buffer that holds the still frame. *)
Lemma read_buffer b w :
  valid b (heap w) = true ->
  match bg b with
  | None => np_zeros (snd (frame_size b)) (fst (frame_size b))
  | Some l => np_copy l
  end w
  = Ok (length (heap w),
        World (heap w ++ [still_frame b (heap w)]) (rng w) (stdout w))
  /\ Z.of_N (rows (still_frame b (heap w))) = snd (frame_size b)
  /\ Z.of_N (cols (still_frame b (heap w))) = fst (frame_size b).
Proof.
  intros Hv. destruct (valid_inv _ _ Hv) as (Hw & Hh & Hbg).
  unfold still_frame. destruct (frame_size b) as [fw fh]. cbn [fst snd] in *.
  destruct (bg b) as [l|].
  - destruct Hbg as (a & Hl & Hc & Hr). unfold np_copy. unfold_monad.
    rewrite Hl. simpl. auto.
  - unfold np_zeros. rewrite nonneg_dims_accepted by assumption.
    unfold_monad. cbn [rows cols]. rewrite !Z2N.id by assumption. auto.
Qed.

(** [VideoSynthBase.read] on a valid object, for any [render] that
    draws in place and leaves [next self]: it returns [True] and a
    buffer that was not in the store before, of the frame size. *)
Lemma VideoSynthBase_read_total {S : Type} (base : S -> VideoSynthBase)
    (render : S -> loc -> M S) (next : S -> S) (self : S) (w : world) :
  (forall dst w a, heap w !! dst = Some a ->
     exists a', render self dst w
                = Ok (next self,
                      World (<[dst := a']> (heap w)) (rng w) (stdout w))
                /\ rows a' = rows a /\ cols a' = cols a) ->
  base (next self) = base self ->
  valid (base self) (heap w) = true ->
  exists frame extra g a,
    VideoSynthBase_read E base render self w
    = Ok (true, frame, next self, World (heap w ++ extra) g (stdout w))
    /\ (length (heap w) <= frame)%nat
    /\ (heap w ++ extra) !! frame = Some a
    /\ Z.of_N (cols a) = fst (frame_size (base self))
    /\ Z.of_N (rows a) = snd (frame_size (base self)).
Proof.
  intros Hrender Hbase Hv.
  destruct (read_buffer _ _ Hv) as (Hbuf & Hr0 & Hc0).
  destruct (valid_inv _ _ Hv) as (Hw & Hh & _).
  unfold VideoSynthBase_read.
  destruct (frame_size (base self)) as [fw fh] eqn:Hfs. cbn [fst snd] in *.
  unfold bind at 1. rewrite Hbuf.
  set (z := still_frame (base self) (heap w)) in *.
  destruct (Hrender (length (heap w))
              (World (heap w ++ [z]) (rng w) (stdout w)) z)
    as (a' & Hrun & Hr & Hc).
  { cbn [heap]. apply list_lookup_middle. reflexivity. }
  unfold bind at 1. rewrite Hrun. cbn [heap rng stdout].
  replace (<[length (heap w) := a']> (heap w ++ [z])) with (heap w ++ [a']).
  2:{ rewrite <- (Nat.add_0_r (length (heap w))) at 1.
      rewrite insert_app_r. reflexivity. }
  rewrite Hbase.
  destruct (Rlt_dec 0 (noise (base self))) as [Hpos|Hzero].
  - unfold randn_noise. rewrite nonneg_dims_accepted by assumption.
    unfold bind at 1. cbn [rng heap stdout].
    destruct (cv_randn E (rng w) fh fw (255 * noise (base self)))
      as [samples g].
    unfold bind at 1. unfold load at 1. cbn [heap].
    rewrite list_lookup_middle by reflexivity.
    unfold bind, cv_add. cbn [rows cols].
    replace ((rows a' =? Z.to_N fh)%N && (cols a' =? Z.to_N fw)%N) with true
      by (symmetry; apply andb_true_iff; split; apply N.eqb_eq; lia).
    unfold alloc, ret. cbn [heap rng stdout].
    rewrite <- app_assoc. cbn [app].
    eexists _, _, _, _. split; [reflexivity|].
    split; [rewrite length_app; lia|].
    split; [apply lookup_second_new|].
    cbn [rows cols]. split; lia.
  - unfold ret. exists (length (heap w)), [a'], (rng w), a'.
    split; [reflexivity|]. split; [lia|].
    split; [apply list_lookup_middle; reflexivity|].
    split; lia.
Qed.

Lemma VideoSynthBase_read_ok {S : Type} (base : S -> VideoSynthBase)
    (render : S -> loc -> M S) self w ok frame self' w' :
  VideoSynthBase_read E base render self w = Ok (ok, frame, self', w') ->
  ok = true.
Proof.
  unfold VideoSynthBase_read. destruct (frame_size (base self)) as [fw fh].
  unfold bind.
  destruct (match bg (base self) with
            | Some l => np_copy l | None => np_zeros fh fw end w)
    as [[buf w1]|]; [|discriminate].
  destruct (render self buf w1) as [[s1 w2]|]; [|discriminate].
  destruct (Rlt_dec 0 (noise (base s1))).
  - destruct (randn_noise E fh fw _ w2) as [[nf w3]|]; [|discriminate].
    destruct (load buf w3) as [[a w4]|]; [|discriminate].
    destruct (cv_add a nf w4) as [[out w5]|]; [|discriminate].
    unfold ret. intros [= <- _ _ _]. reflexivity.
  - unfold ret. intros [= <- _ _ _]. reflexivity.
Qed.

(** A base object without noise: [read] returns the still frame in a
    new buffer and changes nothing else. *)
Lemma read_base_still b w :
  valid b (heap w) = true ->
  ~ (0 < noise b)%R ->
  read E (Base_obj b) w
  = Ok (true, length (heap w), Base_obj b,
        World (heap w ++ [still_frame b (heap w)]) (rng w) (stdout w)).
Proof.
  intros Hv Hzero. destruct (read_buffer _ _ Hv) as (Hbuf & _ & _).
  unfold read, VideoSynthBase_read.
  destruct (frame_size b) as [fw fh]. cbn [fst snd] in Hbuf.
  unfold bind at 1. unfold bind at 1. rewrite Hbuf.
  unfold VideoSynthBase_render. unfold bind at 1. unfold ret at 1.
  destruct (Rlt_dec 0 (noise b)); [contradiction|]. reflexivity.
Qed.

Lemma base_of_after_read g : base_of (after_read E g) = base_of g.
Proof.
  destruct g as [b|c|s|s]; try reflexivity.
  cbn [after_read base_of]. unfold Chess_next.
  destruct (Chess_camera _ _) as [[? ?] ?]. destruct (lookat _ _ _).
  reflexivity.
Qed.

Lemma inherits_after_read g :
  inherits_read (after_read E g) = inherits_read g.
Proof. destruct g; reflexivity. Qed.

Lemma base_of_iter_after_read n g :
  base_of (Nat.iter n (after_read E) g) = base_of g.
Proof.
  induction n as [|n IH]; [reflexivity|].
  rewrite Nat.iter_succ, base_of_after_read. exact IH.
Qed.

Lemma iter_after_read_Chess n c :
  Nat.iter n (after_read E) (Chess_obj c)
  = Chess_obj (Nat.iter n (Chess_next E) c).
Proof.
  induction n as [|n IH]; [reflexivity|].
  rewrite !Nat.iter_succ, IH. reflexivity.
Qed.

Lemma inherits_read_class g :
  class_of g = VideoSynthBase_class \/ class_of g = Chess_class ->
  inherits_read g = true.
Proof. destruct g; intros [H|H]; try discriminate H; reflexivity. Qed.

(** One [read] of a valid base or Chess object. *)
Lemma read_total g w :
  inherits_read g = true ->
  valid (base_of g) (heap w) = true ->
  exists frame extra rg a,
    read E g w
    = Ok (true, frame, after_read E g, World (heap w ++ extra) rg (stdout w))
    /\ (length (heap w) <= frame)%nat
    /\ (heap w ++ extra) !! frame = Some a
    /\ Z.of_N (cols a) = fst (frame_size (base_of g))
    /\ Z.of_N (rows a) = snd (frame_size (base_of g)).
Proof.
  intros Hcls Hv. destruct g as [b|c|s|s]; try discriminate Hcls;
    cbn [base_of] in Hv; cbn [read after_read base_of].
  - destruct (VideoSynthBase_read_total (fun b => b) VideoSynthBase_render
                (fun b => b) b w) as (frame & extra & rg & a & Hrun & H);
      [|reflexivity|assumption|].
    { intros dst w0 a Hl. exists a. unfold VideoSynthBase_render, ret.
      rewrite list_insert_id by assumption. destruct w0; auto. }
    exists frame, extra, rg, a. unfold bind. rewrite Hrun. auto.
  - destruct (VideoSynthBase_read_total chess_base (Chess_render E)
                (Chess_next E) c w) as (frame & extra & rg & a & Hrun & H);
      [|unfold Chess_next;
        destruct (Chess_camera _ _) as [[? ?] ?]; destruct (lookat _ _ _);
        reflexivity|assumption|].
    { intros dst w0 a Hl. apply Chess_render_inplace. assumption. }
    exists frame, extra, rg, a. unfold bind. rewrite Hrun. auto.
Qed.

(** Any number of reads of a valid base or Chess object. *)
Lemma reads_total n : forall g w,
  inherits_read g = true ->
  valid (base_of g) (heap w) = true ->
  exists results extra rg,
    reads E n g w
    = Ok (results, Nat.iter n (after_read E) g,
          World (heap w ++ extra) rg (stdout w))
    /\ length results = n
    /\ Forall (fun r : bool * loc =>
                 fst r = true /\ (length (heap w) <= snd r)%nat
                 /\ exists a, (heap w ++ extra) !! snd r = Some a
                      /\ Z.of_N (cols a) = fst (frame_size (base_of g))
                      /\ Z.of_N (rows a) = snd (frame_size (base_of g)))
              results.
Proof.
  induction n as [|n IH]; intros g w Hcls Hv.
  - exists [], [], (rng w). cbn [reads Nat.iter]. unfold ret.
    rewrite app_nil_r. destruct w; auto.
  - destruct (read_total g w Hcls Hv)
      as (frame & extra1 & rg1 & a & Hread & Hge & Hl & Hc & Hr).
    destruct (IH (after_read E g) (World (heap w ++ extra1) rg1 (stdout w)))
      as (results & extra2 & rg2 & Hrun & Hlen & Hall).
    { rewrite inherits_after_read. assumption. }
    { rewrite base_of_after_read. cbn [heap]. apply valid_grows, Hv. }
    cbn [heap stdout] in Hrun, Hall.
    exists ((true, frame) :: results), (extra1 ++ extra2), rg2.
    cbn [reads]. unfold bind at 1. rewrite Hread.
    unfold bind at 1. rewrite Hrun. unfold ret.
    rewrite Nat.iter_succ_r, app_assoc.
    split; [reflexivity|]. split; [cbn [length]; congruence|].
    constructor.
    + cbn [fst snd]. split; [reflexivity|]. split; [assumption|].
      exists a. split; [apply lookup_app_l_Some; assumption|]. auto.
    + eapply Forall_impl; [exact Hall|].
      intros r (Hok & Hfresh & a' & Hl' & Hd).
      rewrite base_of_after_read in Hd.
      split; [assumption|]. split; [rewrite length_app in Hfresh; lia|].
      exists a'. auto.
Qed.

(** The sequence of frames of a base object without noise. *)
Lemma reads_base_still n : forall b w,
  valid b (heap w) = true ->
  ~ (0 < noise b)%R ->
  reads E n (Base_obj b) w
  = Ok (map (fun i => (true, (length (heap w) + i)%nat)) (seq 0 n),
        Base_obj b,
        World (heap w ++ replicate n (still_frame b (heap w)))
          (rng w) (stdout w)).
Proof.
  induction n as [|n IH]; intros b w Hv Hz.
  - cbn [reads seq map replicate]. unfold ret. rewrite app_nil_r.
    destruct w; reflexivity.
  - cbn [reads]. unfold bind at 1. rewrite read_base_still by assumption.
    unfold bind at 1. rewrite IH; [|apply valid_grows, Hv|assumption].
    cbn [heap rng stdout]. rewrite still_frame_grows by assumption.
    unfold ret. rewrite <- app_assoc. cbn [app replicate seq map].
    rewrite Nat.add_0_r, length_app. cbn [length].
    rewrite <- seq_shift, map_map.
    do 4 f_equal. apply map_ext. intros i. f_equal. lia.
Qed.

(** ** Book and Cube *)

(** What one call of [Book.read] or [Cube.read] does when it returns. *)
Lemma Scene_read_inv s w ok frame s' w' :
  Scene_read E s w = Ok (ok, frame, s', w') ->
  ok = true /\ frame = length (heap w)
  /\ scene_base s' = scene_base s /\ stdout w' = stdout w
  /\ exists out, heap w' = heap w ++ [out]
       /\ rows out = rows (sceneBg (scene_render s))
       /\ cols out = cols (sceneBg (scene_render s)).
Proof.
  unfold Scene_read, shape, randn_noise.
  rewrite nonneg_dims_accepted by lia.
  unfold bind at 1. destruct (cv_randn E _ _ _ _) as [samples g].
  unfold bind at 1, lift at 1.
  destruct (getNextFrame E (scene_render s)) as [[fr r]|]; [|discriminate].
  unfold bind, cv_add. cbn [rows cols heap rng stdout].
  rewrite !N2Z.id.
  destruct ((rows fr =? rows (sceneBg (scene_render s)))%N
            && (cols fr =? cols (sceneBg (scene_render s)))%N) eqn:Hsh;
    [|discriminate].
  apply andb_prop in Hsh as [Hr Hc]. apply N.eqb_eq in Hr, Hc.
  unfold alloc, ret. cbn [heap rng stdout]. intros [= <- <- <- <-].
  cbn [scene_base heap stdout]. repeat split; try reflexivity.
  eexists. split; [reflexivity|]. cbn [rows cols]. auto.
Qed.

(** With an engine that delivers, it does return. *)
Lemma Scene_read_total s w :
  engine_delivers E ->
  exists frame s' w', Scene_read E s w = Ok (true, frame, s', w').
Proof.
  intros Heng. destruct (Heng (scene_render s)) as (fr & r & Hget & Hr & Hc).
  unfold Scene_read, shape, randn_noise.
  rewrite nonneg_dims_accepted by lia.
  unfold bind at 1. destruct (cv_randn E _ _ _ _) as [samples g].
  unfold bind at 1, lift at 1. rewrite Hget.
  unfold bind, cv_add. cbn [rows cols heap rng stdout].
  rewrite !N2Z.id, Hr, Hc, !N.eqb_refl. cbn [andb].
  unfold alloc, ret. eauto.
Qed.

Lemma read_ok g w ok frame g' w' :
  read E g w = Ok (ok, frame, g', w') ->
  ok = true /\ class_of g' = class_of g.
Proof.
  destruct g as [b|c|s|s]; cbn [read]; unfold bind.
  - destruct (VideoSynthBase_read E _ _ b w) as [[[[ok1 f1] b1] w1]|] eqn:Hr;
      [|discriminate].
    unfold ret. intros [= <- _ <- _].
    apply VideoSynthBase_read_ok in Hr. auto.
  - destruct (VideoSynthBase_read E _ _ c w) as [[[[ok1 f1] c1] w1]|] eqn:Hr;
      [|discriminate].
    unfold ret. intros [= <- _ <- _].
    apply VideoSynthBase_read_ok in Hr. auto.
  - destruct (Scene_read E s w) as [[[[ok1 f1] s1] w1]|] eqn:Hr;
      [|discriminate].
    unfold ret. intros [= <- _ <- _].
    apply Scene_read_inv in Hr. split; [tauto|reflexivity].
  - destruct (Scene_read E s w) as [[[[ok1 f1] s1] w1]|] eqn:Hr;
      [|discriminate].
    unfold ret. intros [= <- _ <- _].
    apply Scene_read_inv in Hr. split; [tauto|reflexivity].
Qed.

Lemma reads_ok n : forall g w results g' w',
  reads E n g w = Ok (results, g', w') ->
  Forall (fun r : bool * loc => fst r = true) results.
Proof.
  induction n as [|n IH]; intros g w results g' w'; cbn [reads].
  - unfold ret. intros [= <- _ _]. constructor.
  - unfold bind.
    destruct (read E g w) as [[[[ok f] g1] w1]|] eqn:Hread; [|discriminate].
    destruct (reads E n g1 w1) as [[[rest g2] w2]|] eqn:Hrest; [|discriminate].
    unfold ret. intros [= <- _ _].
    constructor; [apply read_ok in Hread; tauto|eapply IH; eassumption].
Qed.

Lemma read_scene_total g w :
  inherits_read g = false ->
  engine_delivers E ->
  exists frame g' w',
    read E g w = Ok (true, frame, g', w') /\ inherits_read g' = false.
Proof.
  intros Hcls Heng. destruct g as [b|c|s|s]; try discriminate Hcls;
    destruct (Scene_read_total s w Heng) as (frame & s' & w' & Hr);
    cbn [read]; unfold bind; rewrite Hr; unfold ret; eauto.
Qed.

Lemma reads_scene_total n : forall g w,
  inherits_read g = false ->
  engine_delivers E ->
  exists results g' w',
    reads E n g w = Ok (results, g', w') /\ length results = n.
Proof.
  induction n as [|n IH]; intros g w Hcls Heng; cbn [reads].
  - unfold ret. eauto.
  - destruct (read_scene_total g w Hcls Heng)
      as (frame & g1 & w1 & Hr & Hcls1).
    destruct (IH g1 w1 Hcls1 Heng) as (rest & g2 & w2 & Hrest & Hlen).
    unfold bind. rewrite Hr, Hrest. unfold ret.
    eexists _, _, _. split; [reflexivity|]. cbn [length]. congruence.
Qed.

Lemma read_with_pose c rv tv w :
  read E (Chess_obj (with_pose c rv tv)) w = read E (Chess_obj c) w.
Proof. reflexivity. Qed.

(** ** Construction *)

(** A size without a background: the constructor raises, either on
    the size string or when [cv.resize] is handed [None]. *)
Lemma size_without_background_raises kw size w :
  kw !! "bg" = None ->
  kw !! "size" = Some size ->
  exists e, VideoSynthBase_init E kw w = Raise e.
Proof.
  intros Hbg Hsize. unfold VideoSynthBase_init, bind_kwargs.
  destruct (kw !! "self"); [unfold bind, raise; eauto|].
  rewrite Hbg, Hsize. unfold bind, ret, lift, cv_resize, raise.
  destruct (parse_size size) as [[W H]|]; eauto.
Qed.

(** A constructor that returns leaves a valid object; it only adds
    buffers, and a size parameter that parses is the frame size. *)
Lemma VideoSynthBase_init_inv kw w b w' :
  VideoSynthBase_init E kw w = Ok (b, w') ->
  valid b (heap w') = true
  /\ rng w' = rng w /\ stdout w' = stdout w
  /\ (exists extra, heap w' = heap w ++ extra)
  /\ (forall size W H,
        kw !! "size" = Some size -> parse_size size = Ok (W, H) ->
        frame_size b = (W, H) /\ 0 < W /\ 0 < H).
Proof.
  unfold VideoSynthBase_init, bind_kwargs.
  destruct (kw !! "self"); [discriminate|].
  unfold bind at 1. unfold ret at 1. unfold bind at 1.
  destruct (kw !! "bg") as [path|].
  - destruct (imread E path) as [a|] eqn:Him; [|discriminate].
    unfold imread in Him.
    destruct (cv_imread E path) as [a0|]; [|discriminate].
    destruct ((0 <? rows a0)%N && (0 <? cols a0)%N) eqn:Hpos; [|discriminate].
    injection Him as ->. apply andb_prop in Hpos as [Hr Hc].
    apply N.ltb_lt in Hr, Hc.
    unfold bind at 1, alloc at 1, ret at 1. unfold bind at 1.
    destruct (kw !! "size") as [size|].
    + unfold bind at 1, lift at 1.
      destruct (parse_size size) as [[W H]|] eqn:Hparse; [|discriminate].
      unfold bind at 1, cv_resize, bind at 1, load at 1. cbn [heap].
      rewrite list_lookup_middle by reflexivity.
      destruct ((0 <? rows a)%N && (0 <? cols a)%N && (0 <? W) && (0 <? H))
        eqn:Hok; [|discriminate].
      apply andb_prop in Hok as [Hok HH]. apply andb_prop in Hok as [_ HW].
      apply Z.ltb_lt in HH, HW.
      unfold alloc at 1, ret at 1. cbn [heap rng stdout].
      unfold bind.
      destruct (kw !! "noise") as [s|];
        [destruct (py_float E s); [|discriminate]|];
        unfold ret; intros [= <- <-]; cbn [heap rng stdout];
        (split; [|split; [reflexivity|split; [reflexivity|split;
           [rewrite <- app_assoc; eauto
           |intros ? ? ? [= <-] Hp; rewrite Hparse in Hp;
            injection Hp as <- <-; auto]]]]);
        unfold valid; cbn [frame_size bg];
        rewrite list_lookup_middle by reflexivity; cbn [rows cols];
        repeat (apply andb_true_iff; split);
        first [apply Z.eqb_eq | apply Z.leb_le]; lia.
    + unfold ret at 1. unfold bind.
      destruct (kw !! "noise") as [s|];
        [destruct (py_float E s); [|discriminate]|];
        unfold ret; intros [= <- <-]; cbn [heap rng stdout];
        (split; [|split; [reflexivity|split; [reflexivity|split;
           [eauto|intros ? ? ? [=]]]]]);
        unfold valid; cbn [frame_size bg];
        rewrite list_lookup_middle by reflexivity;
        repeat (apply andb_true_iff; split);
        first [apply Z.eqb_eq | apply Z.leb_le]; lia.
  - unfold ret at 1. unfold bind at 1.
    destruct (kw !! "size") as [size|].
    + unfold bind at 1, lift at 1.
      destruct (parse_size size) as [[W H]|]; discriminate.
    + unfold ret at 1. unfold bind.
      destruct (kw !! "noise") as [s|];
        [destruct (py_float E s); [|discriminate]|];
        unfold ret; intros [= <- <-];
        (split; [reflexivity|split; [reflexivity|split; [reflexivity|split;
           [exists []; rewrite app_nil_r; reflexivity|intros ? ? ? [=]]]]]).
Qed.

Lemma Chess_init_inv kw w c w' :
  Chess_init E kw w = Ok (c, w') ->
  VideoSynthBase_init E kw w = Ok (chess_base c, w')
  /\ t c = 0%R /\ grid_size c = (10, 7)
  /\ (white_quads c, black_quads c) = chess_quads 10 7.
Proof.
  unfold Chess_init, bind_kwargs.
  destruct (kw !! "self"); [discriminate|].
  unfold bind at 1, ret at 1. unfold bind.
  destruct (VideoSynthBase_init E kw w) as [[b w1]|]; [|discriminate].
  destruct (frame_size b) as [fw fh].
  destruct (chess_quads 10 7) as [white black].
  unfold ret. intros [= <- <-]. auto.
Qed.

Lemma Book_init_inv kw w s w' :
  Book_init E kw w = Ok (s, w') ->
  VideoSynthBase_init E kw w = Ok (scene_base s, w').
Proof.
  unfold Book_init, bind_kwargs.
  destruct (kw !! "self"); [discriminate|].
  unfold bind at 1, ret at 1. unfold bind, lift.
  destruct (VideoSynthBase_init E kw w) as [[b w1]|]; [|discriminate].
  destruct (TestSceneRender_init E _ _ _ _); [|discriminate].
  unfold ret. intros [= <- <-]. reflexivity.
Qed.

Lemma Cube_init_inv kw w s w' :
  Cube_init E kw w = Ok (s, w') ->
  VideoSynthBase_init E kw w = Ok (scene_base s, w').
Proof.
  unfold Cube_init, bind_kwargs.
  destruct (kw !! "self"); [discriminate|].
  unfold bind at 1, ret at 1. unfold bind, lift.
  destruct (VideoSynthBase_init E kw w) as [[b w1]|]; [|discriminate].
  destruct (TestSceneRender_init E _ _ _ _); [|discriminate].
  unfold ret. intros [= <- <-]. reflexivity.
Qed.

Lemma construct_inv C kw w g w' :
  construct E C kw w = Ok (g, w') ->
  VideoSynthBase_init E kw w = Ok (base_of g, w') /\ class_of g = C.
Proof.
  destruct C; cbn [construct]; unfold bind.
  - destruct (VideoSynthBase_init E kw w) as [[b w1]|]; [|discriminate].
    unfold ret. intros [= <- <-]. auto.
  - destruct (Chess_init E kw w) as [[c w1]|] eqn:Hc; [|discriminate].
    unfold ret. intros [= <- <-]. split; [|reflexivity].
    apply Chess_init_inv in Hc. tauto.
  - destruct (Book_init E kw w) as [[s w1]|] eqn:Hs; [|discriminate].
    unfold ret. intros [= <- <-]. split; [|reflexivity].
    apply Book_init_inv, Hs.
  - destruct (Cube_init E kw w) as [[s w1]|] eqn:Hs; [|discriminate].
    unfold ret. intros [= <- <-]. split; [|reflexivity].
    apply Cube_init_inv, Hs.
Qed.

Lemma construct_raises C kw w :
  (exists e, VideoSynthBase_init E kw w = Raise e) ->
  exists e, construct E C kw w = Raise e.
Proof.
  intros [e He].
  destruct C; cbn [construct]; unfold Chess_init, Book_init, Cube_init;
    unfold bind_kwargs; destruct (kw !! "self");
    unfold bind, raise, ret; try rewrite He; eauto.
Qed.

(** C2. A synth descriptor that names a size and no background does
    not deliver a source, whatever the class: [cv.resize] is handed
    [None] and the constructor raises; the exception is swallowed, the
    diagnostic is printed and, with no fallback, [create_capture]
    returns [None].  The descriptor of the end-to-end property is one
    of these.  This holds in every environment. *)
Theorem chess_size_without_background w fuel :
  (forall source params size,
     parse_descriptor source = Ok (SrcStr "synth", params) ->
     params !! "bg" = None ->
     params !! "size" = Some size ->
     create_capture E (S fuel) source None w
     = Some (Ok (None, warned (SrcStr "synth") w)))
  /\ parse_descriptor "synth:class=chess:size=320x240:noise=0.1"
     = Ok (SrcStr "synth",
           <["noise" := "0.1"]>
             (<["size" := "320x240"]> (<["class" := "chess"]> ∅)))
  /\ create_capture E (S fuel) "synth:class=chess:size=320x240:noise=0.1"
       None w
     = Some (Ok (None, warned (SrcStr "synth") w)).
Proof.
  assert (Hgen : forall source params size,
            parse_descriptor source = Ok (SrcStr "synth", params) ->
            params !! "bg" = None ->
            params !! "size" = Some size ->
            create_capture E (S fuel) source None w
            = Some (Ok (None, warned (SrcStr "synth") w))).
  { intros source params size Hp Hbg Hsize.
    rewrite create_capture_without_fallback, (open_source_synth _ _ _ _ Hp).
    destruct (construct_raises (select_class params) params w) as [e He];
      [eapply size_without_background_raises; eassumption|].
    rewrite He. reflexivity. }
  split; [exact Hgen|]. split; [reflexivity|].
  eapply Hgen with (size := "320x240"); reflexivity.
Qed.

(** The camera path of the code is the one of the specification, as a
    function of the time it is given. *)
Lemma Chess_camera_refines_spec sx sy (time : R) :
  Chess_camera (sx, sy) time = Chess_camera_spec sx sy time.
Proof.
  unfold Chess_camera, Chess_camera_spec, vadd, vscale.
  replace (time * 3)%R with (3 * time)%R by ring.
  repeat match goal with |- (_, _) = (_, _) => f_equal end; ring.
Qed.

(** ** The sources: construction, clock, frames *)

(** What [render] returned is what a read of the inherited kind
    returns as the object. *)
Lemma VideoSynthBase_read_self {S : Type} (base : S -> VideoSynthBase)
    (render : S -> loc -> M S) self w ok frame self' w' :
  VideoSynthBase_read E base render self w = Ok (ok, frame, self', w') ->
  exists buf w1 w2, render self buf w1 = Ok (self', w2).
Proof.
  unfold VideoSynthBase_read. destruct (frame_size (base self)) as [fw fh].
  unfold bind.
  destruct (match bg (base self) with
            | Some l => np_copy l | None => np_zeros fh fw end w)
    as [[buf w1]|]; [|discriminate].
  destruct (render self buf w1) as [[s1 w2]|] eqn:Hrender; [|discriminate].
  destruct (Rlt_dec 0 (noise (base s1))).
  - destruct (randn_noise E fh fw _ w2) as [[nf w3]|]; [|discriminate].
    destruct (load buf w3) as [[a w4]|]; [|discriminate].
    destruct (cv_add a nf w4) as [[out w5]|]; [|discriminate].
    unfold ret. intros [= _ _ <- _]. eauto.
  - unfold ret. intros [= _ _ <- _]. eauto.
Qed.

(** A read of an object of any class leaves its inherited fields as
    they were. *)
Lemma read_base_of g w ok frame g' w' :
  read E g w = Ok (ok, frame, g', w') -> base_of g' = base_of g.
Proof.
  destruct g as [b|c|s|s]; cbn [read]; unfold bind.
  - destruct (VideoSynthBase_read E _ _ b w) as [[[[ok1 f1] b1] w1]|] eqn:Hr;
      [|discriminate].
    unfold ret. intros [= _ _ <- _].
    apply VideoSynthBase_read_self in Hr as (buf & w2 & w3 & Hrender).
    unfold VideoSynthBase_render, ret in Hrender. injection Hrender as <- _.
    reflexivity.
  - destruct (VideoSynthBase_read E _ _ c w) as [[[[ok1 f1] c1] w1]|] eqn:Hr;
      [|discriminate].
    unfold ret. intros [= _ _ <- _].
    apply VideoSynthBase_read_self in Hr as (buf & w2 & w3 & Hrender).
    apply Chess_render_result in Hrender. subst c1. cbn [base_of].
    apply (Chess_next_fields c).
  - destruct (Scene_read E s w) as [[[[ok1 f1] s1] w1]|] eqn:Hr;
      [|discriminate].
    unfold ret. intros [= _ _ <- _].
    apply Scene_read_inv in Hr. cbn [base_of]. tauto.
  - destruct (Scene_read E s w) as [[[[ok1 f1] s1] w1]|] eqn:Hr;
      [|discriminate].
    unfold ret. intros [= _ _ <- _].
    apply Scene_read_inv in Hr. cbn [base_of]. tauto.
Qed.

Lemma reads_base_of n : forall g w results g' w',
  reads E n g w = Ok (results, g', w') -> base_of g' = base_of g.
Proof.
  induction n as [|n IH]; intros g w results g' w'; cbn [reads].
  - unfold ret. intros [= _ <- _]. reflexivity.
  - unfold bind.
    destruct (read E g w) as [[[[ok f] g1] w1]|] eqn:Hread; [|discriminate].
    destruct (reads E n g1 w1) as [[[rest g2] w2]|] eqn:Hrest; [|discriminate].
    unfold ret. intros [= _ <- _].
    rewrite (IH _ _ _ _ _ Hrest). eapply read_base_of. eassumption.
Qed.

(** C3, as amended. For a size string that parses to (W, H), a
    generator of any of the four classes whose construction with that
    size parameter returns has frame size (W, H), both positive, and
    has it still after any reads that return.  For the base class and
    Chess any number of consecutive reads do return, each with [True]
    and a frame of width W and height H.  (A construction returns only
    when a background was named and read.  The frames of Book and Cube
    are left out: they have the size of the scene engine's
    background.) *)
Theorem sized_source_frame_size C kw size W H w g w1 n :
  kw !! "size" = Some size ->
  parse_size size = Ok (W, H) ->
  construct E C kw w = Ok (g, w1) ->
  frame_size (base_of g) = (W, H) /\ 0 < W /\ 0 < H
  /\ (forall results g' w',
        reads E n g w1 = Ok (results, g', w') ->
        frame_size (base_of g') = (W, H))
  /\ (C = VideoSynthBase_class \/ C = Chess_class ->
      exists results g' w',
        reads E n g w1 = Ok (results, g', w')
        /\ length results = n
        /\ frame_size (base_of g') = (W, H)
        /\ Forall (fun r : bool * loc =>
                     fst r = true
                     /\ exists a, heap w' !! snd r = Some a
                          /\ Z.of_N (cols a) = W /\ Z.of_N (rows a) = H)
                  results).
Proof.
  intros Hsize Hparse Hcons.
  destruct (construct_inv _ _ _ _ _ Hcons) as (Hinit & Hcls).
  destruct (VideoSynthBase_init_inv _ _ _ _ Hinit)
    as (Hv & _ & _ & _ & Hfs).
  destruct (Hfs _ _ _ Hsize Hparse) as (Hwh & HW & HH).
  split; [assumption|]. split; [assumption|]. split; [assumption|].
  split.
  - intros results g' w' Hrun.
    rewrite (reads_base_of _ _ _ _ _ _ Hrun). assumption.
  - intros HC.
    destruct (reads_total n g w1)
      as (results & extra & rg & Hrun & Hlen & Hall);
      [apply inherits_read_class; rewrite Hcls; assumption|assumption|].
    eexists _, _, _. split; [exact Hrun|]. split; [assumption|].
    split; [rewrite base_of_iter_after_read; assumption|].
    cbn [heap]. eapply Forall_impl; [exact Hall|].
    intros r (Hok & _ & a & Hl & Hc & Hr). rewrite Hwh in Hc, Hr.
    split; [assumption|]. exists a. auto.
Qed.

Lemma real_clock_sum n (start : R) :
  Nat.iter n (fun time => (time + 1 / 30)%R) start = (start + INR n / 30)%R.
Proof.
  induction n as [|n IH].
  - cbn [Nat.iter nat_rect INR]. lra.
  - rewrite Nat.iter_succ, IH, S_INR. lra.
Qed.

(** C4, as amended. The clock of a Chess generator starts at 0.  The
    render call of the next frame after n reads, the frame n+1, moves
    the clock on by one addition of 1/30 and stores the pose that
    [lookat] and [mtx2rvec] give for the eye and the target of the
    specification's camera path at the time the object held when the
    call began, the time before the advance.  After n reads the clock
    is the sum of n additions of 1/30 to 0.  Read as a real number,
    each addition exact, that sum is n/30.  In binary64 it is not: the
    clock starts at 0, every call adds 1.0/30.0 with rounding, and
    after 6 calls it is 0.19999999999999998, which is below 6/30, the
    float 0.2. *)
Theorem Chess_clock_and_camera kw w c w1 n :
  Chess_init E kw w = Ok (c, w1) ->
  t c = 0%R
  /\ (exists results c_n w_n,
        reads E n (Chess_obj c) w1 = Ok (results, Chess_obj c_n, w_n)
        /\ length results = n
        /\ t c_n = Nat.iter n (fun time => (time + 1 / 30)%R) 0%R
        /\ t c_n = (INR n / 30)%R
        /\ forall dst w' c' w'',
             Chess_render E c_n dst w' = Ok (c', w'') ->
             t c' = (t c_n + 1 / 30)%R
             /\ t c' = (INR (S n) / 30)%R
             /\ exists phi eye_pos target_pos,
                  Chess_camera_spec 10 7 (t c_n) = (phi, eye_pos, target_pos)
                  /\ Chess_camera_spec 10 7 (INR n / 30)
                     = (phi, eye_pos, target_pos)
                  /\ tvec c' = Some (snd (lookat E eye_pos target_pos))
                  /\ rvec c'
                     = Some (mtx2rvec E (fst (lookat E eye_pos target_pos))))
  /\ binary64_clock 0 = 0%float
  /\ (forall calls,
        binary64_clock (S calls) = (binary64_clock calls + 1 / 30)%float)
  /\ binary64_clock 6 = 0x1.9999999999999p-3%float
  /\ (6 / 30)%float = 0x1.999999999999ap-3%float
  /\ PrimFloat.ltb (binary64_clock 6) (6 / 30) = true
  /\ PrimFloat.eqb (binary64_clock 6) (6 / 30) = false.
Proof.
  intros Hinit.
  destruct (Chess_init_inv _ _ _ _ Hinit) as (Hbase & Ht0 & Hgrid & _).
  destruct (VideoSynthBase_init_inv _ _ _ _ Hbase) as (Hv & _).
  split; [assumption|]. split.
  - destruct (reads_total n (Chess_obj c) w1 eq_refl Hv)
      as (results & extra & rg & Hrun & Hlen & _).
    rewrite iter_after_read_Chess in Hrun.
    destruct (iter_Chess_next_clock n c) as (Htn & Hgn).
    set (c_n := Nat.iter n (Chess_next E) c) in *.
    exists results, c_n, (World (heap w1 ++ extra) rg (stdout w1)).
    split; [assumption|]. split; [assumption|].
    assert (Hclock : t c_n = (INR n / 30)%R) by (rewrite Htn, Ht0; lra).
    split; [rewrite real_clock_sum, Hclock; lra|].
    split; [assumption|].
    intros dst w' c' w'' Hrender.
    apply Chess_render_result in Hrender. subst c'.
    destruct (Chess_next_fields c_n) as (_ & _ & _ & _ & _ & _ & Ht).
    split; [exact Ht|].
    split; [rewrite Ht, Hclock, S_INR; lra|].
    destruct (Chess_camera_spec 10 7 (t c_n))
      as [[phi eye] target] eqn:Hcam.
    exists phi, eye, target. split; [reflexivity|].
    split; [rewrite <- Hclock; exact Hcam|].
    apply (Chess_next_pose c_n phi).
    rewrite Hgn, Hgrid, Chess_camera_refines_spec. assumption.
  - split; [reflexivity|]. split; [intros calls; reflexivity|].
    repeat split; vm_compute; reflexivity.
Qed.

(** C5. A base generator (its render step draws nothing) whose noise
    level is 0: any number of consecutive reads return, each with
    [True] and a buffer of its own, and in the final store every one
    of these buffers holds the same frame, the still frame of the
    generator: its stored background, or zeros of the frame size when
    it has none.  The generator itself is unchanged. *)
Theorem read_without_noise_is_identity b w n :
  valid b (heap w) = true ->
  noise b = 0%R ->
  exists results w',
    reads E n (Base_obj b) w = Ok (results, Base_obj b, w')
    /\ length results = n
    /\ Forall (fun r : bool * loc =>
                 fst r = true
                 /\ heap w' !! snd r = Some (still_frame b (heap w)))
              results
    /\ NoDup (map snd results).
Proof.
  intros Hv Hnoise.
  assert (Hz : ~ (0 < noise b)%R) by (rewrite Hnoise; lra).
  eexists _, _. split; [apply reads_base_still; assumption|].
  split; [rewrite length_map, length_seq; reflexivity|]. split.
  - apply Forall_forall. intros r Hin. apply list_elem_of_In in Hin.
    apply in_map_iff in Hin as (i & <- & Hi).
    apply in_seq in Hi. cbn [fst snd heap]. split; [reflexivity|].
    rewrite lookup_app_r by lia.
    replace (length (heap w) + i - length (heap w))%nat with i by lia.
    apply lookup_replicate_2. lia.
  - rewrite map_map. cbn [snd].
    apply NoDup_fmap_2; [|apply NoDup_seq]. intros i j. lia.
Qed.

(** C6. For every generator that a constructor returned: [isOpened]
    is true, before and after any reads; whenever a sequence of reads
    returns, each of them returned [True]; and the reads do return,
    for the base and the Chess class always, for Book and Cube as soon
    as the scene engine delivers its frames. *)
Theorem synthetic_read_never_fails C kw w g w1 n :
  construct E C kw w = Ok (g, w1) ->
  synth_isOpened g = true
  /\ (forall results g' w',
        reads E n g w1 = Ok (results, g', w') ->
        Forall (fun r : bool * loc => fst r = true) results
        /\ synth_isOpened g' = true)
  /\ (C = VideoSynthBase_class \/ C = Chess_class \/ engine_delivers E ->
      exists results g' w',
        reads E n g w1 = Ok (results, g', w') /\ length results = n).
Proof.
  intros Hcons. split; [reflexivity|]. split.
  - intros results g' w' Hrun. split; [|reflexivity].
    eapply reads_ok; eassumption.
  - destruct (construct_inv _ _ _ _ _ Hcons) as (Hinit & Hcls).
    destruct (VideoSynthBase_init_inv _ _ _ _ Hinit) as (Hv & _).
    intros Hcase.
    destruct (inherits_read g) eqn:Hinh.
    + destruct (reads_total n g w1 Hinh Hv)
        as (results & extra & rg & Hrun & Hlen & _). eauto.
    + apply reads_scene_total; [assumption|].
      destruct Hcase as [HC|[HC|Heng]]; [| |assumption];
        rewrite <- Hcls in HC; destruct g; discriminate.
Qed.

(** C9. A read of a generator whose background is in the store: the
    inherited fields (background, frame size, noise level) and the
    class are unchanged; a base object is unchanged altogether; a
    Chess object keeps its board, its two lists of quads, its
    intrinsic matrix and its distortion coefficients, and its clock
    moves forward by 1/30.  The pose attributes that a Chess object
    also carries are no state between frames: a read gives the same
    result whatever they held.  Every buffer that was in the store is
    unchanged, the stored background among them; the frame returned is
    a buffer that was not in the store before, so it is not the stored
    background; nothing is printed. *)
Theorem read_frame_effect g w ok frame g' w' :
  valid (base_of g) (heap w) = true ->
  read E g w = Ok (ok, frame, g', w') ->
  base_of g' = base_of g
  /\ class_of g' = class_of g
  /\ (forall b, g = Base_obj b -> g' = g)
  /\ (forall c, g = Chess_obj c ->
        exists c', g' = Chess_obj c'
          /\ grid_size c' = grid_size c
          /\ white_quads c' = white_quads c
          /\ black_quads c' = black_quads c
          /\ K c' = K c
          /\ dist_coef c' = dist_coef c
          /\ t c' = (t c + 1 / 30)%R /\ (t c < t c')%R)
  /\ (forall c rv tv, g = Chess_obj c ->
        read E (Chess_obj (with_pose c rv tv)) w = read E g w)
  /\ (forall l, (l < length (heap w))%nat -> heap w' !! l = heap w !! l)
  /\ (length (heap w) <= frame < length (heap w'))%nat
  /\ bg (base_of g) <> Some frame
  /\ stdout w' = stdout w.
Proof.
  intros Hv Hread.
  assert (Hbg : forall fr, (length (heap w) <= fr)%nat ->
                           bg (base_of g) <> Some fr).
  { intros fr Hge Heq. destruct (valid_inv _ _ Hv) as (_ & _ & Hl).
    rewrite Heq in Hl. destruct Hl as (a & Hl & _).
    apply lookup_lt_Some in Hl. lia. }
  destruct (inherits_read g) eqn:Hinh.
  - destruct (read_total g w Hinh Hv)
      as (fr & extra & rg & a & Hrun & Hge & Hl & _).
    rewrite Hrun in Hread. injection Hread as <- <- <- <-.
    cbn [heap stdout].
    split; [apply base_of_after_read|].
    split; [destruct g; reflexivity|].
    split; [intros b ->; reflexivity|].
    split.
    { intros c ->. exists (Chess_next E c). split; [reflexivity|].
      destruct (Chess_next_fields c) as (_ & H1 & H2 & H3 & H4 & H5 & H6).
      repeat (split; [assumption|]). rewrite H6. lra. }
    split; [intros c rv tv ->; apply read_with_pose|].
    split; [intros l Hlt; apply lookup_app_l; assumption|].
    split; [split; [assumption|eapply lookup_lt_Some; eassumption]|].
    split; [apply Hbg; assumption|reflexivity].
  - assert (Hscene : exists s, (g = Book_obj s \/ g = Cube_obj s)
              /\ exists s', Scene_read E s w = Ok (ok, frame, s', w')
                   /\ (g' = Book_obj s' \/ g' = Cube_obj s')
                   /\ class_of g' = class_of g).
    { destruct g as [b|c|s|s]; try discriminate Hinh; exists s;
        (split; [auto|]); cbn [read] in Hread; unfold bind in Hread;
        destruct (Scene_read E s w) as [[[[ok1 f1] s1] w1]|];
        try discriminate;
        unfold ret in Hread; injection Hread as <- <- <- <-;
        exists s1; auto. }
    destruct Hscene as (s & Hg & s' & Hs & Hg' & Hcls).
    destruct (Scene_read_inv _ _ _ _ _ _ Hs)
      as (_ & -> & Hb & Hout & out & Hheap & _).
    assert (Hbase : base_of g' = base_of g).
    { destruct Hg as [-> | ->], Hg' as [-> | ->]; exact Hb. }
    split; [assumption|]. split; [assumption|].
    split; [intros b ->; destruct Hg; discriminate|].
    split; [intros c ->; destruct Hg; discriminate|].
    split; [intros c rv tv ->; destruct Hg; discriminate|].
    rewrite Hheap.
    split; [intros l Hlt; apply lookup_app_l; assumption|].
    split; [rewrite length_app; cbn [length]; lia|].
    split; [apply Hbg; lia|assumption].
Qed.

End Sources.

(** ** The definitions at work in the sample environment *)

Example saturating_add :
  add_samples [250; 250; 3; 0] [50; -128; -5; 127] = [255; 122; 0; 127].
Proof. reflexivity. Qed.

Example chess_board :
  let '(white, black) := chess_quads 10 7 in
  length white = 35%nat /\ length black = 35%nat
  /\ hd [] white = [(0, 0, 0); (1, 0, 0); (1, 1, 0); (0, 1, 0)]
  /\ hd [] black = [(1, 0, 0); (2, 0, 0); (2, 1, 0); (1, 1, 0)].
Proof. vm_compute. repeat split. Qed.

Example lena_preset_needs_its_file :
  presets !! "lena" = Some "synth:bg=../data/lena.jpg:noise=0.1"
  /\ create_capture sample_env 1 "synth:bg=../data/lena.jpg:noise=0.1"
       None empty_world
     = Some (Ok (None, warned (SrcStr "synth") empty_world))
  /\ create_capture sample_env 1 "synth:bg=bg.png:noise=0.1" None empty_world
     = Some (Ok (Some (Synth (Base_obj {| bg := Some 0%nat;
                                          frame_size := (3, 2);
                                          noise := (1 / 10)%R |})),
                 World [Image 2 3 (repeat 7 18)] 0 [])).
Proof. repeat split. Qed.

Lemma sample_engine_delivers : engine_delivers sample_env.
Proof. intros e. eexists _, _. repeat split. Qed.

(** The elevation of the camera at the time of the second frame is
    already larger than at time 0. *)
Lemma elevation_moves_at_once :
  (sin (PI / 3 + sin (3 * 0) * PI / 8)
   < sin (PI / 3 + sin (3 * (1 / 30)) * PI / 8))%R.
Proof.
  pose proof PI2_1 as Hpi. pose proof PI_4 as Hpi4.
  assert (Hs : (0 < sin (3 * (1 / 30)))%R) by (apply sin_gt_0; lra).
  pose proof (SIN_bound (3 * (1 / 30))) as [_ Hs1].
  replace (3 * 0)%R with 0%R by ring. rewrite sin_0.
  apply sin_increasing_1; try nra.
Qed.

(** C3 fails for Book: constructed with size 4x3 over a background
    that loads, its frame size is (4, 3), and its first frame is 2 by
    1, the size of the picture its scene engine was given. *)
Lemma book_frames_ignore_size :
  exists g w1 frame g' w2 a,
    parse_size "4x3" = Ok (4, 3)
    /\ create_capture sample_env 1 "synth:class=book:bg=bg.png:size=4x3"
         None empty_world
       = Some (Ok (Some (Synth g), w1))
    /\ class_of g = Book_class
    /\ frame_size (base_of g) = (4, 3)
    /\ read sample_env g w1 = Ok (true, frame, g', w2)
    /\ heap w2 !! frame = Some a
    /\ (Z.of_N (cols a), Z.of_N (rows a)) = (2, 1).
Proof.
  do 6 eexists. repeat split; reflexivity.
Qed.

(** C4 fails at the first frame: after the first read of a new Chess
    generator the clock is 1/30, and the pose stored for that frame is
    the one of the eye at time 0 (the sample [lookat] hands the eye
    back as the translation), which is not the eye at time 1/30.  Its
    closed form fails in binary64: after 6 calls the clock is
    0.19999999999999998, and 6/30 is 0.2. *)
Lemma first_frame_uses_time_zero :
  exists c w1 frame c' w2,
    Chess_init sample_env (<["bg" := "bg.png"]> ∅) empty_world = Ok (c, w1)
    /\ read sample_env (Chess_obj c) w1 = Ok (true, frame, Chess_obj c', w2)
    /\ t c' = (1 / 30)%R
    /\ tvec c' = Some (snd (fst (Chess_camera_spec 10 7 0)))
    /\ tvec c' <> Some (snd (fst (Chess_camera_spec 10 7 (1 / 30))))
    /\ binary64_clock 6 = 0x1.9999999999999p-3%float
    /\ (6 / 30)%float = 0x1.999999999999ap-3%float
    /\ PrimFloat.eqb (binary64_clock 6) (6 / 30) = false.
Proof.
  destruct (Chess_init sample_env (<["bg" := "bg.png"]> ∅) empty_world)
    as [[c w1]|] eqn:Hinit; [|vm_compute in Hinit; discriminate].
  destruct (Chess_init_inv _ _ _ _ _ Hinit) as (Hbase & Ht0 & Hgrid & _).
  destruct (VideoSynthBase_init_inv _ _ _ _ _ Hbase) as (Hv & _).
  destruct (read_total sample_env (Chess_obj c) w1 eq_refl Hv)
    as (frame & extra & rg & a & Hread & _).
  exists c, w1, frame, (Chess_next sample_env c),
    (World (heap w1 ++ extra) rg (stdout w1)).
  split; [reflexivity|]. split; [exact Hread|].
  destruct (Chess_next_fields sample_env c) as (_ & _ & _ & _ & _ & _ & Ht).
  split; [rewrite Ht, Ht0; lra|].
  destruct (Chess_camera_spec 10 7 0) as [[phi eye] target] eqn:Hcam.
  destruct (Chess_next_pose sample_env c phi eye target) as (Htv & _).
  { rewrite Hgrid, Ht0, Chess_camera_refines_spec. assumption. }
  rewrite Htv. cbn [sample_env lookat fst snd].
  split; [reflexivity|].
  split; [|repeat split; vm_compute; reflexivity].
  unfold Chess_camera_spec in *. injection Hcam as _ <- _. cbn [fst snd].
  intros [= _ _ Hz].
  pose proof elevation_moves_at_once as Hlt.
  replace (0 * (0.2 * 10))%R with 0%R in Hz by ring. lra.
Qed.

(** C10 fails for a drive letter and its colon: the descriptor ends in
    a colon, the two tokens are merged into the path, no parameter is
    left, and [create_capture] hands the path to [cv.VideoCapture]
    instead of raising.  Blanks around the descriptor make no
    difference: they are stripped first. *)
Lemma drive_letter_colon_is_a_path :
  descriptor_chunks "c:" = ["c:"]
  /\ parse_descriptor "c:" = Ok (SrcStr "c:", ∅)
  /\ create_capture sample_env 1 "c:" None empty_world
     = Some (Ok (Some (Device {| vc_handle := 0; vc_isOpened := false |}),
                 warned (SrcStr "c:") empty_world))
  /\ Py.strip " c: " = "c:"
  /\ create_capture sample_env 1 " c: " None empty_world
     = Some (Ok (Some (Device {| vc_handle := 0; vc_isOpened := false |}),
                 warned (SrcStr "c:") empty_world)).
Proof. repeat split. Qed.

(** ** The theorems applied to concrete inputs *)

Lemma create_capture_one_fallback_hop_witness :
  open_source sample_env "synth:size=4x3" empty_world
  = Ok (SrcStr "synth", None, empty_world)
  /\ unopened None = true
  /\ create_capture sample_env 2 "synth:size=4x3" (Some "movie.avi") empty_world
     = Some (Ok (Some (Device {| vc_handle := 0; vc_isOpened := false |}),
                 warned (SrcStr "movie.avi")
                   (warned (SrcStr "synth") empty_world))).
Proof.
  split; [reflexivity|]. split; [reflexivity|].
  destruct (create_capture_one_fallback_hop sample_env "synth:size=4x3"
              "movie.avi" empty_world (SrcStr "synth") None empty_world
              eq_refl eq_refl) as (Hhop & _ & _).
  rewrite (Hhop 0%nat). reflexivity.
Defined.

Lemma sized_source_frame_size_witness :
  exists g w1 book w2,
    sample_kw !! "size" = Some "4x3"
    /\ parse_size "4x3" = Ok (4, 3)
    /\ construct sample_env Chess_class sample_kw empty_world = Ok (g, w1)
    /\ frame_size (base_of g) = (4, 3)
    /\ (exists results g' w',
          reads sample_env 2 g w1 = Ok (results, g', w')
          /\ length results = 2%nat
          /\ Forall (fun r : bool * loc =>
                       fst r = true
                       /\ exists a, heap w' !! snd r = Some a
                            /\ Z.of_N (cols a) = 4 /\ Z.of_N (rows a) = 3)
                    results)
    /\ construct sample_env Book_class sample_kw empty_world = Ok (book, w2)
    /\ frame_size (base_of book) = (4, 3).
Proof.
  destruct (construct sample_env Chess_class sample_kw empty_world)
    as [[g w1]|] eqn:Hc; [|vm_compute in Hc; discriminate].
  destruct (construct sample_env Book_class sample_kw empty_world)
    as [[book w2]|] eqn:Hb; [|vm_compute in Hb; discriminate].
  exists g, w1, book, w2. split; [reflexivity|]. split; [reflexivity|].
  split; [reflexivity|].
  destruct (sized_source_frame_size sample_env Chess_class sample_kw "4x3"
              4 3 empty_world g w1 2 eq_refl eq_refl Hc)
    as (Hfs & _ & _ & _ & Hframes).
  split; [assumption|].
  destruct (Hframes (or_intror eq_refl))
    as (results & g' & w' & Hrun & Hlen & _ & Hall).
  split; [exists results, g', w'; auto|]. split; [reflexivity|].
  apply (sized_source_frame_size sample_env Book_class sample_kw "4x3"
           4 3 empty_world book w2 0 eq_refl eq_refl Hb).
Defined.

Lemma Chess_clock_and_camera_witness :
  exists c w1,
    Chess_init sample_env sample_kw empty_world = Ok (c, w1)
    /\ t c = 0%R
    /\ (exists results c3 w3,
          reads sample_env 3 (Chess_obj c) w1 = Ok (results, Chess_obj c3, w3)
          /\ t c3 = (INR 3 / 30)%R)
    /\ PrimFloat.ltb (binary64_clock 6) (6 / 30) = true.
Proof.
  destruct (Chess_init sample_env sample_kw empty_world)
    as [[c w1]|] eqn:Hc; [|vm_compute in Hc; discriminate].
  exists c, w1. split; [reflexivity|].
  destruct (Chess_clock_and_camera sample_env sample_kw empty_world c w1 3 Hc)
    as (Ht0 & (results & c3 & w3 & Hrun & _ & _ & Ht3 & _)
        & _ & _ & _ & _ & Hbelow & _).
  split; [assumption|]. split; [exists results, c3, w3; auto|exact Hbelow].
Defined.

Lemma read_without_noise_is_identity_witness :
  valid sample_base (heap sample_world) = true
  /\ noise sample_base = 0%R
  /\ exists results w',
       reads sample_env 3 (Base_obj sample_base) sample_world
       = Ok (results, Base_obj sample_base, w')
       /\ length results = 3%nat
       /\ Forall (fun r : bool * loc =>
                    fst r = true
                    /\ heap w' !! snd r = Some (Image 2 3 (repeat 7 18)))
                 results
       /\ NoDup (map snd results).
Proof.
  split; [reflexivity|]. split; [reflexivity|].
  exact (read_without_noise_is_identity sample_env sample_base sample_world 3
           eq_refl eq_refl).
Defined.

Lemma synthetic_read_never_fails_witness :
  exists g w1,
    construct sample_env Book_class sample_kw empty_world = Ok (g, w1)
    /\ synth_isOpened g = true
    /\ exists results g' w',
         reads sample_env 5 g w1 = Ok (results, g', w')
         /\ length results = 5%nat
         /\ Forall (fun r : bool * loc => fst r = true) results.
Proof.
  destruct (construct sample_env Book_class sample_kw empty_world)
    as [[g w1]|] eqn:Hc; [|vm_compute in Hc; discriminate].
  exists g, w1. split; [reflexivity|].
  destruct (synthetic_read_never_fails sample_env Book_class sample_kw
              empty_world g w1 5 Hc) as (Hopen & Hok & Htotal).
  split; [assumption|].
  destruct (Htotal (or_intror (or_intror sample_engine_delivers)))
    as (results & g' & w' & Hrun & Hlen).
  exists results, g', w'. split; [assumption|]. split; [assumption|].
  exact (proj1 (Hok results g' w' Hrun)).
Defined.

Lemma drive_letter_is_merged_witness :
  Py.split ":" "c:path/to/video.mp4" = ["c"; "path/to/video.mp4"]
  /\ Py.isalpha_char "c" = true
  /\ descriptor_chunks "c:path/to/video.mp4" = ["c:path/to/video.mp4"]
  /\ parse_descriptor "c:path/to/video.mp4"
     = Ok (SrcStr "c:path/to/video.mp4", ∅).
Proof.
  split; [reflexivity|]. split; [reflexivity|].
  destruct (drive_letter_is_merged "c:path/to/video.mp4" "c"%char
              "path/to/video.mp4" [] eq_refl eq_refl)
    as (second' & rest' & Hlast & Hchunks & Hparse & _).
  injection Hlast as <- <-.
  split; [exact Hchunks|]. apply Hparse. reflexivity.
Defined.

Lemma malformed_parameter_fails_parse_witness :
  In "noise" (tl (descriptor_chunks "synth:noise:size=4x3"))
  /\ Py.contains "=" "noise" = false
  /\ create_capture sample_env 2 "synth:noise:size=4x3" (Some "synth:")
       empty_world
     = Some (Raise ValueError)
  /\ (parse_descriptor "synth:class=tree"
      = Ok (SrcStr "synth", <["class" := "tree"]> ∅)
      /\ classes !! "tree" = None
      /\ select_class (<["class" := "tree"]> ∅) = VideoSynthBase_class).
Proof.
  split; [left; reflexivity|]. split; [reflexivity|]. split.
  - apply (proj1 (malformed_parameter_fails_parse sample_env
                    "synth:noise:size=4x3" (Some "synth:") 1 empty_world)
             "noise"); [left; reflexivity|reflexivity].
  - split; [reflexivity|]. split; [reflexivity|].
    apply (proj1 (proj2 (malformed_parameter_fails_parse sample_env
                    "synth:class=tree" None 0 empty_world))
             (<["class" := "tree"]> ∅) "tree"); reflexivity.
Defined.

Lemma read_frame_effect_witness :
  exists c w1 frame c' w2,
    Chess_init sample_env sample_kw empty_world = Ok (c, w1)
    /\ valid (chess_base c) (heap w1) = true
    /\ read sample_env (Chess_obj c) w1 = Ok (true, frame, Chess_obj c', w2)
    /\ chess_base c' = chess_base c
    /\ (t c < t c')%R
    /\ bg (chess_base c) <> Some frame
    /\ (length (heap w1) <= frame < length (heap w2))%nat.
Proof.
  destruct (Chess_init sample_env sample_kw empty_world)
    as [[c w1]|] eqn:Hc; [|vm_compute in Hc; discriminate].
  destruct (Chess_init_inv _ _ _ _ _ Hc) as (Hbase & _).
  destruct (VideoSynthBase_init_inv _ _ _ _ _ Hbase) as (Hv & _).
  destruct (read_total sample_env (Chess_obj c) w1 eq_refl Hv)
    as (frame & extra & rg & a & Hread & _).
  destruct (read_frame_effect sample_env (Chess_obj c) w1 true frame _ _
              Hv Hread)
    as (Hb & _ & _ & Hchess & _ & _ & Hfresh & Hbg & _).
  destruct (Hchess c eq_refl) as (c' & Hc' & _ & _ & _ & _ & _ & _ & Hlt).
  exists c, w1, frame, c', (World (heap w1 ++ extra) rg (stdout w1)).
  split; [reflexivity|]. split; [exact Hv|].
  split; [rewrite Hread, Hc'; reflexivity|].
  rewrite Hc' in Hb. cbn [base_of] in Hb, Hbg.
  split; [exact Hb|]. split; [exact Hlt|]. split; [exact Hbg|exact Hfresh].
Defined.

Lemma empty_parameter_token_raises_witness :
  In "" (tl (descriptor_chunks "synth:noise=0.1::size=4x3"))
  /\ create_capture sample_env 1 "synth:noise=0.1::size=4x3" None empty_world
     = Some (Raise ValueError)
  /\ Py.strip " movie.avi: " = ("movie.avi" ++ ":")%string
  /\ (Py.len "movie.avi" =? 1) && Py.isalpha "movie.avi" = false
  /\ create_capture sample_env 1 " movie.avi: " None empty_world
     = Some (Raise ValueError).
Proof.
  split; [right; left; reflexivity|]. split.
  - apply (proj1 (empty_parameter_token_raises sample_env 0 None empty_world)).
    right; left; reflexivity.
  - split; [reflexivity|]. split; [reflexivity|].
    apply (proj1 (proj2 (empty_parameter_token_raises sample_env 0 None
                           empty_world)) " movie.avi: " "movie.avi");
      reflexivity.
Defined.

(** * Further properties of the module *)

(** ** Integers as text *)

Lemma digit_of_char d :
  0 <= d < 10 -> Py.digit (ascii_of_N (48 + Z.to_N d)) = Some d.
Proof.
  intros H.
  assert (Hd : d = 0 \/ d = 1 \/ d = 2 \/ d = 3 \/ d = 4 \/ d = 5 \/ d = 6
               \/ d = 7 \/ d = 8 \/ d = 9) by lia.
  repeat destruct Hd as [-> | Hd]; try subst d; reflexivity.
Qed.

(** The digits that [str] writes are read back by [int], after any
    digits read before. *)
Lemma str_digits_parse fuel : forall n rest,
  0 <= n < 2 ^ Z.of_nat (S fuel) ->
  exists k, forall a b,
    Py.int_digits (Py.str_digits (S fuel) n rest) a b
    = Py.int_digits rest (a * k + n) true.
Proof.
  induction fuel as [|fuel IH]; intros n rest Hn.
  - exists 10. intros a b. cbn [Py.str_digits].
    replace (n <? 10) with true by (symmetry; apply Z.ltb_lt; simpl in Hn; lia).
    cbn [Py.int_digits]. rewrite Z.mod_small by (simpl in Hn; lia).
    rewrite digit_of_char by (simpl in Hn; lia). f_equal. lia.
  - cbn [Py.str_digits]. destruct (n <? 10) eqn:Hlt.
    + apply Z.ltb_lt in Hlt. exists 10. intros a b.
      cbn [Py.int_digits]. rewrite Z.mod_small by lia.
      rewrite digit_of_char by lia. f_equal. lia.
    + apply Z.ltb_ge in Hlt.
      destruct (IH (n / 10)
                  (String (ascii_of_N (48 + Z.to_N (n mod 10))) rest))
        as [k Hk].
      { split; [apply Z.div_pos; lia|].
        apply Z.div_lt_upper_bound; [lia|].
        rewrite (Nat2Z.inj_succ (S fuel)), Z.pow_succ_r in Hn by lia. lia. }
      exists (10 * k). intros a b. cbn [Py.str_digits] in Hk. rewrite Hk.
      cbn [Py.int_digits].
      rewrite digit_of_char by (apply Z.mod_pos_bound; lia).
      f_equal. pose proof (Z.div_mod n 10). lia.
Qed.

Lemma str_nonneg_bound n : 0 <= n -> n < 2 ^ Z.of_nat (S (Z.to_nat (Z.log2 n))).
Proof.
  intros Hn. rewrite Nat2Z.inj_succ, Z2Nat.id by apply Z.log2_nonneg.
  destruct (Z.eq_dec n 0) as [->|Hne]; [reflexivity|].
  apply Z.log2_spec. lia.
Qed.

Lemma int_digits_str_nonneg n b :
  0 <= n -> Py.int_digits (Py.str_nonneg n) 0 b = Some n.
Proof.
  intros Hn. unfold Py.str_nonneg.
  destruct (str_digits_parse (Z.to_nat (Z.log2 n)) n ""
              (conj Hn (str_nonneg_bound n Hn))) as [k Hk].
  rewrite Hk. reflexivity.
Qed.

Lemma append_nil_l (s : string) : ("" ++ s)%string = s.
Proof. reflexivity. Qed.

Lemma append_cons c (r s : string) :
  (String c r ++ s)%string = String c (r ++ s)%string.
Proof. reflexivity. Qed.

Lemma all_chars_impl (p q : ascii -> bool) s :
  (forall c, p c = true -> q c = true) ->
  Py.all_chars p s = true -> Py.all_chars q s = true.
Proof.
  intros Hpq. induction s as [|c r IH]; [reflexivity|]. cbn [Py.all_chars].
  intros H. apply andb_prop in H as [Hc Hr]. rewrite (Hpq _ Hc), (IH Hr).
  reflexivity.
Qed.

Lemma all_chars_app p s1 s2 :
  Py.all_chars p (s1 ++ s2) = Py.all_chars p s1 && Py.all_chars p s2.
Proof.
  induction s1 as [|c r IH]; [reflexivity|]. simpl.
  rewrite IH, andb_assoc. reflexivity.
Qed.

Lemma str_digits_chars fuel : forall n rest,
  0 <= n -> Py.all_chars Py.is_digit rest = true ->
  Py.all_chars Py.is_digit (Py.str_digits fuel n rest) = true.
Proof.
  induction fuel as [|fuel IH]; intros n rest Hn Hrest; [assumption|].
  cbn [Py.str_digits].
  assert (Hd : Py.all_chars Py.is_digit
                 (String (ascii_of_N (48 + Z.to_N (n mod 10))) rest) = true).
  { cbn [Py.all_chars]. rewrite Hrest, andb_true_r. unfold Py.is_digit.
    rewrite digit_of_char by (apply Z.mod_pos_bound; lia). reflexivity. }
  destruct (n <? 10); [exact Hd|].
  apply IH; [apply Z.div_pos; lia|exact Hd].
Qed.

Lemma str_digits_cons fuel : forall n rest,
  exists c r, Py.str_digits (S fuel) n rest = String c r.
Proof.
  induction fuel as [|fuel IH]; intros n rest.
  - cbn [Py.str_digits]. destruct (n <? 10); eauto.
  - cbn [Py.str_digits] in *. destruct (n <? 10); eauto.
Qed.

Lemma str_nonneg_chars n :
  0 <= n ->
  Py.all_chars Py.is_digit (Py.str_nonneg n) = true
  /\ exists c r, Py.str_nonneg n = String c r.
Proof.
  intros Hn. split; [apply str_digits_chars; [assumption|reflexivity]|].
  apply str_digits_cons.
Qed.

Lemma str_chars n : Py.all_chars Py.is_numeric (Py.str n) = true.
Proof.
  unfold Py.str. destruct (n <? 0) eqn:Hneg.
  - apply Z.ltb_lt in Hneg. cbn [Py.all_chars].
    apply andb_true_iff. split; [reflexivity|].
    apply (all_chars_impl Py.is_digit);
      [intros c Hc; unfold Py.is_numeric; rewrite Hc; reflexivity|].
    apply str_nonneg_chars. lia.
  - apply Z.ltb_ge in Hneg.
    apply (all_chars_impl Py.is_digit);
      [intros c Hc; unfold Py.is_numeric; rewrite Hc; reflexivity|].
    apply str_nonneg_chars. assumption.
Qed.

(** What a character of a number is not. *)
Lemma numeric_char c :
  Py.is_numeric c = true ->
  Py.isspace c = false /\ Py.int_space c = false
  /\ Ascii.eqb c ":" = false /\ Ascii.eqb c "_" = false
  /\ Ascii.eqb c "=" = false /\ Ascii.eqb c "." = false
  /\ Py.isalpha_char c = false.
Proof.
  destruct c as [[] [] [] [] [] [] [] []]; intros H;
    try discriminate H; repeat split.
Qed.

Lemma rstrip_plain s :
  Py.all_chars (fun c => negb (Py.isspace c)) s = true -> Py.rstrip s = s.
Proof.
  induction s as [|c r IH]; [reflexivity|]. cbn [Py.all_chars]. intros H.
  apply andb_prop in H as [Hc Hr]. apply negb_true_iff in Hc.
  rewrite (rstrip_cons _ _ Hc), (IH Hr). reflexivity.
Qed.

Lemma lstrip_plain s :
  Py.all_chars (fun c => negb (Py.isspace c)) s = true -> Py.lstrip s = s.
Proof.
  destruct s as [|c r]; [reflexivity|]. cbn [Py.all_chars Py.lstrip].
  intros H. apply andb_prop in H as [Hc _]. apply negb_true_iff in Hc.
  rewrite Hc. reflexivity.
Qed.

Lemma strip_plain s :
  Py.all_chars (fun c => negb (Py.isspace c)) s = true -> Py.strip s = s.
Proof.
  intros H. unfold Py.strip. rewrite (lstrip_plain _ H). apply rstrip_plain, H.
Qed.

Lemma int_rstrip_plain s :
  Py.all_chars (fun c => negb (Py.int_space c)) s = true -> Py.int_rstrip s = s.
Proof.
  induction s as [|c r IH]; [reflexivity|]. cbn [Py.all_chars]. intros H.
  apply andb_prop in H as [Hc Hr]. apply negb_true_iff in Hc.
  rewrite (int_rstrip_cons _ _ Hc), (IH Hr). reflexivity.
Qed.

Lemma int_lstrip_plain s :
  Py.all_chars (fun c => negb (Py.int_space c)) s = true -> Py.int_lstrip s = s.
Proof.
  destruct s as [|c r]; [reflexivity|]. cbn [Py.all_chars Py.int_lstrip].
  intros H. apply andb_prop in H as [Hc _]. apply negb_true_iff in Hc.
  rewrite Hc. reflexivity.
Qed.

Lemma contains_plain sep s :
  Py.all_chars (fun c => negb (Ascii.eqb c sep)) s = true ->
  Py.contains sep s = false.
Proof.
  induction s as [|c r IH]; [reflexivity|]. cbn [Py.all_chars Py.contains].
  intros H. apply andb_prop in H as [Hc Hr]. apply negb_true_iff in Hc.
  rewrite Hc, (IH Hr). reflexivity.
Qed.

(** A literal that starts with a digit has no sign to take off. *)
Lemma int_unsigned c r :
  Py.is_digit c = true ->
  Py.all_chars (fun c => negb (Py.int_space c)) (String c r) = true ->
  Py.int (String c r) = Py.int_digits (String c r) 0 false.
Proof.
  intros Hc Hplain. unfold Py.int.
  rewrite (int_lstrip_plain _ Hplain), (int_rstrip_plain _ Hplain).
  destruct c as [[] [] [] [] [] [] [] []]; try discriminate Hc; reflexivity.
Qed.

Lemma int_negative r :
  Py.all_chars (fun c => negb (Py.int_space c)) r = true ->
  Py.int (String "-" r) = Z.opp <$> Py.int_digits r 0 false.
Proof.
  intros Hplain. unfold Py.int.
  assert (H : Py.all_chars (fun c => negb (Py.int_space c)) (String "-" r)
              = true).
  { cbn [Py.all_chars]. rewrite Hplain. reflexivity. }
  rewrite (int_lstrip_plain _ H), (int_rstrip_plain _ H). reflexivity.
Qed.

Lemma int_str_nonneg n : 0 <= n -> Py.int (Py.str_nonneg n) = Some n.
Proof.
  intros Hn. destruct (str_nonneg_chars n Hn) as (Hall & c & r & Hs).
  rewrite Hs in Hall |- *. 
  assert (Hc : Py.is_digit c = true).
  { cbn [Py.all_chars] in Hall. apply andb_prop in Hall. tauto. }
  rewrite int_unsigned; [|assumption|].
  - rewrite <- Hs. apply int_digits_str_nonneg. assumption.
  - eapply all_chars_impl; [|exact Hall]. intros d Hd.
    apply negb_true_iff.
    apply (numeric_char d). unfold Py.is_numeric. rewrite Hd. reflexivity.
Qed.

Lemma int_str n : Py.int (Py.str n) = Some n.
Proof.
  unfold Py.str. destruct (n <? 0) eqn:Hneg.
  - apply Z.ltb_lt in Hneg.
    destruct (str_nonneg_chars (- n)) as (Hall & _); [lia|].
    rewrite int_negative.
    + rewrite int_digits_str_nonneg by lia. cbn. f_equal. lia.
    + eapply all_chars_impl; [|exact Hall]. intros d Hd.
      apply negb_true_iff.
      apply (numeric_char d). unfold Py.is_numeric. rewrite Hd. reflexivity.
  - apply Z.ltb_ge in Hneg. apply int_str_nonneg. assumption.
Qed.

Lemma parse_descriptor_str n :
  parse_descriptor (Py.str n) = Ok (SrcInt n, ∅).
Proof.
  pose proof (str_chars n) as Hall.
  unfold parse_descriptor, descriptor_chunks.
  rewrite strip_plain.
  2:{ eapply all_chars_impl; [|exact Hall]. intros c Hc.
      apply negb_true_iff. apply (numeric_char c Hc). }
  rewrite split_without_separator.
  2:{ apply contains_plain. eapply all_chars_impl; [|exact Hall].
      intros c Hc. apply negb_true_iff. apply (numeric_char c Hc). }
  cbn [drive_letter hd tl map py_dict]. rewrite int_str. reflexivity.
Qed.

(** ** Blanks around a descriptor *)

Lemma lstrip_blank s : Py.all_chars Py.isspace s = true -> Py.lstrip s = "".
Proof.
  induction s as [|c r IH]; [reflexivity|]. cbn [Py.all_chars Py.lstrip].
  intros H. apply andb_prop in H as [Hc Hr]. rewrite Hc. auto.
Qed.

Lemma rstrip_blank s : Py.all_chars Py.isspace s = true -> Py.rstrip s = "".
Proof.
  induction s as [|c r IH]; [reflexivity|]. cbn [Py.all_chars Py.rstrip].
  intros H. apply andb_prop in H as [Hc Hr]. rewrite (IH Hr), Hc. reflexivity.
Qed.

Lemma lstrip_app_blank before s :
  Py.all_chars Py.isspace before = true ->
  Py.lstrip (before ++ s) = Py.lstrip s.
Proof.
  induction before as [|c r IH]; [reflexivity|]. cbn [Py.all_chars].
  intros H. apply andb_prop in H as [Hc Hr].
  rewrite append_cons. cbn [Py.lstrip]. rewrite Hc. auto.
Qed.

Lemma rstrip_app_blank s after :
  Py.all_chars Py.isspace after = true ->
  Py.rstrip (s ++ after) = Py.rstrip s.
Proof.
  intros H. induction s as [|c r IH]; [apply rstrip_blank, H|].
  rewrite append_cons. cbn [Py.rstrip]. rewrite IH. reflexivity.
Qed.

Lemma strip_app_blank before s after :
  Py.all_chars Py.isspace before = true ->
  Py.all_chars Py.isspace after = true ->
  Py.strip (before ++ s ++ after) = Py.strip s.
Proof.
  intros Hb Ha. unfold Py.strip. rewrite (lstrip_app_blank _ _ Hb).
  induction s as [|c r IH].
  - rewrite append_nil_l, (lstrip_blank _ Ha). reflexivity.
  - rewrite append_cons. cbn [Py.lstrip]. destruct (Py.isspace c); [exact IH|].
    rewrite <- append_cons. apply rstrip_app_blank, Ha.
Qed.

(** X2. Blanks before and after a descriptor are not part of it: the
    descriptor parses to the same source and parameters with and
    without them, and [create_capture] gives the same result. *)
Theorem blanks_around_descriptor E fuel before source after fallback w :
  Py.all_chars Py.isspace before = true ->
  Py.all_chars Py.isspace after = true ->
  parse_descriptor (before ++ source ++ after) = parse_descriptor source
  /\ create_capture E fuel (before ++ source ++ after) fallback w
     = create_capture E fuel source fallback w.
Proof.
  intros Hb Ha.
  assert (Hparse : parse_descriptor (before ++ source ++ after)
                   = parse_descriptor source).
  { unfold parse_descriptor, descriptor_chunks.
    rewrite (strip_app_blank _ _ _ Hb Ha). reflexivity. }
  split; [exact Hparse|].
  destruct fuel as [|fuel]; [reflexivity|]. cbn [create_capture].
  unfold open_source. rewrite Hparse. reflexivity.
Qed.

(** ** Sizes *)

Lemma numeric_not_x c : Py.is_numeric c = true -> Ascii.eqb c "x" = false.
Proof.
  destruct c as [[] [] [] [] [] [] [] []]; intros H;
    try discriminate H; reflexivity.
Qed.

(** The tokens of a text that has its first separator after [a]. *)
Lemma split_app_first sep (a : string) : forall b,
  Py.all_chars (fun c => negb (Ascii.eqb c sep)) a = true ->
  Py.split sep (a ++ String sep b) = a :: Py.split sep b.
Proof.
  induction a as [|c r IH]; intros b Ha.
  - rewrite append_nil_l. cbn [Py.split]. rewrite Ascii.eqb_refl. reflexivity.
  - cbn [Py.all_chars] in Ha. apply andb_prop in Ha as [Hc Hr].
    apply negb_true_iff in Hc. rewrite append_cons. cbn [Py.split].
    rewrite Hc, (IH _ Hr). reflexivity.
Qed.

Lemma str_without_x n :
  Py.all_chars (fun c => negb (Ascii.eqb c "x")) (Py.str n) = true.
Proof.
  eapply all_chars_impl; [|apply str_chars]. intros c Hc.
  apply negb_true_iff, numeric_not_x, Hc.
Qed.

Lemma parse_size_str W H :
  parse_size (Py.str W ++ String "x" (Py.str H)) = Ok (W, H).
Proof.
  unfold parse_size. rewrite (split_app_first _ _ _ (str_without_x W)).
  rewrite split_without_separator
    by (apply contains_plain, str_without_x).
  rewrite !int_str. reflexivity.
Qed.

Section Sizes.

Context (E : Env).

(** X18. A size written as the decimal numbers of its width and its
    height around an [x] parses to that width and height, for all
    integers, negative ones and zero included.  The inherited
    constructor then refuses a width or a height that is not positive:
    it raises, and the exception is [cv2.error] from [cv.resize] when
    the background could be read. *)
Theorem size_round_trip W H kw w :
  parse_size (Py.str W ++ "x" ++ Py.str H) = Ok (W, H)
  /\ (kw !! "size" = Some (Py.str W ++ "x" ++ Py.str H)%string ->
      W <= 0 \/ H <= 0 ->
      exists e, VideoSynthBase_init E kw w = Raise e
                /\ (kw !! "self" = None ->
                    (forall path, kw !! "bg" = Some path ->
                                  imread E path <> None) ->
                    e = CvError)).
Proof.
  split; [apply parse_size_str|]. intros Hsize Hbad.
  unfold VideoSynthBase_init, bind_kwargs.
  destruct (kw !! "self"); [unfold bind, raise; eexists; split;
                             [reflexivity|discriminate]|].
  unfold bind at 1, ret at 1. unfold bind at 1.
  destruct (kw !! "bg") as [path|].
  - destruct (imread E path) as [a|] eqn:Him.
    + unfold bind at 1, alloc at 1, ret at 1. rewrite Hsize.
      unfold bind at 1. unfold bind at 1, lift at 1.
      change (Py.str W ++ "x" ++ Py.str H)%string
        with (Py.str W ++ String "x" (Py.str H))%string.
      rewrite parse_size_str.
      unfold bind at 1, cv_resize, bind at 1, load at 1. cbn [heap].
      rewrite list_lookup_middle by reflexivity.
      replace ((0 <? rows a)%N && (0 <? cols a)%N && (0 <? W) && (0 <? H))
        with false.
      2:{ symmetry. destruct Hbad as [Hbad|Hbad].
          - replace (0 <? W) with false by (symmetry; apply Z.ltb_ge; lia).
            rewrite andb_false_r. reflexivity.
          - replace (0 <? H) with false by (symmetry; apply Z.ltb_ge; lia).
            rewrite andb_false_r. reflexivity. }
      unfold raise. eauto.
    + unfold raise. eexists. split; [reflexivity|].
      intros _ Hread. destruct (Hread path eq_refl). exact Him.
  - unfold ret at 1. rewrite Hsize. unfold bind at 1.
    unfold bind at 1, lift at 1.
    change (Py.str W ++ "x" ++ Py.str H)%string
      with (Py.str W ++ String "x" (Py.str H))%string.
    rewrite parse_size_str. unfold bind, cv_resize, raise. eauto.
Qed.

End Sizes.

(** ** The parameters of a descriptor *)

Lemma length_split sep s : length (Py.split sep s) = S (Py.count sep s).
Proof.
  induction s as [|c r IH]; [reflexivity|]. cbn [Py.split Py.count].
  destruct (Ascii.eqb c sep).
  - cbn [length]. rewrite IH. reflexivity.
  - destruct (Py.split sep r) as [|h tl]; [discriminate IH|].
    cbn [length] in *. lia.
Qed.

Lemma py_dict_raises items : forall acc e,
  py_dict items acc = Raise e -> e = ValueError.
Proof.
  induction items as [|it rest IH]; intros acc e; [discriminate|].
  destruct it as [|a [|b [|c r]]]; cbn [py_dict]; try congruence.
  apply IH.
Qed.

Lemma py_dict_pairs items : forall acc,
  Forall (fun it : list string => length it = 2%nat) items ->
  exists params, py_dict items acc = Ok params.
Proof.
  induction items as [|it rest IH]; intros acc Hall; [simpl; eauto|].
  inversion Hall as [|? ? Hit Hrest]; subst.
  destruct it as [|a [|b [|c r]]]; try discriminate Hit.
  cbn [py_dict]. apply IH. assumption.
Qed.

Lemma py_dict_not_pairs items acc :
  Exists (fun it : list string => length it <> 2%nat) items ->
  py_dict items acc = Raise ValueError.
Proof.
  intros Hex. apply Exists_exists in Hex as (it & Hin & Hlen).
  apply list_elem_of_In in Hin.
  eapply py_dict_malformed; eassumption.
Qed.

(** A key that no later item sets keeps its value. *)
Lemma py_dict_other_keys k items : forall acc params,
  py_dict items acc = Ok params ->
  Forall (fun it => hd "" it <> k) items ->
  params !! k = acc !! k.
Proof.
  induction items as [|it rest IH]; intros acc params Hrun Hall.
  - injection Hrun as <-. reflexivity.
  - inversion Hall as [|? ? Hit Hrest]; subst.
    destruct it as [|a [|b [|c r]]]; try discriminate Hrun.
    cbn [py_dict] in Hrun. rewrite (IH _ _ Hrun Hrest).
    apply lookup_insert_ne. exact Hit.
Qed.

Lemma py_dict_last_wins k v after : forall before acc params,
  py_dict (before ++ [k; v] :: after) acc = Ok params ->
  Forall (fun it => hd "" it <> k) after ->
  params !! k = Some v.
Proof.
  induction before as [|it rest IH]; intros acc params Hrun Hall.
  - cbn [app py_dict] in Hrun.
    rewrite (py_dict_other_keys _ _ _ _ Hrun Hall). apply lookup_insert_eq.
  - destruct it as [|a [|b [|c r]]]; try discriminate Hrun.
    cbn [app py_dict] in Hrun. eapply IH; eassumption.
Qed.

Lemma parse_descriptor_params source :
  parse_descriptor source
  = match py_dict (map (Py.split "=") (tl (descriptor_chunks source))) ∅ with
    | Ok params =>
        Ok (match Py.int (hd "" (descriptor_chunks source)) with
            | Some n => SrcInt n
            | None => SrcStr (hd "" (descriptor_chunks source))
            end, params)
    | Raise e => Raise e
    end.
Proof. reflexivity. Qed.

(** X3. The descriptors that parse.  Either every parameter token
    (the tokens after the source, a drive letter merged first) holds
    exactly one equals sign, and the parse returns a source and the
    parameters; or some token does not (none, or two and more, as in a
    value that holds an equals sign), and the parse raises
    [ValueError], which no [try] of [create_capture] catches: it
    raises the same, whatever the fallback. *)
Theorem descriptor_grammar source :
  (Forall (fun tok => Py.count "=" tok = 1%nat) (tl (descriptor_chunks source))
   /\ exists src params, parse_descriptor source = Ok (src, params))
  \/ (Exists (fun tok => Py.count "=" tok <> 1%nat)
        (tl (descriptor_chunks source))
      /\ parse_descriptor source = Raise ValueError
      /\ forall E fuel fallback w,
           create_capture E (S fuel) source fallback w
           = Some (Raise ValueError)).
Proof.
  set (tokens := tl (descriptor_chunks source)).
  destruct (decide (Forall (fun tok => Py.count "=" tok = 1%nat) tokens))
    as [Hall|Hnot].
  - left. split; [assumption|]. rewrite parse_descriptor_params.
    destruct (py_dict_pairs (map (Py.split "=") tokens) ∅) as [params Hp].
    { apply Forall_fmap. eapply Forall_impl; [exact Hall|].
      intros tok Htok. cbn. rewrite length_split, Htok. reflexivity. }
    fold tokens. rewrite Hp. eauto.
  - right. apply not_Forall_Exists in Hnot; [|intros tok; apply _].
    split; [exact Hnot|].
    assert (Hp : parse_descriptor source = Raise ValueError).
    { rewrite parse_descriptor_params. fold tokens.
      rewrite py_dict_not_pairs; [reflexivity|].
      apply Exists_fmap. eapply Exists_impl; [exact Hnot|].
      intros tok Htok. cbn. rewrite length_split. cbn in Htok. lia. }
    split; [exact Hp|]. intros E fuel fallback w.
    apply create_capture_parse_error, Hp.
Qed.

(** X4. The value of a parameter.  When a descriptor parses, the
    value of a key is the one of the last token that sets it, whatever
    earlier tokens said; a key that no token sets is absent. *)
Theorem repeated_parameter_last_wins source src params k :
  parse_descriptor source = Ok (src, params) ->
  (forall before tok after v,
     tl (descriptor_chunks source) = before ++ tok :: after ->
     Py.split "=" tok = [k; v] ->
     Forall (fun later => hd "" (Py.split "=" later) <> k) after ->
     params !! k = Some v)
  /\ (Forall (fun tok => hd "" (Py.split "=" tok) <> k)
        (tl (descriptor_chunks source)) ->
      params !! k = None).
Proof.
  rewrite parse_descriptor_params.
  destruct (py_dict _ ∅) as [params'|] eqn:Hrun; [|discriminate].
  intros [= _ <-]. split.
  - intros before tok after v Htl Htok Hafter.
    rewrite Htl, map_app in Hrun. cbn [map] in Hrun. rewrite Htok in Hrun.
    eapply py_dict_last_wins; [exact Hrun|].
    apply Forall_fmap. exact Hafter.
  - intros Hnone.
    rewrite (py_dict_other_keys k _ _ _ Hrun); [apply lookup_empty|].
    apply Forall_fmap. exact Hnone.
Qed.

(** ** The resolution of a source *)

Section Resolution.

Context (E : Env).

(** The branch of [create_capture] for a source that is not [synth]. *)
Lemma open_source_device source src params w :
  parse_descriptor source = Ok (src, params) ->
  src <> SrcStr "synth" ->
  open_source E source w
  = match cv_VideoCapture E src with
    | Raise e => Raise e
    | Ok v =>
        match params !! "size" with
        | None => Ok (src, Some (Device v), w)
        | Some size =>
            match parse_size size with
            | Raise e => Raise e
            | Ok (fw, fh) =>
                match cap_set E v CAP_PROP_FRAME_WIDTH fw with
                | Raise e => Raise e
                | Ok v1 =>
                    match cap_set E v1 CAP_PROP_FRAME_HEIGHT fh with
                    | Raise e => Raise e
                    | Ok v2 => Ok (src, Some (Device v2), w)
                    end
                end
            end
        end
    end.
Proof.
  intros Hp Hne. unfold open_source. unfold bind at 1, lift at 1.
  rewrite Hp.
  assert (Hdev :
    (let! cap := (let! cap := lift (cv_VideoCapture E src) in
       match params !! "size" with
       | Some size =>
           let! (w, h) := lift (parse_size size) in
           let! cap := lift (cap_set E cap CAP_PROP_FRAME_WIDTH w) in
           let! cap := lift (cap_set E cap CAP_PROP_FRAME_HEIGHT h) in
           ret (Some (Device cap))
       | None => ret (Some (Device cap))
       end) in ret (src, cap)) w
    = match cv_VideoCapture E src with
    | Raise e => Raise e
    | Ok v =>
        match params !! "size" with
        | None => Ok (src, Some (Device v), w)
        | Some size =>
            match parse_size size with
            | Raise e => Raise e
            | Ok (fw, fh) =>
                match cap_set E v CAP_PROP_FRAME_WIDTH fw with
                | Raise e => Raise e
                | Ok v1 =>
                    match cap_set E v1 CAP_PROP_FRAME_HEIGHT fh with
                    | Raise e => Raise e
                    | Ok v2 => Ok (src, Some (Device v2), w)
                    end
                end
            end
        end
    end).
  { unfold bind, lift, ret.
    destruct (cv_VideoCapture E src) as [v|]; [|reflexivity].
    destruct (params !! "size") as [size|]; [|reflexivity].
    destruct (parse_size size) as [[fw fh]|]; [|reflexivity].
    destruct (cap_set E v _ fw) as [v1|]; [|reflexivity].
    destruct (cap_set E v1 _ fh) as [v2|]; reflexivity. }
  rewrite <- Hdev. clear Hdev Hp.
  destruct src as [n|s]; [reflexivity|].
  destruct s as [|[[] [] [] [] [] [] [] []] s]; try reflexivity.
  destruct s as [|[[] [] [] [] [] [] [] []] s]; try reflexivity.
  destruct s as [|[[] [] [] [] [] [] [] []] s]; try reflexivity.
  destruct s as [|[[] [] [] [] [] [] [] []] s]; try reflexivity.
  destruct s as [|[[] [] [] [] [] [] [] []] s]; try reflexivity.
  destruct s; [|reflexivity]. contradiction Hne. reflexivity.
Qed.

Lemma imread_nonempty path a :
  imread E path = Some a -> (0 <? rows a)%N && (0 <? cols a)%N = true.
Proof.
  unfold imread. destruct (cv_imread E path) as [a0|]; [|discriminate].
  destruct ((0 <? rows a0)%N && (0 <? cols a0)%N) eqn:H; [|discriminate].
  intros [= <-]. exact H.
Qed.

(** A constructor that returns leaves a frame size that is not empty. *)
Lemma VideoSynthBase_init_positive kw w b w' :
  VideoSynthBase_init E kw w = Ok (b, w') ->
  0 < fst (frame_size b) /\ 0 < snd (frame_size b).
Proof.
  unfold VideoSynthBase_init, bind_kwargs.
  destruct (kw !! "self"); [discriminate|].
  unfold bind at 1. unfold ret at 1. unfold bind at 1.
  destruct (kw !! "bg") as [path|].
  - destruct (imread E path) as [a|] eqn:Him; [|discriminate].
    pose proof (imread_nonempty _ _ Him) as Hpos.
    apply andb_prop in Hpos as [Hr Hc]. apply N.ltb_lt in Hr, Hc.
    unfold bind at 1, alloc at 1, ret at 1. unfold bind at 1.
    destruct (kw !! "size") as [size|].
    + unfold bind at 1, lift at 1.
      destruct (parse_size size) as [[W H]|]; [|discriminate].
      unfold bind at 1, cv_resize, bind at 1, load at 1. cbn [heap].
      rewrite list_lookup_middle by reflexivity.
      destruct ((0 <? rows a)%N && (0 <? cols a)%N && (0 <? W) && (0 <? H))
        eqn:Hok; [|discriminate].
      apply andb_prop in Hok as [Hok HH]. apply andb_prop in Hok as [_ HW].
      apply Z.ltb_lt in HH, HW.
      unfold alloc at 1, ret at 1. unfold bind.
      destruct (kw !! "noise") as [s|];
        [destruct (py_float E s); [|discriminate]|];
        unfold ret; intros [= <- <-]; cbn [frame_size fst snd]; auto.
    + unfold ret at 1. unfold bind.
      destruct (kw !! "noise") as [s|];
        [destruct (py_float E s); [|discriminate]|];
        unfold ret; intros [= <- <-]; cbn [frame_size fst snd]; lia.
  - unfold ret at 1. unfold bind at 1.
    destruct (kw !! "size") as [size|].
    + unfold bind at 1, lift at 1.
      destruct (parse_size size) as [[W H]|]; discriminate.
    + unfold ret at 1. unfold bind.
      destruct (kw !! "noise") as [s|];
        [destruct (py_float E s); [|discriminate]|];
        unfold ret; intros [= <- <-]; cbn [frame_size fst snd]; lia.
Qed.

Lemma open_source_parse_error source e w :
  parse_descriptor source = Raise e -> open_source E source w = Raise e.
Proof. intros H. unfold open_source, bind, lift. rewrite H. reflexivity. Qed.

(** What a resolution that returns has done: nothing is printed, the
    random generator is untouched, buffers are only added; a synthetic
    source is valid in the store and its frames are not empty; no
    source at all can only come from a [synth] descriptor. *)
Lemma open_source_inv source w src cap w1 :
  open_source E source w = Ok (src, cap, w1) ->
  rng w1 = rng w /\ stdout w1 = stdout w
  /\ (exists extra, heap w1 = heap w ++ extra)
  /\ (forall g, cap = Some (Synth g) ->
        valid (base_of g) (heap w1) = true
        /\ 0 < fst (frame_size (base_of g))
        /\ 0 < snd (frame_size (base_of g)))
  /\ (cap = None -> src = SrcStr "synth").
Proof.
  destruct (parse_descriptor source) as [[src0 params]|e] eqn:Hp.
  2:{ rewrite (open_source_parse_error _ _ _ Hp). discriminate. }
  assert (Hcase : src0 = SrcStr "synth" \/ src0 <> SrcStr "synth").
  { destruct src0 as [n|s]; [right; discriminate|].
    destruct (String.eqb_spec s "synth") as [->|Hne]; [left; reflexivity|].
    right. congruence. }
  destruct Hcase as [->|Hne].
  - rewrite (open_source_synth _ _ _ _ Hp).
    destruct (construct E (select_class params) params w) as [[g w']|] eqn:Hc.
    + intros [= <- <- <-].
      destruct (construct_inv _ _ _ _ _ _ Hc) as (Hinit & _).
      destruct (VideoSynthBase_init_inv _ _ _ _ _ Hinit)
        as (Hv & Hrng & Hout & Hheap & _).
      pose proof (VideoSynthBase_init_positive _ _ _ _ Hinit) as Hpos.
      split; [assumption|]. split; [assumption|]. split; [assumption|].
      split; [|discriminate]. intros g0 [= <-]. tauto.
    + intros [= <- <- <-]. split; [reflexivity|]. split; [reflexivity|].
      split; [exists []; rewrite app_nil_r; reflexivity|].
      split; [discriminate|reflexivity].
  - rewrite (open_source_device _ _ _ _ Hp Hne).
    destruct (cv_VideoCapture E src0) as [v|]; [|discriminate].
    assert (Hdone : forall v',
      Ok (src0, Some (Device v'), w) = Ok (src, cap, w1) ->
      rng w1 = rng w /\ stdout w1 = stdout w
      /\ (exists extra, heap w1 = heap w ++ extra)
      /\ (forall g, cap = Some (Synth g) ->
            valid (base_of g) (heap w1) = true
            /\ 0 < fst (frame_size (base_of g))
            /\ 0 < snd (frame_size (base_of g)))
      /\ (cap = None -> src = SrcStr "synth")).
    { intros v' [= <- <- <-]. split; [reflexivity|]. split; [reflexivity|].
      split; [exists []; rewrite app_nil_r; reflexivity|].
      split; discriminate. }
    destruct (params !! "size") as [size|]; [|apply Hdone].
    destruct (parse_size size) as [[fw fh]|]; [|discriminate].
    destruct (cap_set E v _ fw) as [v1|]; [|discriminate].
    destruct (cap_set E v1 _ fh) as [v2|]; [|discriminate]. apply Hdone.
Qed.

(** A call without fallback that returns. *)
Lemma create_capture_direct_inv k source w cap w' :
  create_capture E (S k) source None w = Some (Ok (cap, w')) ->
  exists src w1,
    open_source E source w = Ok (src, cap, w1)
    /\ w' = (if unopened cap then warned src w1 else w1).
Proof.
  rewrite create_capture_without_fallback.
  destruct (open_source E source w) as [[[src cap1] w1]|]; [|discriminate].
  destruct (unopened cap1) eqn:Hun; intros [= <- <-]; exists src, w1;
    rewrite Hun; auto.
Qed.

(** A call that returns went through one resolution, or through two
    with the diagnostic between them. *)
Lemma create_capture_inv fuel source fallback w cap w' :
  create_capture E fuel source fallback w = Some (Ok (cap, w')) ->
  exists src0 cap0 w0,
    open_source E source w = Ok (src0, cap0, w0)
    /\ ((cap = cap0
         /\ w' = (if unopened cap0 then warned src0 w0 else w0)
         /\ (unopened cap0 = true -> fallback = None))
        \/ (unopened cap0 = true
            /\ exists fb src1 w1,
                 fallback = Some fb
                 /\ open_source E fb (warned src0 w0) = Ok (src1, cap, w1)
                 /\ w' = (if unopened cap then warned src1 w1 else w1))).
Proof.
  destruct fuel as [|fuel]; [discriminate|]. cbn [create_capture].
  destruct (open_source E source w) as [[[src0 cap0] w0]|]; [|discriminate].
  intros Hrun. exists src0, cap0, w0. split; [reflexivity|]. revert Hrun.
  destruct (unopened cap0) eqn:Hun.
  - unfold print. destruct fallback as [fb|].
    + intros Hrec. right. split; [reflexivity|].
      destruct fuel as [|fuel]; [discriminate|].
      apply create_capture_direct_inv in Hrec as (src1 & w1 & Hopen & Hw).
      exists fb, src1, w1. auto.
    + intros [= <- <-]. left. auto.
  - intros [= <- <-]. left. split; [reflexivity|].
    split; [reflexivity|discriminate].
Qed.

End Resolution.

Section Resolved.

Context (E : Env).

(** X1. An [int] passed as the source, as the default source 0 is:
    [str] writes the number and [int] reads the same number back, so
    the descriptor has no parameters and names the device of that
    index; the source is resolved by [cv.VideoCapture] on that index,
    and without a fallback [create_capture] returns that capture,
    opened or not, after the diagnostic when it is not opened; an
    exception of [cv.VideoCapture] is not caught. *)
Theorem integer_source_is_device_index n fuel w :
  Py.int (Py.str n) = Some n
  /\ parse_descriptor (str_source (IntSource n)) = Ok (SrcInt n, ∅)
  /\ open_source E (str_source (IntSource n)) w
     = match cv_VideoCapture E (SrcInt n) with
       | Ok v => Ok (SrcInt n, Some (Device v), w)
       | Raise e => Raise e
       end
  /\ create_capture_call E (S fuel) (IntSource n) None w
     = match cv_VideoCapture E (SrcInt n) with
       | Ok v =>
           Some (Ok (Some (Device v),
                     if vc_isOpened v then w else warned (SrcInt n) w))
       | Raise e => Some (Raise e)
       end.
Proof.
  assert (Hopen : open_source E (str_source (IntSource n)) w
                  = match cv_VideoCapture E (SrcInt n) with
                    | Ok v => Ok (SrcInt n, Some (Device v), w)
                    | Raise e => Raise e
                    end).
  { cbn [str_source].
    rewrite (open_source_device E _ _ _ _ (parse_descriptor_str n))
      by discriminate.
    destruct (cv_VideoCapture E (SrcInt n)); reflexivity. }
  split; [apply int_str|]. split; [apply parse_descriptor_str|].
  split; [exact Hopen|].
  unfold create_capture_call.
  rewrite create_capture_without_fallback, Hopen.
  destruct (cv_VideoCapture E (SrcInt n)) as [v|]; [|reflexivity].
  cbn [unopened isOpened]. destruct (vc_isOpened v); reflexivity.
Qed.

Lemma bad_size_raises kw size e w :
  kw !! "size" = Some size ->
  parse_size size = Raise e ->
  exists e', VideoSynthBase_init E kw w = Raise e'.
Proof.
  intros Hsize Hparse. unfold VideoSynthBase_init, bind_kwargs.
  destruct (kw !! "self"); [unfold bind, raise; eauto|].
  unfold bind at 1, ret at 1. unfold bind at 1.
  destruct (kw !! "bg") as [path|].
  - destruct (imread E path) as [a|]; [|unfold raise; eauto].
    unfold bind at 1, alloc at 1, ret at 1.
    rewrite Hsize. unfold bind, lift. rewrite Hparse. eauto.
  - unfold ret at 1. rewrite Hsize. unfold bind, lift. rewrite Hparse. eauto.
Qed.

(** X5. A size that does not read as two integers around an [x].
    For a device or a file the exception leaves [create_capture],
    whatever the fallback, after the capture was made (it is a
    [ValueError] when [cv.VideoCapture] returned).  For a synthetic
    source the same mistake is swallowed with every other error of the
    constructor: the diagnostic is printed and the fallback is tried,
    or [None] is returned when there is none. *)
Theorem malformed_size_escapes_for_devices source src params size e fuel
    fallback w :
  parse_descriptor source = Ok (src, params) ->
  params !! "size" = Some size ->
  parse_size size = Raise e ->
  (src <> SrcStr "synth" ->
   exists e', create_capture E (S fuel) source fallback w = Some (Raise e')
     /\ (forall v, cv_VideoCapture E src = Ok v -> e' = ValueError))
  /\ (src = SrcStr "synth" ->
      create_capture E (S fuel) source None w
      = Some (Ok (None, warned (SrcStr "synth") w))
      /\ forall fb,
           create_capture E (S (S fuel)) source (Some fb) w
           = create_capture E (S fuel) fb None (warned (SrcStr "synth") w)).
Proof.
  intros Hp Hsize Hparse.
  assert (He : e = ValueError).
  { unfold parse_size in Hparse.
    destruct (Py.split "x" size) as [|sw [|sh [|? ?]]]; try congruence.
    destruct (Py.int sw), (Py.int sh); congruence. }
  subst e. split.
  - intros Hne. cbn [create_capture].
    rewrite (open_source_device E _ _ _ _ Hp Hne), Hsize, Hparse.
    destruct (cv_VideoCapture E src) as [v|e0].
    + exists ValueError. auto.
    + exists e0. split; [reflexivity|]. discriminate.
  - intros ->.
    destruct (construct_raises E (select_class params) params w) as [e He];
      [eapply bad_size_raises; eassumption|].
    assert (Hopen : open_source E source w = Ok (SrcStr "synth", None, w)).
    { rewrite (open_source_synth _ _ _ _ Hp), He. reflexivity. }
    split.
    + rewrite create_capture_without_fallback, Hopen. reflexivity.
    + intros fb. cbn [create_capture]. rewrite Hopen. reflexivity.
Qed.

(** X6. What a call of [create_capture] that returns has done, for
    any descriptor and fallback.  The random generator is untouched
    and buffers are only added.  At most two diagnostics are printed,
    at most one without a fallback; an unopened or missing result was
    reported, and without a fallback an opened one was not; [None] is
    returned only after a [synth] descriptor failed.  A synthetic
    source that is returned is opened, its background is in the store,
    its frames are not empty, and when its class is the base class or
    Chess it serves any number of reads, each returning [True]. *)
Theorem create_capture_result fuel source fallback w cap w' :
  create_capture E fuel source fallback w = Some (Ok (cap, w')) ->
  rng w' = rng w
  /\ (exists extra, heap w' = heap w ++ extra)
  /\ (exists warnings,
        stdout w' = stdout w ++ warnings
        /\ (length warnings <= 2)%nat
        /\ (fallback = None -> (length warnings <= 1)%nat)
        /\ (unopened cap = true -> warnings <> [])
        /\ (fallback = None -> unopened cap = false -> warnings = [])
        /\ (cap = None ->
            last warnings = Some (Warning_unable_to_open (SrcStr "synth"))))
  /\ (forall g, cap = Some (Synth g) ->
        isOpened (Synth g) = true
        /\ valid (base_of g) (heap w') = true
        /\ 0 < fst (frame_size (base_of g))
        /\ 0 < snd (frame_size (base_of g))
        /\ steady (heap w') cap = inherits_read g
        /\ (inherits_read g = true ->
            forall n, exists results g' w'',
              reads E n g w' = Ok (results, g', w'')
              /\ length results = n
              /\ Forall (fun r : bool * loc => fst r = true) results)).
Proof.
  intros Hrun.
  assert (Hsynth : forall g w1,
            valid (base_of g) (heap w1) = true
            /\ 0 < fst (frame_size (base_of g))
            /\ 0 < snd (frame_size (base_of g)) ->
            isOpened (Synth g) = true
            /\ valid (base_of g) (heap w1) = true
            /\ 0 < fst (frame_size (base_of g))
            /\ 0 < snd (frame_size (base_of g))
            /\ steady (heap w1) (Some (Synth g)) = inherits_read g
            /\ (inherits_read g = true ->
                forall n, exists results g' w'',
                  reads E n g w1 = Ok (results, g', w'')
                  /\ length results = n
                  /\ Forall (fun r : bool * loc => fst r = true) results)).
  { intros g w1 (Hv & Hfw & Hfh). split; [reflexivity|].
    split; [assumption|]. split; [assumption|]. split; [assumption|]. split.
    { cbn [steady]. rewrite Hv.
      apply Z.ltb_lt in Hfw, Hfh. rewrite Hfw, Hfh, !andb_true_r.
      reflexivity. }
    intros Hinh n.
    destruct (reads_total E n g w1 Hinh Hv)
      as (results & extra & rg & Hreads & Hlen & Hall).
    eexists _, _, _. split; [exact Hreads|]. split; [assumption|].
    eapply Forall_impl; [exact Hall|]. intros r (Hok & _). exact Hok. }
  apply create_capture_inv in Hrun
    as (src0 & cap0 & w0 & Hopen0 & [(-> & -> & Hfb)|(Hun0 & Hhop)]).
  - destruct (open_source_inv E _ _ _ _ _ Hopen0)
      as (Hrng & Hout & Hheap & Hvalid & Hnone).
    destruct (unopened cap0) eqn:Hun; cbn [warned rng heap stdout].
    + split; [assumption|]. split; [assumption|]. split.
      * exists [Warning_unable_to_open src0]. rewrite Hout.
        split; [reflexivity|]. split; [simpl; lia|]. split; [simpl; lia|].
        split; [discriminate|]. split; [discriminate|].
        intros Hc. rewrite (Hnone Hc). reflexivity.
      * intros g ->. discriminate Hun.
    + split; [assumption|]. split; [assumption|]. split.
      * exists []. rewrite Hout, app_nil_r.
        split; [reflexivity|]. split; [simpl; lia|]. split; [simpl; lia|].
        split; [discriminate|]. split; [reflexivity|].
        intros ->. discriminate Hun.
      * intros g ->. apply Hsynth. apply Hvalid. reflexivity.
  - destruct Hhop as (fb & src1 & w1 & -> & Hopen1 & ->).
    destruct (open_source_inv E _ _ _ _ _ Hopen0)
      as (Hrng0 & Hout0 & (extra0 & Hheap0) & _ & _).
    destruct (open_source_inv E _ _ _ _ _ Hopen1)
      as (Hrng1 & Hout1 & (extra1 & Hheap1) & Hvalid & Hnone).
    cbn [warned rng heap stdout] in *.
    assert (Hext : exists extra, heap w1 = heap w ++ extra).
    { exists (extra0 ++ extra1). rewrite Hheap1, Hheap0, app_assoc.
      reflexivity. }
    destruct (unopened cap) eqn:Hun; cbn [warned rng heap stdout].
    + split; [congruence|]. split; [assumption|]. split.
      * exists [Warning_unable_to_open src0; Warning_unable_to_open src1].
        rewrite Hout1, Hout0, <- app_assoc.
        split; [reflexivity|]. split; [simpl; lia|]. split; [discriminate|].
        split; [discriminate|]. split; [discriminate|].
        intros Hc. rewrite (Hnone Hc). reflexivity.
      * intros g ->. discriminate Hun.
    + split; [congruence|]. split; [assumption|]. split.
      * exists [Warning_unable_to_open src0]. rewrite Hout1, Hout0.
        split; [reflexivity|]. split; [simpl; lia|]. split; [discriminate|].
        split; [discriminate|]. split; [discriminate|].
        intros ->. discriminate Hun.
      * intros g ->. apply Hsynth. apply Hvalid. reflexivity.
Qed.

(** The default fallback: what its descriptor says, and what its
    constructor does. *)
Lemma default_fallback_descriptor :
  default_fallback
  = Some "synth:class=chess:bg=../data/lena.jpg:noise=0.1:size=640x480"
  /\ parse_descriptor
       "synth:class=chess:bg=../data/lena.jpg:noise=0.1:size=640x480"
     = Ok (SrcStr "synth",
           <["size" := "640x480"]>
             (<["noise" := "0.1"]>
                (<["bg" := "../data/lena.jpg"]> (<["class" := "chess"]> ∅)))).
Proof. split; reflexivity. Qed.

Lemma default_fallback_base w :
  VideoSynthBase_init E
    (<["size" := "640x480"]>
       (<["noise" := "0.1"]>
          (<["bg" := "../data/lena.jpg"]> (<["class" := "chess"]> ∅)))) w
  = match imread E "../data/lena.jpg" with
    | None => Raise AttributeError
    | Some a =>
        match py_float E "0.1" with
        | None => Raise ValueError
        | Some x =>
            Ok ({| bg := Some (S (length (heap w)));
                   frame_size := (640, 480); noise := x |},
                World (heap w
                       ++ [a; Image 480 640 (cv_resize_data E a 640 480)])
                  (rng w) (stdout w))
        end
    end.
Proof.
  set (params := <["size" := "640x480"]> _).
  assert (Hself : params !! "self" = None) by reflexivity.
  assert (Hbg : params !! "bg" = Some "../data/lena.jpg") by reflexivity.
  assert (Hsize : params !! "size" = Some "640x480") by reflexivity.
  assert (Hnoise : params !! "noise" = Some "0.1") by reflexivity.
  unfold VideoSynthBase_init, bind_kwargs.
  rewrite Hself, Hbg, Hsize, Hnoise.
  unfold bind at 1, ret at 1. unfold bind at 1.
  destruct (imread E "../data/lena.jpg") as [a|] eqn:Him; [|reflexivity].
  pose proof (imread_nonempty E _ _ Him) as Hpos.
  unfold bind at 1, alloc at 1, ret at 1. unfold bind at 1.
  unfold bind at 1, lift at 1.
  replace (parse_size "640x480") with (Ok (A := Z * Z) (640, 480))
    by reflexivity.
  unfold bind at 1, cv_resize, bind at 1, load at 1. cbn [heap].
  rewrite list_lookup_middle by reflexivity.
  rewrite Hpos. cbn [andb Z.ltb Z.compare].
  unfold alloc at 1, ret at 1. cbn [heap rng stdout]. unfold bind.
  destruct (py_float E "0.1") as [x|]; [|reflexivity].
  unfold ret. rewrite length_app, <- app_assoc. cbn [length app].
  rewrite Nat.add_1_r. reflexivity.
Qed.

(** X7. The default fallback, the preset [chess].  When the first
    source is missing or not opened and no fallback is passed,
    [create_capture] returns [None] after a second diagnostic if
    [../data/lena.jpg] cannot be read (or [float] fails); otherwise it
    returns a Chess generator of frame size 640 by 480 at time 0 whose
    background is that picture resized, a new buffer beside the
    decoded picture. *)
Theorem default_fallback_outcome source w src cap w1 k :
  open_source E source w = Ok (src, cap, w1) ->
  unopened cap = true ->
  (imread E "../data/lena.jpg" = None \/ py_float E "0.1" = None ->
   create_capture E (S (S k)) source default_fallback w
   = Some (Ok (None, warned (SrcStr "synth") (warned src w1))))
  /\ (forall a x,
        imread E "../data/lena.jpg" = Some a ->
        py_float E "0.1" = Some x ->
        exists c,
          create_capture E (S (S k)) source default_fallback w
          = Some (Ok (Some (Synth (Chess_obj c)),
                      World
                        (heap w1
                         ++ [a; Image 480 640 (cv_resize_data E a 640 480)])
                        (rng w1)
                        (stdout w1 ++ [Warning_unable_to_open src])))
          /\ chess_base c
             = {| bg := Some (S (length (heap w1)));
                  frame_size := (640, 480); noise := x |}
          /\ t c = 0%R /\ grid_size c = (10, 7)).
Proof.
  intros Hopen Hun.
  destruct default_fallback_descriptor as (Hfb & Hparse).
  set (params := <["size" := "640x480"]> _) in Hparse.
  assert (Hclass : select_class params = Chess_class) by reflexivity.
  assert (Hself : params !! "self" = None) by reflexivity.
  assert (Hhop : create_capture E (S (S k)) source default_fallback w
                 = match Chess_init E params (warned src w1) with
                   | Ok (c, w2) => Some (Ok (Some (Synth (Chess_obj c)), w2))
                   | Raise _ =>
                       Some (Ok (None,
                                 warned (SrcStr "synth") (warned src w1)))
                   end).
  { cbn [create_capture]. rewrite Hopen, Hun, Hfb. unfold print.
    fold (warned src w1).
    rewrite (open_source_synth E _ _ _ Hparse), Hclass. cbn [construct].
    unfold bind at 1.
    destruct (Chess_init E params (warned src w1)) as [[c w2]|]; reflexivity. }
  rewrite Hhop. clear Hhop.
  assert (Hinit : Chess_init E params (warned src w1)
                  = match VideoSynthBase_init E params (warned src w1) with
                    | Ok (b, w2) =>
                        Ok ({| chess_base := b;
                               grid_size := (10, 7);
                               white_quads := fst (chess_quads 10 7);
                               black_quads := snd (chess_quads 10 7);
                               K := [[0.9 * IZR (fst (frame_size b)); 0;
                                      0.5 * (IZR (fst (frame_size b)) - 1)];
                                     [0; 0.9 * IZR (fst (frame_size b));
                                      0.5 * (IZR (snd (frame_size b)) - 1)];
                                     [0; 0; 1]]%R;
                               dist_coef := [-0.2; 0.1; 0; 0]%R;
                               t := 0%R; rvec := None; tvec := None |}, w2)
                    | Raise e => Raise e
                    end).
  { unfold Chess_init, bind_kwargs. rewrite Hself.
    unfold bind at 1, ret at 1. unfold bind.
    destruct (VideoSynthBase_init E params (warned src w1)) as [[b w2]|];
      [|reflexivity].
    destruct (frame_size b) as [fw fh].
    destruct (chess_quads 10 7) as [white black]. reflexivity. }
  rewrite Hinit, default_fallback_base. clear Hinit.
  cbn [warned heap rng stdout]. split.
  - intros [Hno|Hno]; rewrite Hno; [reflexivity|].
    destruct (imread E "../data/lena.jpg"); reflexivity.
  - intros a x Him Hfl. rewrite Him, Hfl.
    eexists. split; [reflexivity|]. cbn [chess_base t grid_size]. auto.
Qed.

End Resolved.

(** ** Parameters that nothing reads *)

Lemma descriptor_chunks_cons source :
  exists h t, descriptor_chunks source = h :: t.
Proof.
  unfold descriptor_chunks.
  destruct (split_head_tail ":" (Py.strip source)) as (h & t & ->).
  unfold drive_letter. destruct t as [|c1 rest]; [eauto|].
  destruct ((Py.len h =? 1) && Py.isalpha h); eauto.
Qed.

Lemma py_dict_app_pair k v items : forall acc,
  py_dict (items ++ [[k; v]]) acc
  = match py_dict items acc with
    | Ok params => Ok (<[k := v]> params)
    | Raise e => Raise e
    end.
Proof.
  induction items as [|it rest IH]; intros acc; [reflexivity|].
  destruct it as [|a [|b [|c r]]]; cbn [app py_dict]; try reflexivity.
  apply IH.
Qed.

Section Ignored.

Context (E : Env).

Lemma VideoSynthBase_init_ignores k v kw :
  k <> "self" -> k <> "bg" -> k <> "size" -> k <> "noise" ->
  VideoSynthBase_init E (<[k := v]> kw) = VideoSynthBase_init E kw.
Proof.
  intros H1 H2 H3 H4. unfold VideoSynthBase_init, bind_kwargs.
  rewrite !lookup_insert_ne by assumption. reflexivity.
Qed.

Lemma construct_ignores C k v kw w :
  k <> "self" -> k <> "bg" -> k <> "size" -> k <> "noise" ->
  construct E C (<[k := v]> kw) w = construct E C kw w.
Proof.
  intros H1 H2 H3 H4.
  destruct C; cbn [construct]; unfold Chess_init, Book_init, Cube_init,
    bind_kwargs;
    rewrite ?lookup_insert_ne by assumption;
    rewrite VideoSynthBase_init_ignores by assumption; reflexivity.
Qed.

(** X19. A parameter that nothing reads is ignored without a word.  A
    further token [k=v] at the end of a descriptor that parses, whose
    key is none of [class], [self], [bg], [size] and [noise], adds the
    key to the parameters and changes nothing else: the source
    resolves to the same object in the same store, and
    [create_capture] gives the same result, for every class and for
    devices and files alike.  A misspelt key is such a parameter. *)
Theorem unknown_parameters_are_ignored source source' tok k v src params w :
  parse_descriptor source = Ok (src, params) ->
  descriptor_chunks source' = descriptor_chunks source ++ [tok] ->
  Py.split "=" tok = [k; v] ->
  ~ In k ["class"; "self"; "bg"; "size"; "noise"] ->
  parse_descriptor source' = Ok (src, <[k := v]> params)
  /\ open_source E source' w = open_source E source w
  /\ forall fuel fallback,
       create_capture E fuel source' fallback w
       = create_capture E fuel source fallback w.
Proof.
  intros Hp Hchunks Htok Hk.
  assert (Hne : k <> "class" /\ k <> "self" /\ k <> "bg" /\ k <> "size"
                /\ k <> "noise").
  { repeat split; intros ->; apply Hk; simpl; tauto. }
  destruct Hne as (Hclass & Hself & Hbg & Hsize & Hnoise).
  assert (Hp' : parse_descriptor source' = Ok (src, <[k := v]> params)).
  { revert Hp. rewrite !parse_descriptor_params, Hchunks.
    destruct (descriptor_chunks_cons source) as (h & t & ->).
    cbn [app hd tl]. rewrite map_app. cbn [map]. rewrite Htok, py_dict_app_pair.
    destruct (py_dict (map (Py.split "=") t) ∅) as [p|]; [|discriminate].
    intros [= <- <-]. reflexivity. }
  assert (Hopen : open_source E source' w = open_source E source w).
  { assert (Hcase : src = SrcStr "synth" \/ src <> SrcStr "synth").
    { destruct src as [n|s]; [right; discriminate|].
      destruct (String.eqb_spec s "synth") as [->|Hs]; [left; reflexivity|].
      right. congruence. }
    destruct Hcase as [->|Hdev].
    - rewrite (open_source_synth E _ _ _ Hp'), (open_source_synth E _ _ _ Hp).
      unfold select_class. rewrite lookup_insert_ne by assumption.
      rewrite construct_ignores by assumption. reflexivity.
    - rewrite (open_source_device E _ _ _ _ Hp' Hdev),
        (open_source_device E _ _ _ _ Hp Hdev).
      rewrite lookup_insert_ne by assumption. reflexivity. }
  split; [exact Hp'|]. split; [exact Hopen|].
  intros [|fuel] fallback; [reflexivity|]. cbn [create_capture].
  rewrite Hopen. reflexivity.
Qed.

End Ignored.

(** ** Noise *)

Lemma add_samples_lookup xs : forall ys i x y,
  xs !! i = Some x -> ys !! i = Some y ->
  add_samples xs ys !! i = Some (saturate_u8 (x + y)).
Proof.
  induction xs as [|x0 xs IH]; intros ys i x y Hx Hy; [discriminate|].
  destruct ys as [|y0 ys]; [discriminate|].
  destruct i as [|i]; cbn in *; [congruence|]. eapply IH; eassumption.
Qed.

Lemma noise_step x y :
  0 <= x <= 255 ->
  0 <= saturate_u8 (x + saturate_i8 y) <= 255
  /\ x - 128 <= saturate_u8 (x + saturate_i8 y) <= x + 127.
Proof. unfold saturate_u8, saturate_i8. lia. Qed.

Section Noise.

Context (E : Env).

(** X8. The inherited read and the noise level.  With a positive
    level a read of a base generator draws one noise field, advances
    the random generator, and returns a new buffer that holds the
    saturated sum of the still frame and the field, leaving the copy
    of the still frame in the store; with a level that is not positive
    (zero or negative) it returns the copy and leaves the random
    generator alone.  A sample of the noisy frame stays in 0..255 and
    differs from the sample of the still frame by at most 128 down and
    127 up. *)
Theorem base_read_noise b w :
  valid b (heap w) = true ->
  let still := still_frame b (heap w) in
  let drawn :=
    cv_randn E (rng w) (snd (frame_size b)) (fst (frame_size b))
      (255 * noise b) in
  let noisy :=
    Image (rows still) (cols still)
      (add_samples (data still) (map saturate_i8 (fst drawn))) in
  ((0 < noise b)%R ->
   read E (Base_obj b) w
   = Ok (true, S (length (heap w)), Base_obj b,
         World (heap w ++ [still; noisy]) (snd drawn) (stdout w)))
  /\ (~ (0 < noise b)%R ->
      read E (Base_obj b) w
      = Ok (true, length (heap w), Base_obj b,
            World (heap w ++ [still]) (rng w) (stdout w)))
  /\ (forall i x y,
        data still !! i = Some x -> fst drawn !! i = Some y ->
        0 <= x <= 255 ->
        exists out,
          data noisy !! i = Some out
          /\ 0 <= out <= 255 /\ x - 128 <= out <= x + 127).
Proof.
  intros Hv. cbv zeta.
  destruct (read_buffer _ _ Hv) as (Hbuf & Hr0 & Hc0).
  destruct (valid_inv _ _ Hv) as (Hw & Hh & _).
  set (still := still_frame b (heap w)) in *.
  split; [|split].
  - intros Hpos. unfold read, VideoSynthBase_read.
    destruct (frame_size b) as [fw fh]. cbn [fst snd] in *.
    unfold bind at 1. unfold bind at 1. rewrite Hbuf.
    unfold VideoSynthBase_render. unfold bind at 1. unfold ret at 1.
    destruct (Rlt_dec 0 (noise b)) as [_|Hn]; [|contradiction].
    unfold randn_noise. rewrite nonneg_dims_accepted by assumption.
    unfold bind at 1. cbn [rng heap stdout].
    destruct (cv_randn E (rng w) fh fw (255 * noise b)) as [samples g].
    unfold bind at 1, load at 1. cbn [heap].
    rewrite list_lookup_middle by reflexivity.
    unfold bind, cv_add. cbn [rows cols].
    replace ((rows still =? Z.to_N fh)%N && (cols still =? Z.to_N fw)%N)
      with true
      by (symmetry; apply andb_true_iff; split; apply N.eqb_eq; lia).
    unfold alloc, ret. cbn [heap rng stdout fst snd].
    rewrite length_app, <- app_assoc. cbn [length app].
    rewrite Nat.add_1_r. reflexivity.
  - intros Hzero. apply read_base_still; assumption.
  - intros i x y Hx Hy Hrange. exists (saturate_u8 (x + saturate_i8 y)).
    split; [|apply noise_step; assumption].
    cbn [data]. apply add_samples_lookup; [assumption|].
    rewrite list_lookup_fmap, Hy. reflexivity.
Qed.

End Noise.

(** ** Book and Cube *)

Section Scenes.

Context (E : Env).

(** X9. Book and Cube never look at the background or the frame size
    that their constructor stored: two objects with the same engine
    and the same noise level, however their inherited fields differ
    otherwise, read the same frame into the same store, or raise the
    same exception; the frame has the size of the engine's
    background. *)
Theorem scene_frames_ignore_background b1 b2 r w :
  noise b1 = noise b2 ->
  match Scene_read E {| scene_base := b1; scene_render := r |} w,
        Scene_read E {| scene_base := b2; scene_render := r |} w with
  | Ok (ok1, frame1, s1, w1), Ok (ok2, frame2, s2, w2) =>
      ok1 = ok2 /\ frame1 = frame2 /\ w1 = w2
      /\ scene_render s1 = scene_render s2
      /\ scene_base s1 = b1 /\ scene_base s2 = b2
      /\ exists a, heap w1 !! frame1 = Some a
           /\ rows a = rows (sceneBg r) /\ cols a = cols (sceneBg r)
  | Raise e1, Raise e2 => e1 = e2
  | _, _ => False
  end.
Proof.
  intros Hnoise.
  destruct (Scene_read E {| scene_base := b1; scene_render := r |} w)
    as [[[[ok1 f1] s1] w1]|e1] eqn:H1.
  - pose proof (Scene_read_inv E _ _ _ _ _ _ H1)
      as (_ & Hf & _ & _ & out & Hheap & Hr & Hc).
    revert H1. unfold Scene_read. cbn [scene_base scene_render].
    rewrite <- Hnoise. intros H1.
    destruct (shape (sceneBg r)) as [h wd].
    unfold bind in *.
    destruct (randn_noise E _ _ _ w) as [[nf w0]|]; [|discriminate].
    destruct (lift (getNextFrame E r) w0) as [[[fr r'] w0']|]; [|discriminate].
    destruct (cv_add fr nf w0') as [[o w0'']|]; [|discriminate].
    unfold ret in *. injection H1 as <- <- <- <-.
    cbn [scene_base scene_render].
    repeat (split; [reflexivity|]).
    exists out. rewrite Hheap, Hf. cbn [scene_render] in Hr, Hc.
    split; [apply list_lookup_middle; reflexivity|]. auto.
  - revert H1. unfold Scene_read. cbn [scene_base scene_render].
    rewrite <- Hnoise.
    destruct (shape (sceneBg r)) as [h wd].
    unfold bind.
    destruct (randn_noise E _ _ _ w) as [[nf w0]|]; [|congruence].
    destruct (lift (getNextFrame E r) w0) as [[[fr r'] w0']|]; [|congruence].
    destruct (cv_add fr nf w0') as [[o w0'']|]; [|congruence].
    discriminate.
Qed.

End Scenes.

(** ** The board *)

Lemma chess_quads_fold cells : forall white black,
  fold_left
    (fun (acc : list quad * list quad) (ij : Z * Z) =>
       let '(white, black) := acc in
       let '(i, j) := ij in
       let q := [(j, i, 0); (j + 1, i, 0); (j + 1, i + 1, 0); (j, i + 1, 0)] in
       if (i + j) mod 2 =? 0 then (white ++ [q], black)
       else (white, black ++ [q]))
    cells (white, black)
  = (white
     ++ map (fun ij : Z * Z =>
               [(snd ij, fst ij, 0); (snd ij + 1, fst ij, 0);
                (snd ij + 1, fst ij + 1, 0); (snd ij, fst ij + 1, 0)])
          (List.filter (fun ij : Z * Z => (fst ij + snd ij) mod 2 =? 0) cells),
     black
     ++ map (fun ij : Z * Z =>
               [(snd ij, fst ij, 0); (snd ij + 1, fst ij, 0);
                (snd ij + 1, fst ij + 1, 0); (snd ij, fst ij + 1, 0)])
          (List.filter
             (fun ij : Z * Z => negb ((fst ij + snd ij) mod 2 =? 0)) cells)).
Proof.
  induction cells as [|[i j] rest IH]; intros white black.
  - cbn. rewrite !app_nil_r. reflexivity.
  - cbn [fold_left List.filter fst snd].
    destruct ((i + j) mod 2 =? 0); rewrite IH; cbn [negb map fst snd];
      rewrite <- ?app_assoc; reflexivity.
Qed.

Lemma flat_map_const_length {A B} (f : A -> list B) k l :
  (forall x, length (f x) = k) ->
  length (flat_map f l) = (length l * k)%nat.
Proof.
  intros Hf. induction l as [|x rest IH]; [reflexivity|].
  cbn [flat_map length]. rewrite length_app, Hf, IH. lia.
Qed.

Lemma length_ndindex n m :
  length (ndindex n m) = (Z.to_nat n * Z.to_nat m)%nat.
Proof.
  unfold ndindex.
  rewrite (flat_map_const_length _ (Z.to_nat m)), length_seqZ; [reflexivity|].
  intros i. rewrite length_map, length_seqZ. reflexivity.
Qed.

Lemma in_ndindex n m i j :
  In (i, j) (ndindex n m) <-> 0 <= i < n /\ 0 <= j < m.
Proof.
  unfold ndindex. rewrite in_flat_map. split.
  - intros (i' & Hi & Hj). apply in_map_iff in Hj as (j' & [= <- <-] & Hj).
    apply list_elem_of_In, elem_of_seqZ in Hi, Hj. lia.
  - intros (Hi & Hj). exists i. split.
    + apply list_elem_of_In, elem_of_seqZ. lia.
    + apply in_map_iff. exists j. split; [reflexivity|].
      apply list_elem_of_In, elem_of_seqZ. lia.
Qed.

Lemma length_filter_split {A} (p : A -> bool) l :
  (length (List.filter p l) + length (List.filter (fun x => negb (p x)) l)
   = length l)%nat.
Proof.
  induction l as [|x rest IH]; [reflexivity|]. cbn [List.filter].
  destruct (p x); cbn [negb length]; lia.
Qed.

(** The two lists of squares that [Chess.__init__] builds. *)
Lemma chess_quads_lists sx sy :
  chess_quads sx sy
  = (map (fun ij : Z * Z =>
            [(snd ij, fst ij, 0); (snd ij + 1, fst ij, 0);
             (snd ij + 1, fst ij + 1, 0); (snd ij, fst ij + 1, 0)])
       (List.filter (fun ij : Z * Z => (fst ij + snd ij) mod 2 =? 0)
          (ndindex sy sx)),
     map (fun ij : Z * Z =>
            [(snd ij, fst ij, 0); (snd ij + 1, fst ij, 0);
             (snd ij + 1, fst ij + 1, 0); (snd ij, fst ij + 1, 0)])
       (List.filter
          (fun ij : Z * Z => negb ((fst ij + snd ij) mod 2 =? 0))
          (ndindex sy sx))).
Proof. unfold chess_quads. rewrite chess_quads_fold. reflexivity. Qed.

Lemma chess_quads_four_corners sx sy :
  Forall (fun q : quad => length q = 4%nat)
    (fst (chess_quads sx sy) ++ snd (chess_quads sx sy)).
Proof.
  rewrite chess_quads_lists. cbn [fst snd]. apply Forall_app.
  split; apply Forall_forall; intros q Hq; apply list_elem_of_In in Hq;
    apply in_map_iff in Hq as (ij & <- & _); reflexivity.
Qed.

Lemma chess_quads_count sx sy :
  (length (fst (chess_quads sx sy)) + length (snd (chess_quads sx sy))
   = Z.to_nat sy * Z.to_nat sx)%nat.
Proof.
  rewrite chess_quads_lists. cbn [fst snd].
  rewrite !length_map, length_filter_split. apply length_ndindex.
Qed.

(** X10. The board that the loop of [Chess.__init__] builds, for any
    numbers of columns [sx] and rows [sy]: the white and the black
    list hold [sx * sy] quads together; a quad is white exactly when
    it is the unit square of a cell (i, j) of the board with i + j
    even, black exactly when i + j is odd; every quad has four
    corners; the first white quad is the square at the origin. *)
Theorem chess_quads_partition sx sy :
  let square (i j : Z) : quad :=
    [(j, i, 0); (j + 1, i, 0); (j + 1, i + 1, 0); (j, i + 1, 0)] in
  let white := fst (chess_quads sx sy) in
  let black := snd (chess_quads sx sy) in
  (length white + length black = Z.to_nat sy * Z.to_nat sx)%nat
  /\ (forall q, In q white <->
         exists i j, 0 <= i < sy /\ 0 <= j < sx
                     /\ (i + j) mod 2 = 0 /\ q = square i j)
  /\ (forall q, In q black <->
         exists i j, 0 <= i < sy /\ 0 <= j < sx
                     /\ (i + j) mod 2 = 1 /\ q = square i j)
  /\ Forall (fun q : quad => length q = 4%nat) (white ++ black)
  /\ hd_error white = (if (0 <? sx) && (0 <? sy) then Some (square 0 0)
                       else None).
Proof.
  cbv zeta. pose proof (chess_quads_four_corners sx sy) as Hfour.
  pose proof (chess_quads_count sx sy) as Hcount.
  rewrite chess_quads_lists in *. cbn [fst snd] in *.
  split; [exact Hcount|]. split; [|split; [|split; [exact Hfour|]]].
  - intros q. rewrite in_map_iff. split.
    + intros ([i j] & <- & Hin). apply filter_In in Hin as (Hin & Hpar).
      apply in_ndindex in Hin. cbn [fst snd] in *.
      apply Z.eqb_eq in Hpar. exists i, j. repeat split; try lia.
    + intros (i & j & Hi & Hj & Hpar & ->). exists (i, j).
      split; [reflexivity|]. apply filter_In. cbn [fst snd].
      split; [apply in_ndindex; lia|apply Z.eqb_eq; assumption].
  - intros q. rewrite in_map_iff. split.
    + intros ([i j] & <- & Hin). apply filter_In in Hin as (Hin & Hpar).
      apply in_ndindex in Hin. cbn [fst snd] in *.
      apply negb_true_iff, Z.eqb_neq in Hpar. exists i, j.
      pose proof (Z.mod_pos_bound (i + j) 2). repeat split; try lia.
    + intros (i & j & Hi & Hj & Hpar & ->). exists (i, j).
      split; [reflexivity|]. apply filter_In. cbn [fst snd].
      split; [apply in_ndindex; lia|].
      apply negb_true_iff, Z.eqb_neq. lia.
  - unfold ndindex.
    destruct (Z.ltb_spec 0 sx) as [Hx|Hx];
      destruct (Z.ltb_spec 0 sy) as [Hy|Hy]; cbn [andb].
    + rewrite (seqZ_cons 0 sy) by lia. cbn [flat_map].
      rewrite (seqZ_cons 0 sx) by lia. reflexivity.
    + rewrite (seqZ_nil 0 sy) by lia. reflexivity.
    + rewrite (seqZ_nil 0 sx) by lia.
      induction (seqZ 0 sy) as [|i rest IH]; [reflexivity|exact IH].
    + rewrite (seqZ_nil 0 sy) by lia. reflexivity.
Qed.

(** ** Drawing the board *)

(** Flattening quads of four corners and taking the corners four by
    four again gives the quads back. *)
Lemma group4_quads {A B} (f : A -> B) (quads : list (list A)) :
  Forall (fun q => length q = 4%nat) quads ->
  group4 (map f (concat quads)) = map (map f) quads.
Proof.
  induction quads as [|q rest IH]; intros Hall; [reflexivity|].
  inversion Hall as [|? ? Hq Hrest]; subst.
  destruct q as [|a [|b [|c [|d [|? ?]]]]]; try discriminate Hq.
  cbn [concat app map group4]. rewrite (IH Hrest). reflexivity.
Qed.

Section Drawing.

Context (E : Env).

Lemma paint_shape color qs : forall a,
  rows (paint E color a qs) = rows a /\ cols (paint E color a qs) = cols a.
Proof.
  unfold paint. induction qs as [|q rest IH]; intros a; [auto|].
  cbn [fold_left]. destruct (IH (Image (rows a) (cols a)
    (cv_fillConvexPoly E a
       (map (fun p : R * R => (np_int32 (fst p * 4), np_int32 (snd p * 4))) q)
       color))) as (Hr & Hc).
  rewrite Hr, Hc. auto.
Qed.

Lemma fill_quads_paint img color qs : forall w a,
  heap w !! img = Some a ->
  fill_quads E img qs color w
  = Ok (tt, World (<[img := paint E color a qs]> (heap w)) (rng w) (stdout w)).
Proof.
  induction qs as [|q rest IH]; intros w a Hl; cbn [fill_quads].
  - unfold paint. cbn [fold_left]. rewrite list_insert_id by assumption.
    destruct w; reflexivity.
  - unfold_monad. rewrite Hl.
    set (a1 := Image (rows a) (cols a) _).
    pose proof (lookup_lt_Some _ _ _ Hl) as Hlt.
    rewrite (IH (World (<[img := a1]> (heap w)) (rng w) (stdout w)) a1).
    + cbn [heap rng stdout]. rewrite list_insert_insert_eq. reflexivity.
    + cbn [heap]. apply list_lookup_insert_eq. assumption.
Qed.

(** X11. One call of [Chess.render] on an object that carries a board
    as built by the constructor.  The corners go through
    [cv.projectPoints] flattened and come back four by four as the
    quads they were, so the array is painted with one polygon for
    every square, the white squares first and the black ones over
    them, [sx * sy] polygons in all, each with four corners, projected
    with the pose that this call stored; the array keeps its place in
    the store and its size, and nothing else changes there. *)
Theorem render_paints_every_square c sx sy dst w a :
  (white_quads c, black_quads c) = chess_quads sx sy ->
  heap w !! dst = Some a ->
  exists rv tv,
    rvec (Chess_next E c) = Some rv /\ tvec (Chess_next E c) = Some tv
    /\ let project :=
         map (map (fun p => cv_projectPoint E p rv tv (K c) (dist_coef c))) in
       let whites := project (white_quads c) in
       let blacks := project (black_quads c) in
       let picture :=
         paint E (10, 10, 10) (paint E (245, 245, 245) a whites) blacks in
       Chess_render E c dst w
       = Ok (Chess_next E c,
             World (<[dst := picture]> (heap w)) (rng w) (stdout w))
       /\ (length whites + length blacks = Z.to_nat sy * Z.to_nat sx)%nat
       /\ Forall (fun q => length q = 4%nat) (whites ++ blacks)
       /\ rows picture = rows a /\ cols picture = cols a.
Proof.
  intros Hquads Hl.
  pose proof (chess_quads_four_corners sx sy) as Hfour.
  pose proof (chess_quads_count sx sy) as Hcount.
  rewrite <- Hquads in Hfour, Hcount. cbn [fst snd] in Hfour, Hcount.
  apply Forall_app in Hfour as (Hw4 & Hb4).
  unfold Chess_render, Chess_next.
  cbn [chess_base grid_size white_quads black_quads K dist_coef t rvec tvec].
  destruct (Chess_camera (grid_size c) (t c)) as [[phi eye] target].
  destruct (lookat E eye target) as [Rm tv].
  cbn [chess_base grid_size white_quads black_quads K dist_coef t rvec tvec].
  exists (mtx2rvec E Rm), tv. split; [reflexivity|]. split; [reflexivity|].
  cbv zeta.
  set (proj := fun p =>
                 cv_projectPoint E p (mtx2rvec E Rm) tv (K c) (dist_coef c)).
  pose proof (lookup_lt_Some _ _ _ Hl) as Hlt.
  split; [|split; [|split]].
  - unfold draw_quads.
    cbn [chess_base grid_size white_quads black_quads K dist_coef t rvec tvec].
    fold proj. rewrite !group4_quads by assumption.
    unfold bind at 1. rewrite (fill_quads_paint _ _ _ _ a Hl).
    unfold bind at 1.
    rewrite (fill_quads_paint _ _ _ _ (paint E (245, 245, 245) a
                                         (map (map proj) (white_quads c)))).
    2:{ cbn [heap]. apply list_lookup_insert_eq. assumption. }
    cbn [heap rng stdout]. rewrite list_insert_insert_eq. reflexivity.
  - rewrite !length_map. exact Hcount.
  - apply Forall_app. split; apply Forall_fmap;
      (eapply Forall_impl; [eassumption|]); intros q Hq; cbn;
      rewrite length_map; exact Hq.
  - destruct (paint_shape (10, 10, 10) (map (map proj) (black_quads c))
                (paint E (245, 245, 245) a (map (map proj) (white_quads c))))
      as (Hr & Hc).
    destruct (paint_shape (245, 245, 245) (map (map proj) (white_quads c)) a)
      as (Hr' & Hc').
    split; congruence.
Qed.

End Drawing.

Section Chess_frames.

Context (E : Env).

(** The array after one call of [Chess.render]. *)
Lemma Chess_render_paint c dst w a :
  Forall (fun q : quad => length q = 4%nat) (white_quads c ++ black_quads c) ->
  heap w !! dst = Some a ->
  exists rv tv,
    rvec (Chess_next E c) = Some rv /\ tvec (Chess_next E c) = Some tv
    /\ Chess_render E c dst w
       = Ok (Chess_next E c,
             World
               (<[dst :=
                    paint E (10, 10, 10)
                      (paint E (245, 245, 245) a
                         (map (map (fun p => cv_projectPoint E p rv tv (K c)
                                               (dist_coef c)))
                            (white_quads c)))
                      (map (map (fun p => cv_projectPoint E p rv tv (K c)
                                            (dist_coef c)))
                         (black_quads c))]> (heap w))
               (rng w) (stdout w)).
Proof.
  intros Hfour Hl. apply Forall_app in Hfour as (Hw4 & Hb4).
  unfold Chess_render, Chess_next.
  cbn [chess_base grid_size white_quads black_quads K dist_coef t rvec tvec].
  destruct (Chess_camera (grid_size c) (t c)) as [[phi eye] target].
  destruct (lookat E eye target) as [Rm tv].
  cbn [chess_base grid_size white_quads black_quads K dist_coef t rvec tvec].
  exists (mtx2rvec E Rm), tv. split; [reflexivity|]. split; [reflexivity|].
  set (proj := fun p =>
                 cv_projectPoint E p (mtx2rvec E Rm) tv (K c) (dist_coef c)).
  pose proof (lookup_lt_Some _ _ _ Hl) as Hlt.
  unfold draw_quads.
  cbn [chess_base grid_size white_quads black_quads K dist_coef t rvec tvec].
  fold proj. rewrite !group4_quads by assumption.
  unfold bind at 1. rewrite (fill_quads_paint E _ _ _ _ a Hl).
  unfold bind at 1.
  rewrite (fill_quads_paint E _ _ _ _
             (paint E (245, 245, 245) a (map (map proj) (white_quads c)))).
  2:{ cbn [heap]. apply list_lookup_insert_eq. assumption. }
  cbn [heap rng stdout]. rewrite list_insert_insert_eq. reflexivity.
Qed.

(** X17. The frame of a Chess generator that carries a board as built
    by the constructor.  A read copies the still frame (the stored
    background, or black) into a new buffer and paints the board into
    the copy, white squares first, with the pose of the camera at the
    time the object held.  Without noise the frame is that picture.
    With a positive noise level it is a second new buffer: the
    saturated sum of the picture and one noise field, the random
    generator advanced once.  The picture has the size of the still
    frame, and the object afterwards is the one that [render] left. *)
Theorem chess_read_paints_a_copy c sx sy w :
  (white_quads c, black_quads c) = chess_quads sx sy ->
  valid (chess_base c) (heap w) = true ->
  exists rv tv,
    rvec (Chess_next E c) = Some rv /\ tvec (Chess_next E c) = Some tv
    /\ let project :=
         map (map (fun p => cv_projectPoint E p rv tv (K c) (dist_coef c))) in
       let still := still_frame (chess_base c) (heap w) in
       let picture :=
         paint E (10, 10, 10)
           (paint E (245, 245, 245) still (project (white_quads c)))
           (project (black_quads c)) in
       let drawn :=
         cv_randn E (rng w) (snd (frame_size (chess_base c)))
           (fst (frame_size (chess_base c))) (255 * noise (chess_base c)) in
       let noisy :=
         Image (rows picture) (cols picture)
           (add_samples (data picture) (map saturate_i8 (fst drawn))) in
       (~ (0 < noise (chess_base c))%R ->
        read E (Chess_obj c) w
        = Ok (true, length (heap w), Chess_obj (Chess_next E c),
              World (heap w ++ [picture]) (rng w) (stdout w)))
       /\ ((0 < noise (chess_base c))%R ->
           read E (Chess_obj c) w
           = Ok (true, S (length (heap w)), Chess_obj (Chess_next E c),
                 World (heap w ++ [picture; noisy]) (snd drawn) (stdout w)))
       /\ rows picture = rows still /\ cols picture = cols still.
Proof.
  intros Hquads Hv.
  pose proof (chess_quads_four_corners sx sy) as Hfour.
  rewrite <- Hquads in Hfour. cbn [fst snd] in Hfour.
  destruct (read_buffer _ _ Hv) as (Hbuf & Hr0 & Hc0).
  destruct (valid_inv _ _ Hv) as (Hw & Hh & _).
  set (still := still_frame (chess_base c) (heap w)) in *.
  destruct (Chess_render_paint c (length (heap w))
              (World (heap w ++ [still]) (rng w) (stdout w)) still Hfour)
    as (rv & tv & Hrv & Htv & Hrender).
  { cbn [heap]. apply list_lookup_middle. reflexivity. }
  exists rv, tv. split; [exact Hrv|]. split; [exact Htv|]. cbv zeta.
  set (picture := paint E (10, 10, 10) _ _) in *.
  assert (Hshape : rows picture = rows still /\ cols picture = cols still).
  { subst picture.
    destruct (paint_shape E (10, 10, 10)
                (map (map (fun p => cv_projectPoint E p rv tv (K c)
                                      (dist_coef c))) (black_quads c))
                (paint E (245, 245, 245) still
                   (map (map (fun p => cv_projectPoint E p rv tv (K c)
                                         (dist_coef c))) (white_quads c))))
      as (Hr & Hc).
    destruct (paint_shape E (245, 245, 245)
                (map (map (fun p => cv_projectPoint E p rv tv (K c)
                                      (dist_coef c))) (white_quads c)) still)
      as (Hr' & Hc').
    split; congruence. }
  cbn [heap rng stdout] in Hrender.
  replace (<[length (heap w) := picture]> (heap w ++ [still]))
    with (heap w ++ [picture]) in Hrender.
  2:{ rewrite <- (Nat.add_0_r (length (heap w))) at 1.
      rewrite insert_app_r. reflexivity. }
  destruct (Chess_next_fields E c) as (Hbase & _).
  assert (Hread : read E (Chess_obj c) w
            = if Rlt_dec 0 (noise (chess_base c))
              then
                Ok (true, S (length (heap w)), Chess_obj (Chess_next E c),
                    World
                      (heap w
                       ++ [picture;
                           Image (rows picture) (cols picture)
                             (add_samples (data picture)
                                (map saturate_i8
                                   (fst (cv_randn E (rng w)
                                           (snd (frame_size (chess_base c)))
                                           (fst (frame_size (chess_base c)))
                                           (255 * noise (chess_base c))))))])
                      (snd (cv_randn E (rng w)
                              (snd (frame_size (chess_base c)))
                              (fst (frame_size (chess_base c)))
                              (255 * noise (chess_base c))))
                      (stdout w))
              else
                Ok (true, length (heap w), Chess_obj (Chess_next E c),
                    World (heap w ++ [picture]) (rng w) (stdout w))).
  { unfold read, VideoSynthBase_read.
    destruct (frame_size (chess_base c)) as [fw fh]. cbn [fst snd] in *.
    unfold bind at 1. unfold bind at 1. rewrite Hbuf.
    unfold bind at 1. rewrite Hrender. rewrite Hbase.
    destruct (Rlt_dec 0 (noise (chess_base c))) as [Hpos|Hzero];
      [|reflexivity].
    unfold randn_noise. rewrite nonneg_dims_accepted by assumption.
    unfold bind at 1. cbn [rng heap stdout].
    destruct (cv_randn E (rng w) fh fw (255 * noise (chess_base c)))
      as [samples g].
    unfold bind at 1, load at 1. cbn [heap].
    rewrite list_lookup_middle by reflexivity.
    unfold bind, cv_add. cbn [rows cols].
    replace ((rows picture =? Z.to_N fh)%N && (cols picture =? Z.to_N fw)%N)
      with true
      by (symmetry; apply andb_true_iff; split; apply N.eqb_eq; lia).
    unfold alloc, ret. cbn [heap rng stdout fst snd].
    rewrite length_app, <- app_assoc. cbn [length app].
    rewrite Nat.add_1_r. reflexivity. }
  split; [|split; [|exact Hshape]].
  - intros Hzero. rewrite Hread.
    destruct (Rlt_dec 0 (noise (chess_base c))); [contradiction|reflexivity].
  - intros Hpos. rewrite Hread.
    destruct (Rlt_dec 0 (noise (chess_base c))); [reflexivity|contradiction].
Qed.

End Chess_frames.

(** ** The camera path *)

Lemma sin_cos_square (x : R) : (sin x * sin x + cos x * cos x = 1)%R.
Proof. pose proof (sin2_cos2 x) as H. unfold Rsqr in H. exact H. Qed.

(** The elevation stays between 37.5 and 82.5 degrees. *)
Lemma elevation_range (time : R) :
  (5 * PI / 24 <= PI / 3 + sin (time * 3) * PI / 8 <= 11 * PI / 24)%R.
Proof.
  pose proof (SIN_bound (time * 3)) as [Hlo Hhi]. pose proof PI_RGT_0 as Hpi.
  split; nra.
Qed.

Lemma elevation_sin_cos (phi : R) :
  (5 * PI / 24 <= phi <= 11 * PI / 24)%R ->
  (1 / 2 < sin phi)%R /\ (0 < cos phi)%R.
Proof.
  intros [Hlo Hhi]. pose proof PI_RGT_0 as Hpi. split.
  - rewrite <- sin_PI6. apply sin_increasing_1; lra.
  - apply cos_gt_0; lra.
Qed.

(** X12. The camera of the Chess generator, at any time and for any
    board (floats read as reals): the elevation stays between 37.5 and
    82.5 degrees; the target lies in the plane of the board, within a
    fifth of the board's width of the centre in both directions; the
    eye is at distance 15 from the target, more than 7.5 above the
    board and never straight above the target, so [lookat] is never
    asked for a degenerate view. *)
Theorem camera_orbit sx sy (time : R) :
  exists phi ex ey ez tx ty tz,
    Chess_camera (sx, sy) time = (phi, (ex, ey, ez), (tx, ty, tz))
    /\ (5 * PI / 24 <= phi <= 11 * PI / 24)%R
    /\ tz = 0%R
    /\ ((ex - tx) * (ex - tx) + (ey - ty) * (ey - ty)
        + (ez - tz) * (ez - tz) = 15 * 15)%R
    /\ (15 / 2 < ez <= 15)%R
    /\ (0 < (ex - tx) * (ex - tx) + (ey - ty) * (ey - ty))%R
    /\ (Rabs (tx - 0.5 * IZR sx) <= 0.2 * Rabs (IZR sx))%R
    /\ (Rabs (ty - 0.5 * IZR sy) <= 0.2 * Rabs (IZR sx))%R.
Proof.
  unfold Chess_camera, vadd, vscale.
  set (phi := (PI / 3 + sin (time * 3) * PI / 8)%R).
  pose proof (elevation_range time) as Hphi. fold phi in Hphi.
  destruct (elevation_sin_cos phi Hphi) as (Hsin & Hcos).
  pose proof (sin_cos_square phi) as Hunit.
  pose proof (sin_cos_square time) as Hunit_t.
  pose proof (SIN_bound phi) as [_ Hs1].
  eexists phi, _, _, _, _, _, _. split; [reflexivity|].
  split; [exact Hphi|]. split; [ring|].
  set (s := sin phi) in *. set (c := cos phi) in *.
  set (st := sin time) in *. set (ct := cos time) in *.
  assert (Hflat : forall a b : R,
            ((a + ct * c * 15 + b - (a + b)) * (a + ct * c * 15 + b - (a + b))
             = 225 * (c * c) * (ct * ct))%R) by (intros; ring).
  split; [|split; [|split; [|split]]].
  - replace (_ + _ + _)%R
      with (225 * ((c * c) * (st * st + ct * ct) + s * s))%R by ring.
    rewrite Hunit_t.
    replace (c * c * 1 + s * s)%R with (s * s + c * c)%R by ring.
    rewrite Hunit. ring.
  - lra.
  - replace (_ + _)%R with (225 * (c * c) * (st * st + ct * ct))%R by ring.
    rewrite Hunit_t. nra.
  - replace (0.5 * IZR sx + sin (1.2 * time) * IZR sx * 0.2 - 0.5 * IZR sx)%R
      with (0.2 * (sin (1.2 * time) * IZR sx))%R by ring.
    rewrite Rabs_mult, (Rabs_right 0.2) by lra. rewrite Rabs_mult.
    pose proof (SIN_bound (1.2 * time)) as Hb.
    assert (Rabs (sin (1.2 * time)) <= 1)%R
      by (apply Rabs_le; lra).
    pose proof (Rabs_pos (IZR sx)). nra.
  - replace (0.5 * IZR sy + cos (1.8 * time) * IZR sx * 0.2 - 0.5 * IZR sy)%R
      with (0.2 * (cos (1.8 * time) * IZR sx))%R by ring.
    rewrite Rabs_mult, (Rabs_right 0.2) by lra. rewrite Rabs_mult.
    pose proof (COS_bound (1.8 * time)) as Hb.
    assert (Rabs (cos (1.8 * time)) <= 1)%R
      by (apply Rabs_le; lra).
    pose proof (Rabs_pos (IZR sx)). nra.
Qed.

(** ** The names of the screenshots *)

Lemma append_inj_l (p a b : string) :
  (p ++ a)%string = (p ++ b)%string -> a = b.
Proof. induction p as [|c r IH]; simpl; [auto|]. intros [= H]. auto. Qed.

(** Two texts that agree after a separator which neither has before it. *)
Lemma append_sep_inj sep (a : string) : forall a' r r',
  Py.all_chars (fun c => negb (Ascii.eqb c sep)) a = true ->
  Py.all_chars (fun c => negb (Ascii.eqb c sep)) a' = true ->
  (a ++ String sep r)%string = (a' ++ String sep r')%string ->
  a = a' /\ r = r'.
Proof.
  induction a as [|c s IH]; intros a' r r' Ha Ha' Heq.
  - destruct a' as [|c' s']; simpl in Heq.
    + injection Heq as ->. auto.
    + injection Heq as <- _. cbn [Py.all_chars] in Ha'.
      rewrite Ascii.eqb_refl in Ha'. discriminate.
  - destruct a' as [|c' s']; simpl in Heq.
    + injection Heq as -> _. cbn [Py.all_chars] in Ha.
      rewrite Ascii.eqb_refl in Ha. discriminate.
    + injection Heq as <- Heq. cbn [Py.all_chars] in Ha, Ha'.
      apply andb_prop in Ha as [_ Ha]. apply andb_prop in Ha' as [_ Ha'].
      destruct (IH _ _ _ Ha Ha' Heq) as [-> ->]. auto.
Qed.

Lemma int_digits_zeros n : forall s b,
  Py.int_digits
    (String.string_of_list_ascii (List.repeat "0"%char n) ++ s)%string 0 b
  = Py.int_digits s 0 (match n with O => b | S _ => true end).
Proof.
  induction n as [|n IH]; intros s b; [reflexivity|].
  cbn [List.repeat String.string_of_list_ascii]. rewrite append_cons.
  cbn [Py.int_digits]. replace (Py.digit "0") with (Some 0) by reflexivity.
  change (10 * 0 + 0) with 0. rewrite IH. destruct n; reflexivity.
Qed.

Lemma zeros_chars n :
  Py.all_chars Py.is_digit
    (String.string_of_list_ascii (List.repeat "0"%char n)) = true.
Proof. induction n as [|n IH]; [reflexivity|]. cbn. exact IH. Qed.

(** The counter of a screenshot name reads back as the counter. *)
Lemma pad3_parse k :
  0 <= k ->
  Py.int_digits (Py.pad3 k) 0 false = Some k
  /\ Py.all_chars Py.is_digit (Py.pad3 k) = true.
Proof.
  intros Hk. unfold Py.pad3.
  replace (k <? 0) with false by (symmetry; apply Z.ltb_ge; assumption).
  rewrite Z.abs_eq by assumption. rewrite append_nil_l. split.
  - rewrite int_digits_zeros.
    destruct (str_nonneg_chars k Hk) as (_ & c & r & Hs).
    destruct (3 - String.length "" - String.length (Py.str_nonneg k))%nat;
      apply int_digits_str_nonneg; assumption.
  - rewrite all_chars_app, zeros_chars.
    apply (str_nonneg_chars k Hk).
Qed.

Lemma str_index_parse i :
  0 <= i ->
  Py.int_digits (Py.str i) 0 false = Some i
  /\ Py.all_chars Py.is_digit (Py.str i) = true.
Proof.
  intros Hi. unfold Py.str.
  replace (i <? 0) with false by (symmetry; apply Z.ltb_ge; assumption).
  split; [apply int_digits_str_nonneg; assumption|].
  apply (str_nonneg_chars i Hi).
Qed.

Lemma digits_without sep s :
  Py.is_digit sep = false ->
  Py.all_chars Py.is_digit s = true ->
  Py.all_chars (fun c => negb (Ascii.eqb c sep)) s = true.
Proof.
  intros Hsep. apply all_chars_impl. intros c Hc. apply negb_true_iff.
  destruct (Ascii.eqb_spec c sep) as [->|]; [congruence|reflexivity].
Qed.

(** A screenshot name tells the source and the counter. *)
Lemma shot_name_inj shotdir i k i' k' :
  0 <= i -> 0 <= k -> 0 <= i' -> 0 <= k' ->
  shot_name shotdir i k = shot_name shotdir i' k' -> i = i' /\ k = k'.
Proof.
  intros Hi Hk Hi' Hk' Heq. unfold shot_name in Heq.
  apply append_inj_l in Heq. apply (append_inj_l "/shot_") in Heq.
  destruct (str_index_parse i Hi) as (Hpi & Hci).
  destruct (str_index_parse i' Hi') as (Hpi' & Hci').
  destruct (pad3_parse k Hk) as (Hpk & Hck).
  destruct (pad3_parse k' Hk') as (Hpk' & Hck').
  apply (append_sep_inj "_") in Heq as (Hsi & Heq);
    [|apply digits_without; [reflexivity|assumption]..].
  apply (append_sep_inj ".") in Heq as (Hsk & _);
    [|apply digits_without; [reflexivity|assumption]..].
  split; congruence.
Qed.

(** ** The script *)

Lemma written_paths_app evs1 evs2 :
  written_paths (evs1 ++ evs2) = written_paths evs1 ++ written_paths evs2.
Proof. unfold written_paths. apply flat_map_app. Qed.

Lemma flat_map_of_map {A B C} (g : A -> B) (f : B -> list C) l :
  flat_map f (map g l) = flat_map (fun x => f (g x)) l.
Proof.
  induction l as [|x rest IH]; [reflexivity|]. cbn [map flat_map].
  rewrite IH. reflexivity.
Qed.

Section Loop.

Context (E : Env) (D : Device_env).

Lemma cv_imshow_inv window img w ev w' :
  cv_imshow window img w = Ok (ev, w') ->
  exists l, img = Some l /\ ev = Shown window l /\ w' = w.
Proof.
  unfold cv_imshow. destruct img as [l|]; [|discriminate].
  unfold bind, load. destruct (heap w !! l) as [a|]; [|discriminate].
  destruct ((0 <? rows a)%N && (0 <? cols a)%N); [|discriminate].
  unfold ret. intros [= <- <-]. eauto.
Qed.

(** One round of frames: one frame and one window per source, nothing
    written. *)
Lemma show_frames_inv caps : forall i w imgs caps' shown w',
  show_frames E D i caps w = Ok (imgs, caps', shown, w') ->
  length imgs = length caps /\ length caps' = length caps
  /\ length shown = length caps /\ written_paths shown = []
  /\ Forall (fun img : option loc => img <> None) imgs
  /\ Forall (fun cap : option capture => cap <> None) caps.
Proof.
  induction caps as [|cap rest IH]; intros i w imgs caps' shown w'.
  - cbn [show_frames]. unfold ret. intros [= <- <- <- <-].
    repeat split; constructor.
  - cbn [show_frames]. unfold bind at 1.
    destruct (capture_read E D cap w) as [[[[ok img] cap1] w1]|] eqn:Hread;
      [|discriminate].
    unfold bind at 1.
    destruct (cv_imshow _ img w1) as [[ev w2]|] eqn:Hshow; [|discriminate].
    apply cv_imshow_inv in Hshow as (l & -> & -> & ->).
    unfold bind.
    destruct (show_frames E D (i + 1) rest w1) as [[[[imgs1 rest1] evs1] w3]|]
      eqn:Hrest; [|discriminate].
    unfold ret. intros [= <- <- <- <-].
    destruct (IH _ _ _ _ _ _ Hrest) as (H1 & H2 & H3 & H4 & H5 & H6).
    cbn [length]. split; [congruence|]. split; [congruence|].
    split; [congruence|]. split; [exact H4|]. split.
    + constructor; [discriminate|assumption].
    + constructor; [|assumption]. intros ->. discriminate Hread.
Qed.

Lemma save_shots_inv shotdir k imgs : forall i w saved w',
  save_shots shotdir i k imgs w = Ok (saved, w') ->
  w' = w
  /\ written_paths saved
     = map (fun n => shot_name shotdir (i + Z.of_nat n) k)
         (seq 0 (length imgs)).
Proof.
  induction imgs as [|img rest IH]; intros i w saved w'.
  - cbn [save_shots]. unfold ret. intros [= <- <-]. auto.
  - cbn [save_shots]. destruct img as [l|]; [|discriminate].
    unfold bind.
    destruct (save_shots shotdir (i + 1) k rest w) as [[evs w1]|] eqn:Hrest;
      [|discriminate].
    unfold ret. intros [= <- <-].
    destruct (IH _ _ _ _ Hrest) as (-> & Hpaths). split; [reflexivity|].
    cbn [length seq map].
    change (written_paths (Written ?p l :: Saved ?p :: evs))
      with (p :: written_paths evs).
    rewrite Hpaths, Z.add_0_r, <- seq_shift, map_map. f_equal.
    apply map_ext. intros n. f_equal. lia.
Qed.

(** The screenshots of [presses] rounds, the counter starting at [k]. *)
Lemma main_loop_inv shotdir keys : forall caps k evs w evs' caps' k' w',
  main_loop E D keys shotdir caps k evs w = Some (Ok (evs', caps', k', w')) ->
  exists pre post,
    keys = pre ++ 27 :: post /\ ~ In 27 pre
    /\ k' = k + Z.of_nat (count_occ Z.eq_dec pre 32)
    /\ length caps' = length caps
    /\ written_paths evs'
       = written_paths evs
         ++ flat_map
              (fun j => map (fun i => shot_name shotdir (Z.of_nat i)
                                        (k + Z.of_nat j))
                          (seq 0 (length caps)))
              (seq 0 (count_occ Z.eq_dec pre 32)).
Proof.
  induction keys as [|ch keys IH]; intros caps k evs w evs' caps' k' w';
    cbn [main_loop].
  - destruct (show_frames E D 0 caps w) as [[[[imgs caps1] shown] w1]|];
      discriminate.
  - destruct (show_frames E D 0 caps w) as [[[[imgs caps1] shown] w1]|]
      eqn:Hshow; [|discriminate].
    destruct (show_frames_inv _ _ _ _ _ _ _ Hshow)
      as (Himgs & Hcaps & _ & Hnone & _).
    destruct (Z.eqb_spec ch 27) as [->|Hesc].
    + intros [= <- <- <- <-]. exists [], keys.
      split; [reflexivity|]. split; [intros []|].
      cbn [count_occ seq flat_map]. rewrite written_paths_app, Hnone.
      rewrite Z.add_0_r. auto.
    + change (Z.of_N (Py.ord " ")) with 32.
      destruct (Z.eqb_spec ch 32) as [->|Hspace].
      * destruct (save_shots shotdir 0 k imgs w1) as [[saved w2]|] eqn:Hsave;
          [|discriminate].
        destruct (save_shots_inv _ _ _ _ _ _ _ Hsave) as (-> & Hsaved).
        intros Hrun.
        destruct (IH _ _ _ _ _ _ _ _ Hrun)
          as (pre & post & -> & Hno & -> & Hlen & Hpaths).
        exists (32 :: pre), post. split; [reflexivity|].
        split; [intros [H|H]; [discriminate|contradiction]|].
        cbn [count_occ]. destruct (Z.eq_dec 32 32) as [_|Hne]; [|contradiction].
        split; [lia|]. split; [congruence|].
        rewrite Hpaths, !written_paths_app, Hnone, Hsaved, Himgs, Hcaps.
        cbn [seq flat_map app]. rewrite <- app_assoc. f_equal.
        rewrite Z.add_0_r. f_equal.
        rewrite <- seq_shift, flat_map_of_map.
        apply flat_map_ext. intros j. apply map_ext. intros i.
        f_equal. lia.
      * intros Hrun.
        destruct (IH _ _ _ _ _ _ _ _ Hrun)
          as (pre & post & -> & Hno & -> & Hlen & Hpaths).
        exists (ch :: pre), post. split; [reflexivity|].
        split; [intros [H|H]; [congruence|contradiction]|].
        cbn [count_occ]. destruct (Z.eq_dec ch 32) as [He|_]; [contradiction|].
        split; [reflexivity|]. split; [congruence|].
        rewrite Hpaths, written_paths_app, Hnone, app_nil_r, Hcaps.
        reflexivity.
Qed.

End Loop.

(** Names made from different pairs of indices are different. *)
Lemma NoDup_names {A} (f : nat -> nat -> A) (sources : list nat) :
  (forall i j i' j', f i j = f i' j' -> i = i' /\ j = j') ->
  NoDup sources ->
  forall rounds, NoDup rounds ->
  NoDup (flat_map (fun j => map (fun i => f i j) sources) rounds).
Proof.
  intros Hinj Hsources rounds. induction rounds as [|j rest IH]; intros Hnd.
  - constructor.
  - apply NoDup_cons in Hnd as (Hj & Hrest). cbn [flat_map].
    apply NoDup_app. split; [|split; [|apply IH, Hrest]].
    + apply NoDup_fmap_2; [|assumption].
      intros i i' Heq. apply (Hinj _ _ _ _ Heq).
    + intros x Hx Hx'. apply list_elem_of_In in Hx, Hx'.
      apply in_map_iff in Hx as (i & <- & _).
      apply in_flat_map in Hx' as (j' & Hj' & Hx').
      apply in_map_iff in Hx' as (i' & Heq & _).
      apply Hinj in Heq as (_ & ->). apply Hj, list_elem_of_In, Hj'.
Qed.

Lemma screenshot_names_distinct shotdir n m :
  NoDup (flat_map
           (fun j => map (fun i => shot_name shotdir (Z.of_nat i) (Z.of_nat j))
                       (seq 0 n))
           (seq 0 m)).
Proof.
  apply (NoDup_names (fun i j => shot_name shotdir (Z.of_nat i) (Z.of_nat j)));
    [|apply NoDup_seq..].
  intros i j i' j' Heq. apply shot_name_inj in Heq; lia.
Qed.

Lemma length_names {A} (f : nat -> nat -> A) n m :
  length (flat_map (fun j => map (fun i => f i j) (seq 0 n)) (seq 0 m))
  = (m * n)%nat.
Proof.
  rewrite (flat_map_const_length _ n), length_seq; [reflexivity|].
  intros j. rewrite length_map, length_seq. reflexivity.
Qed.

Section Script_results.

Context (E : Env) (D : Device_env).

(** Keys after the first ESC are not looked at. *)
Lemma main_loop_after_esc shotdir post post' pre :
  forall caps k evs w,
    ~ In 27 pre ->
    main_loop E D (pre ++ 27 :: post) shotdir caps k evs w
    = main_loop E D (pre ++ 27 :: post') shotdir caps k evs w.
Proof.
  induction pre as [|ch pre IH]; intros caps k evs w Hno;
    cbn [app main_loop].
  - destruct (show_frames E D 0 caps w) as [[[[imgs caps1] shown] w1]|];
      reflexivity.
  - destruct (show_frames E D 0 caps w) as [[[[imgs caps1] shown] w1]|];
      [|reflexivity].
    assert (Hpre : ~ In 27 pre) by (intros H; apply Hno; right; exact H).
    destruct (ch =? 27); [reflexivity|].
    destruct (ch =? Z.of_N (Py.ord " ")); [|apply IH, Hpre].
    destruct (save_shots shotdir 0 k imgs w1) as [[saved w2]|];
      [apply IH, Hpre|reflexivity].
Qed.

(** X14. The screenshots of a run of the loop that ends.  The keys
    read hold an ESC, and nothing after the first one matters; the
    counter ends at the number of times SPACE came before it; the
    files written are, round by round, one for every source, named by
    the index of the source and the number of the round (from 0, three
    digits); no name is used twice in a run; no source was [None]. *)
Theorem screenshots_are_numbered shotdir keys caps w evs caps' k w' :
  main_loop E D keys shotdir caps 0 [] w = Some (Ok (evs, caps', k, w')) ->
  exists pre post,
    keys = pre ++ 27 :: post /\ ~ In 27 pre
    /\ k = Z.of_nat (count_occ Z.eq_dec pre 32)
    /\ written_paths evs
       = flat_map
           (fun j => map (fun i => shot_name shotdir (Z.of_nat i) (Z.of_nat j))
                       (seq 0 (length caps)))
           (seq 0 (count_occ Z.eq_dec pre 32))
    /\ length (written_paths evs)
       = (count_occ Z.eq_dec pre 32%Z * length caps)%nat
    /\ NoDup (written_paths evs)
    /\ Forall (fun cap : option capture => cap <> None) caps
    /\ forall post',
         main_loop E D (pre ++ 27 :: post') shotdir caps 0 [] w
         = Some (Ok (evs, caps', k, w')).
Proof.
  intros Hrun.
  destruct (main_loop_inv E D _ _ _ _ _ _ _ _ _ _ Hrun)
    as (pre & post & Hkeys & Hno & Hk & _ & Hpaths).
  exists pre, post. cbn [written_paths flat_map app] in Hpaths.
  split; [assumption|]. split; [assumption|]. split; [lia|].
  split; [exact Hpaths|]. rewrite Hpaths.
  split; [apply length_names|]. split; [apply screenshot_names_distinct|].
  split.
  - subst keys. destruct pre as [|ch pre]; cbn [app main_loop] in Hrun;
      destruct (show_frames E D 0 caps w) as [[[[imgs caps1] shown] w1]|]
        eqn:Hshow; try discriminate Hrun;
      apply (show_frames_inv E D _ _ _ _ _ _ _ Hshow).
  - intros post'. rewrite <- Hrun, Hkeys.
    apply main_loop_after_esc. assumption.
Qed.

(** A source that is missing stops the first round of frames. *)
Lemma show_frames_missing caps i w :
  In None caps -> exists e, show_frames E D i caps w = Raise e.
Proof.
  intros Hin.
  destruct (show_frames E D i caps w) as [[[[imgs caps1] shown] w1]|e]
    eqn:Hshow; [|eauto].
  destruct (show_frames_inv E D _ _ _ _ _ _ _ Hshow)
    as (_ & _ & _ & _ & _ & Hall).
  rewrite Forall_forall in Hall. apply list_elem_of_In in Hin.
  destruct (Hall _ Hin). reflexivity.
Qed.

(** X15. The script has no guard against a source that could not be
    made: when [create_capture] returned [None] for one of the
    sources, the first round of frames raises before any key is read,
    and when it is the first source (the only one, for a command line
    without sources) the exception is [AttributeError]. *)
Theorem script_needs_every_source fuel keys shotdir sources w caps w1 :
  open_all E fuel
    (match sources with
     | [] => [IntSource 0]
     | _ => map StrSource sources
     end) w = Some (Ok (caps, w1)) ->
  In None caps ->
  (exists e, main E D fuel keys shotdir sources w = Some (Raise e))
  /\ (hd_error caps = Some None ->
      main E D fuel keys shotdir sources w = Some (Raise AttributeError)).
Proof.
  intros Hopen Hin. unfold main. rewrite Hopen.
  assert (Hloop : forall e,
            show_frames E D 0 caps w1 = Raise e ->
            main_loop E D keys (default "." shotdir) caps 0 [] w1
            = Some (Raise e)).
  { intros e He. destruct keys; cbn [main_loop]; rewrite He; reflexivity. }
  split.
  - destruct (show_frames_missing caps 0 w1 Hin) as [e He].
    exists e. rewrite (Hloop _ He). reflexivity.
  - destruct caps as [|[c|] rest]; try discriminate. intros _.
    rewrite (Hloop AttributeError); reflexivity.
Qed.

(** X13. [getImg] works on a [cv.VideoCapture] only.  On anything
    else, the synthetic sources included, it raises [AttributeError]
    (they have no method [set]).  When it returns, the capture was
    positioned with property 1 at [frame], a frame was read from it,
    and the result is a new buffer with that frame halved, the frame
    itself staying in the store; when the read delivers no frame it
    raises [cv2.error], since the flag of [read] is not looked at. *)
Theorem getImg_needs_a_device cam frame w :
  ((forall v, cam <> Some (Device v)) ->
   getImg E D cam frame w = Raise AttributeError)
  /\ (forall icol cam' w',
        getImg E D cam frame w = Ok (icol, cam', w') ->
        exists v v1 v2 ok a r,
          cam = Some (Device v)
          /\ cap_set E v 1 frame = Ok v1
          /\ vc_read D v1 = Ok (ok, Some a, v2)
          /\ cv_resize_half D a = Ok r
          /\ cam' = Some (Device v2)
          /\ icol = S (length (heap w))
          /\ w' = World (heap w ++ [a; r]) (rng w) (stdout w))
  /\ (forall v v1 ok v2,
        cam = Some (Device v) ->
        cap_set E v 1 frame = Ok v1 ->
        vc_read D v1 = Ok (ok, None, v2) ->
        getImg E D cam frame w = Raise CvError).
Proof.
  split; [|split].
  - intros Hno. destruct cam as [[g|v]|]; try reflexivity.
    destruct (Hno v). reflexivity.
  - intros icol cam' w'. destruct cam as [[g|v]|]; try discriminate.
    cbn [getImg capture_read]. unfold bind at 1, lift at 1.
    destruct (cap_set E v 1 frame) as [v1|] eqn:Hset; [|discriminate].
    unfold bind at 1. unfold bind at 1, lift at 1.
    destruct (vc_read D v1) as [[[ok [a|]] v2]|] eqn:Hread; [| |discriminate].
    + unfold bind at 1, alloc at 1, ret at 1.
      unfold bind at 1, load at 1. cbn [heap].
      rewrite list_lookup_middle by reflexivity.
      unfold bind at 1, lift at 1.
      destruct (cv_resize_half D a) as [r|] eqn:Hhalf; [|discriminate].
      unfold bind, alloc, ret. cbn [heap rng stdout].
      intros [= <- <- <-]. exists v, v1, v2, ok, a, r.
      rewrite length_app, <- app_assoc. cbn [length app].
      rewrite Nat.add_1_r. auto 10.
    + unfold ret, raise. discriminate.
  - intros v v1 ok v2 -> Hset Hread. cbn [getImg capture_read].
    unfold bind, lift. rewrite Hset, Hread. reflexivity.
Qed.

End Script_results.

Section Steady_sources.

Context (E : Env) (D : Device_env).

Lemma steady_inv hp cap :
  steady hp cap = true ->
  exists g, cap = Some (Synth g) /\ inherits_read g = true
            /\ valid (base_of g) hp = true
            /\ 0 < fst (frame_size (base_of g))
            /\ 0 < snd (frame_size (base_of g)).
Proof.
  destruct cap as [[g|v]|]; try discriminate. cbn [steady]. intros H.
  apply andb_prop in H as [H Hh]. apply andb_prop in H as [H Hw].
  apply andb_prop in H as [Hi Hv]. apply Z.ltb_lt in Hh, Hw. eauto 10.
Qed.

Lemma steady_grows hp extra cap :
  steady hp cap = true -> steady (hp ++ extra) cap = true.
Proof.
  intros H. destruct (steady_inv _ _ H) as (g & -> & Hi & Hv & Hw & Hh).
  cbn [steady]. rewrite Hi, (valid_grows _ _ extra Hv). cbn [andb].
  apply andb_true_iff. split; apply Z.ltb_lt; assumption.
Qed.

(** One frame of a steady source: shown in its window, the source
    steady afterwards. *)
Lemma capture_read_steady cap window w :
  steady (heap w) cap = true ->
  exists frame cap' extra rg,
    capture_read E D cap w
    = Ok (true, Some frame, cap', World (heap w ++ extra) rg (stdout w))
    /\ cv_imshow window (Some frame) (World (heap w ++ extra) rg (stdout w))
       = Ok (Shown window frame, World (heap w ++ extra) rg (stdout w))
    /\ steady (heap w ++ extra) cap' = true.
Proof.
  intros H. destruct (steady_inv _ _ H) as (g & -> & Hi & Hv & Hw & Hh).
  destruct (read_total E g w Hi Hv)
    as (frame & extra & rg & a & Hread & _ & Hl & Hc & Hr).
  exists frame, (Some (Synth (after_read E g))), extra, rg.
  split; [|split].
  - cbn [capture_read]. unfold bind. rewrite Hread. reflexivity.
  - unfold cv_imshow, bind, load. cbn [heap]. rewrite Hl.
    replace ((0 <? rows a)%N && (0 <? cols a)%N) with true; [reflexivity|].
    symmetry. apply andb_true_iff. split; apply N.ltb_lt; lia.
  - cbn [steady].
    rewrite inherits_after_read, base_of_after_read, Hi,
      (valid_grows _ _ extra Hv).
    cbn [andb]. apply andb_true_iff. split; apply Z.ltb_lt; assumption.
Qed.

Lemma show_frames_steady caps : forall i w,
  Forall (fun cap => steady (heap w) cap = true) caps ->
  exists imgs caps' shown extra rg,
    show_frames E D i caps w
    = Ok (imgs, caps', shown, World (heap w ++ extra) rg (stdout w))
    /\ Forall (fun cap => steady (heap w ++ extra) cap = true) caps'
    /\ Forall (fun img : option loc => img <> None) imgs
    /\ shown_windows shown
       = map (fun n => ("capture " ++ Py.str (i + Z.of_nat n))%string)
           (seq 0 (length caps)).
Proof.
  induction caps as [|cap rest IH]; intros i w Hall.
  - exists [], [], [], [], (rng w). cbn [show_frames]. unfold ret.
    rewrite app_nil_r. destruct w. repeat split; constructor.
  - inversion Hall as [|? ? Hcap Hrest]; subst.
    destruct (capture_read_steady cap ("capture " ++ Py.str i) w Hcap)
      as (frame & cap' & extra1 & rg1 & Hread & Hshow & Hsteady).
    destruct (IH (i + 1) (World (heap w ++ extra1) rg1 (stdout w)))
      as (imgs & caps' & shown & extra2 & rg2 & Hrun & Hall' & Himgs & Hwin).
    { cbn [heap]. eapply Forall_impl; [exact Hrest|].
      intros c Hc. apply steady_grows, Hc. }
    cbn [heap stdout] in Hrun, Hall'.
    exists (Some frame :: imgs), (cap' :: caps'),
      (Shown ("capture " ++ Py.str i) frame :: shown), (extra1 ++ extra2), rg2.
    cbn [show_frames]. unfold bind at 1. rewrite Hread.
    unfold bind at 1. rewrite Hshow. unfold bind. rewrite Hrun. unfold ret.
    rewrite app_assoc. split; [reflexivity|]. split; [|split].
    + constructor; [|assumption]. apply steady_grows, Hsteady.
    + constructor; [discriminate|assumption].
    + cbn [length seq map]. change (shown_windows (Shown ?x frame :: shown))
        with (x :: shown_windows shown).
      rewrite Hwin, Z.add_0_r, <- seq_shift, map_map. f_equal.
      apply map_ext. intros n. do 2 f_equal. lia.
Qed.

Lemma save_shots_total shotdir k imgs : forall i w,
  Forall (fun img : option loc => img <> None) imgs ->
  exists saved, save_shots shotdir i k imgs w = Ok (saved, w).
Proof.
  induction imgs as [|img rest IH]; intros i w Hall; cbn [save_shots].
  - unfold ret. eauto.
  - inversion Hall as [|? ? Himg Hrest]; subst.
    destruct img as [l|]; [|contradiction].
    destruct (IH (i + 1) w Hrest) as [saved Hsaved].
    unfold bind. rewrite Hsaved. unfold ret. eauto.
Qed.

(** The loop on steady sources runs until ESC. *)
Lemma main_loop_steady shotdir post pre : forall caps k evs w,
  ~ In 27 pre ->
  Forall (fun cap => steady (heap w) cap = true) caps ->
  exists evs' caps' extra rg,
    main_loop E D (pre ++ 27 :: post) shotdir caps k evs w
    = Some (Ok (evs', caps', k + Z.of_nat (count_occ Z.eq_dec pre 32),
                World (heap w ++ extra) rg (stdout w)))
    /\ Forall (fun cap => steady (heap w ++ extra) cap = true) caps'
    /\ length (shown_windows evs')
       = (length (shown_windows evs) + S (length pre) * length caps)%nat.
Proof.
  induction pre as [|ch pre IH]; intros caps k evs w Hno Hall;
    destruct (show_frames_steady caps 0 w Hall)
      as (imgs & caps1 & shown & extra1 & rg1 & Hshow & Hall1 & Himgs & Hwin);
    cbn [app main_loop]; rewrite Hshow.
  - change (27 =? 27) with true. cbv iota.
    exists (evs ++ shown), caps1, extra1, rg1. cbn [count_occ].
    rewrite Z.add_0_r. split; [reflexivity|]. split; [assumption|].
    unfold shown_windows in *. rewrite flat_map_app, length_app, Hwin.
    rewrite length_map, length_seq. simpl. lia.
  - assert (Hpre : ~ In 27 pre) by (intros H; apply Hno; right; exact H).
    assert (Hch : ch <> 27) by (intros ->; apply Hno; left; reflexivity).
    apply Z.eqb_neq in Hch. rewrite Hch.
    change (Z.of_N (Py.ord " ")) with 32.
    assert (Hlen : length (shown_windows shown) = length caps).
    { rewrite Hwin, length_map, length_seq. reflexivity. }
    assert (Hcaps1 : length caps1 = length caps).
    { apply (show_frames_inv E D _ _ _ _ _ _ _ Hshow). }
    destruct (Z.eqb_spec ch 32) as [->|Hspace].
    + destruct (save_shots_total shotdir k imgs 0
                  (World (heap w ++ extra1) rg1 (stdout w)) Himgs)
        as [saved Hsaved].
      rewrite Hsaved.
      destruct (IH caps1 (k + 1) (evs ++ shown ++ saved)
                  (World (heap w ++ extra1) rg1 (stdout w)) Hpre Hall1)
        as (evs' & caps' & extra2 & rg2 & Hrun & Hall' & Hcount).
      cbn [heap stdout] in Hrun, Hall'. rewrite <- app_assoc in Hrun, Hall'.
      exists evs', caps', (extra1 ++ extra2), rg2. rewrite Hrun.
      cbn [count_occ]. destruct (Z.eq_dec 32 32) as [_|Hne]; [|contradiction].
      split; [do 4 f_equal; lia|]. split; [assumption|].
      rewrite Hcount. unfold shown_windows in *.
      rewrite !flat_map_app, !length_app, Hlen, Hcaps1.
      assert (Hsaved0 : length (flat_map
                (fun e => match e with Shown window _ => [window] | _ => [] end)
                saved) = 0%nat).
      { clear -Hsaved. revert Hsaved. generalize 0 at 1.
        revert saved. induction imgs as [|img rest IHi]; intros saved i.
        - cbn [save_shots]. unfold ret. intros [= <-]. reflexivity.
        - cbn [save_shots]. destruct img as [l|]; [|discriminate].
          unfold bind.
          destruct (save_shots shotdir (i + 1) k rest _) as [[evs0 w0]|] eqn:Hr;
            [|discriminate].
          unfold ret. intros [= <-]. cbn [flat_map app].
          destruct (save_shots_inv _ _ _ _ _ _ _ Hr) as (-> & _).
          apply (IHi _ _ Hr). }
      rewrite Hsaved0. simpl. lia.
    + destruct (IH caps1 k (evs ++ shown)
                  (World (heap w ++ extra1) rg1 (stdout w)) Hpre Hall1)
        as (evs' & caps' & extra2 & rg2 & Hrun & Hall' & Hcount).
      cbn [heap stdout] in Hrun, Hall'. rewrite <- app_assoc in Hrun, Hall'.
      exists evs', caps', (extra1 ++ extra2), rg2. rewrite Hrun.
      cbn [count_occ]. destruct (Z.eq_dec ch 32) as [He|_]; [contradiction|].
      split; [reflexivity|]. split; [assumption|].
      rewrite Hcount. unfold shown_windows in *.
      rewrite !flat_map_app, !length_app, Hlen, Hcaps1. simpl. lia.
Qed.

End Steady_sources.

Section Loop_runs.

Context (E : Env) (D : Device_env).

(** Without ESC the loop on steady sources is still running when the
    keys are used up. *)
Lemma main_loop_running shotdir pre : forall caps k evs w,
  ~ In 27 pre ->
  Forall (fun cap => steady (heap w) cap = true) caps ->
  main_loop E D pre shotdir caps k evs w = None.
Proof.
  induction pre as [|ch pre IH]; intros caps k evs w Hno Hall;
    destruct (show_frames_steady E D caps 0 w Hall)
      as (imgs & caps1 & shown & extra1 & rg1 & Hshow & Hall1 & Himgs & _);
    cbn [main_loop]; rewrite Hshow; [reflexivity|].
  assert (Hpre : ~ In 27 pre) by (intros H; apply Hno; right; exact H).
  assert (Hch : ch <> 27) by (intros ->; apply Hno; left; reflexivity).
  apply Z.eqb_neq in Hch. rewrite Hch.
  destruct (ch =? Z.of_N (Py.ord " ")).
  - destruct (save_shots_total shotdir k imgs 0
                (World (heap w ++ extra1) rg1 (stdout w)) Himgs)
      as [saved Hsaved].
    rewrite Hsaved. apply IH; assumption.
  - apply IH; assumption.
Qed.

(** X16. On synthetic sources of the base class or Chess whose
    frames are not empty, the loop never fails: while no ESC comes it
    keeps running, and at the first ESC it ends, having shown one
    frame of every source in every round (the last included), with the
    counter at the number of SPACE keys, the sources as good as
    before, and nothing printed by the sources. *)
Theorem script_runs_until_esc shotdir pre post caps w :
  ~ In 27 pre ->
  Forall (fun cap => steady (heap w) cap = true) caps ->
  main_loop E D pre shotdir caps 0 [] w = None
  /\ exists evs caps' w',
       main_loop E D (pre ++ 27 :: post) shotdir caps 0 [] w
       = Some (Ok (evs, caps', Z.of_nat (count_occ Z.eq_dec pre 32), w'))
       /\ Forall (fun cap => steady (heap w') cap = true) caps'
       /\ length (shown_windows evs) = (S (length pre) * length caps)%nat
       /\ stdout w' = stdout w.
Proof.
  intros Hno Hall. split; [apply main_loop_running; assumption|].
  destruct (main_loop_steady E D shotdir post pre caps 0 [] w Hno Hall)
    as (evs & caps' & extra & rg & Hrun & Hall' & Hcount).
  eexists _, _, _. split; [exact Hrun|]. split; [exact Hall'|].
  split; [exact Hcount|reflexivity].
Qed.

End Loop_runs.



(** ** The further properties in the sample environment *)

Lemma repeated_parameter_last_wins_witness :
  exists params,
    parse_descriptor "synth:noise=0.1:size=3x4:noise=0.5"
    = Ok (SrcStr "synth", params)
    /\ params !! "noise" = Some "0.5" /\ params !! "bg" = None.
Proof.
  eexists. split; [reflexivity|]. split.
  - eapply (proj1 (repeated_parameter_last_wins
                     "synth:noise=0.1:size=3x4:noise=0.5" _ _ "noise" eq_refl))
      with (before := ["noise=0.1"; "size=3x4"]) (tok := "noise=0.5")
           (after := []).
    + reflexivity.
    + reflexivity.
    + constructor.
  - apply (proj2 (repeated_parameter_last_wins
                    "synth:noise=0.1:size=3x4:noise=0.5" _ _ "bg" eq_refl)).
    repeat constructor; discriminate.
Defined.

Lemma malformed_size_escapes_for_devices_witness :
  parse_descriptor "0:size=big"
  = Ok (SrcInt 0, <["size" := "big"]> ∅)
  /\ parse_size "big" = Raise ValueError
  /\ exists e,
       create_capture sample_env 1 "0:size=big" (Some "synth:bg=bg.png")
         empty_world = Some (Raise e)
       /\ (forall v, cv_VideoCapture sample_env (SrcInt 0) = Ok v ->
           e = ValueError).
Proof.
  split; [reflexivity|]. split; [reflexivity|].
  apply (proj1 (malformed_size_escapes_for_devices sample_env "0:size=big"
                  (SrcInt 0) (<["size" := "big"]> ∅) "big" ValueError 0
                  (Some "synth:bg=bg.png") empty_world
                  eq_refl eq_refl eq_refl)).
  discriminate.
Defined.

Lemma create_capture_result_witness :
  exists g w',
    create_capture sample_env 1 "synth:bg=bg.png" None empty_world
    = Some (Ok (Some (Synth g), w'))
    /\ rng w' = 0%N /\ stdout w' = []
    /\ valid (base_of g) (heap w') = true
    /\ exists results g' w'',
         reads sample_env 2 g w' = Ok (results, g', w'')
         /\ length results = 2%nat.
Proof.
  eexists _, _. split; [reflexivity|].
  destruct (create_capture_result sample_env 1 "synth:bg=bg.png" None
              empty_world _ _ eq_refl)
    as (Hrng & _ & _ & Hsynth).
  destruct (Hsynth _ eq_refl) as (_ & Hv & _ & _ & _ & Hreads).
  split; [exact Hrng|]. split; [reflexivity|]. split; [exact Hv|].
  destruct (Hreads eq_refl 2%nat) as (results & g' & w'' & Hrun & Hlen & _).
  eauto.
Defined.

Lemma default_fallback_outcome_witness :
  create_capture sample_env 2 "0" default_fallback empty_world
  = Some (Ok (None,
              World [] 0 [Warning_unable_to_open (SrcInt 0);
                          Warning_unable_to_open (SrcStr "synth")])).
Proof.
  apply (proj1 (default_fallback_outcome sample_env "0" empty_world
                  (SrcInt 0)
                  (Some (Device {| vc_handle := 0; vc_isOpened := false |}))
                  empty_world 0 eq_refl eq_refl)).
  left. reflexivity.
Defined.

Lemma base_read_noise_witness :
  read sample_env
    (Base_obj {| bg := Some 0%nat; frame_size := (3, 2); noise := (1 / 10)%R |})
    sample_world
  = Ok (true, 2%nat,
        Base_obj {| bg := Some 0%nat; frame_size := (3, 2);
                    noise := (1 / 10)%R |},
        World [Image 2 3 (repeat 7 18); Image 2 3 (repeat 7 18);
               Image 2 3 (repeat 7 18)] 1 []).
Proof.
  apply (proj1 (base_read_noise sample_env
                  {| bg := Some 0%nat; frame_size := (3, 2);
                     noise := (1 / 10)%R |}
                  sample_world eq_refl)).
  cbn [noise]. lra.
Defined.

Lemma scene_frames_ignore_background_witness :
  match Scene_read sample_env
          {| scene_base := sample_base;
             scene_render := {| sceneBg := Image 1 2 (repeat 9 6);
                                scene_state := 0 |} |} sample_world,
        Scene_read sample_env
          {| scene_base := {| bg := None; frame_size := (640, 480);
                              noise := 0%R |};
             scene_render := {| sceneBg := Image 1 2 (repeat 9 6);
                                scene_state := 0 |} |} sample_world with
  | Ok (ok1, frame1, s1, w1), Ok (ok2, frame2, s2, w2) =>
      ok1 = ok2 /\ frame1 = frame2 /\ w1 = w2
      /\ scene_render s1 = scene_render s2
      /\ scene_base s1 = sample_base
      /\ scene_base s2
         = {| bg := None; frame_size := (640, 480); noise := 0%R |}
      /\ exists a, heap w1 !! frame1 = Some a
           /\ rows a = 1%N /\ cols a = 2%N
  | Raise e1, Raise e2 => e1 = e2
  | _, _ => False
  end.
Proof.
  exact (scene_frames_ignore_background sample_env sample_base
           {| bg := None; frame_size := (640, 480); noise := 0%R |}
           {| sceneBg := Image 1 2 (repeat 9 6); scene_state := 0 |}
           sample_world eq_refl).
Defined.

Lemma render_paints_every_square_witness :
  exists board picture,
    (white_quads board, black_quads board) = chess_quads 2 1
    /\ Chess_render sample_env board 0%nat sample_world
       = Ok (Chess_next sample_env board,
             World (<[0%nat := picture]> (heap sample_world)) 0 [])
    /\ rows picture = 2%N /\ cols picture = 3%N.
Proof.
  set (board := {| chess_base := sample_base; grid_size := (2, 1);
                   white_quads := fst (chess_quads 2 1);
                   black_quads := snd (chess_quads 2 1);
                   K := []; dist_coef := []; t := 0%R;
                   rvec := None; tvec := None |}).
  destruct (render_paints_every_square sample_env board 2 1 0%nat sample_world
              (Image 2 3 (repeat 7 18)) eq_refl eq_refl)
    as (rv & tv & _ & _ & Hrun & _ & _ & Hr & Hc).
  exists board. eexists. split; [reflexivity|].
  split; [exact Hrun|]. split; [exact Hr|exact Hc].
Defined.

Lemma screenshots_are_numbered_witness :
  exists evs caps' w',
    main_loop sample_env sample_device [32; 97; 32; 27] "."
      [Some (Device {| vc_handle := 0; vc_isOpened := true |})] 0 []
      empty_world
    = Some (Ok (evs, caps', 2, w'))
    /\ written_paths evs = ["./shot_0_000.bmp"; "./shot_0_001.bmp"]
    /\ NoDup (written_paths evs).
Proof.
  eexists _, _, _. split; [reflexivity|].
  destruct (screenshots_are_numbered sample_env sample_device "."
              [32; 97; 32; 27]
              [Some (Device {| vc_handle := 0; vc_isOpened := true |})]
              empty_world _ _ _ _ eq_refl)
    as (pre & post & _ & _ & _ & _ & _ & Hnd & _).
  split; [reflexivity|exact Hnd].
Defined.

Lemma script_needs_every_source_witness :
  open_all sample_env 2 [IntSource 0] empty_world
  = Some (Ok ([None],
              World [] 0 [Warning_unable_to_open (SrcInt 0);
                          Warning_unable_to_open (SrcStr "synth")]))
  /\ main sample_env sample_device 2 [32; 27] None [] empty_world
     = Some (Raise AttributeError).
Proof.
  split; [reflexivity|].
  apply (proj2 (script_needs_every_source sample_env sample_device 2 [32; 27]
                  None [] empty_world [None] _ eq_refl
                  (or_introl eq_refl))).
  reflexivity.
Defined.

Lemma script_runs_until_esc_witness :
  main_loop sample_env sample_device [32; 0] "."
    [Some (Synth (Base_obj sample_base))] 0 [] sample_world = None
  /\ exists evs caps' w',
       main_loop sample_env sample_device [32; 0; 27; 5] "."
         [Some (Synth (Base_obj sample_base))] 0 [] sample_world
       = Some (Ok (evs, caps', 1, w'))
       /\ length (shown_windows evs) = 3%nat.
Proof.
  destruct (script_runs_until_esc sample_env sample_device "." [32; 0] [5]
              [Some (Synth (Base_obj sample_base))] sample_world)
    as (Hnone & evs & caps' & w' & Hrun & _ & Hlen & _).
  - intros [H|[H|[]]]; discriminate H.
  - repeat constructor.
  - split; [exact Hnone|]. exists evs, caps', w'.
    split; [exact Hrun|exact Hlen].
Defined.

Lemma blanks_around_descriptor_witness :
  create_capture sample_env 1 "  synth:bg=bg.png " None empty_world
  = create_capture sample_env 1 "synth:bg=bg.png" None empty_world.
Proof.
  apply (proj2 (blanks_around_descriptor sample_env 1 "  " "synth:bg=bg.png"
                  " " None empty_world eq_refl eq_refl)).
Defined.

Lemma getImg_needs_a_device_witness :
  getImg sample_env sample_device (Some (Synth (Base_obj sample_base))) 5
    sample_world = Raise AttributeError
  /\ exists w',
       getImg sample_env sample_device
         (Some (Device {| vc_handle := 0; vc_isOpened := true |})) 5
         empty_world
       = Ok (1%nat, Some (Device {| vc_handle := 0; vc_isOpened := true |}),
             w')
       /\ heap w' = [Image 1 1 [0; 0; 0]; Image 1 1 [0; 0; 0]].
Proof.
  split.
  - apply (proj1 (getImg_needs_a_device sample_env sample_device
                    (Some (Synth (Base_obj sample_base))) 5 sample_world)).
    intros v. discriminate.
  - eexists. split; reflexivity.
Defined.

Lemma chess_read_paints_a_copy_witness :
  exists board picture,
    (white_quads board, black_quads board) = chess_quads 2 1
    /\ read sample_env (Chess_obj board) sample_world
       = Ok (true, 1%nat, Chess_obj (Chess_next sample_env board),
             World (heap sample_world ++ [picture]) 0 [])
    /\ rows picture = 2%N /\ cols picture = 3%N.
Proof.
  set (board := {| chess_base := sample_base; grid_size := (2, 1);
                   white_quads := fst (chess_quads 2 1);
                   black_quads := snd (chess_quads 2 1);
                   K := []; dist_coef := []; t := 0%R;
                   rvec := None; tvec := None |}).
  destruct (chess_read_paints_a_copy sample_env board 2 1 sample_world
              eq_refl eq_refl)
    as (rv & tv & _ & _ & Hstill & _ & Hr & Hc).
  exists board. eexists. split; [reflexivity|].
  split; [apply Hstill; cbn; lra|]. split; [exact Hr|exact Hc].
Defined.

Lemma size_round_trip_witness :
  parse_size "-3x4" = Ok (-3, 4)
  /\ exists e,
       VideoSynthBase_init sample_env
         (<["size" := "-3x4"]> (<["bg" := "bg.png"]> ∅)) empty_world
       = Raise e
       /\ e = CvError.
Proof.
  destruct (size_round_trip sample_env (-3) 4
              (<["size" := "-3x4"]> (<["bg" := "bg.png"]> ∅)) empty_world)
    as (Hparse & Hraise).
  split; [exact Hparse|].
  destruct (Hraise eq_refl) as (e & He & Hcv); [left; lia|].
  exists e. split; [exact He|]. apply Hcv; [reflexivity|].
  intros path [= <-]. discriminate.
Defined.

Lemma unknown_parameters_are_ignored_witness :
  parse_descriptor "synth:bg=bg.png:nosie=0.5"
  = Ok (SrcStr "synth", <["nosie" := "0.5"]> (<["bg" := "bg.png"]> ∅))
  /\ create_capture sample_env 1 "synth:bg=bg.png:nosie=0.5" None empty_world
     = create_capture sample_env 1 "synth:bg=bg.png" None empty_world.
Proof.
  destruct (unknown_parameters_are_ignored sample_env "synth:bg=bg.png"
              "synth:bg=bg.png:nosie=0.5" "nosie=0.5" "nosie" "0.5"
              (SrcStr "synth") (<["bg" := "bg.png"]> ∅) empty_world
              eq_refl eq_refl eq_refl)
    as (Hparse & _ & Hsame).
  - intros [H|[H|[H|[H|[H|[]]]]]]; discriminate H.
  - split; [exact Hparse|apply Hsame].
Defined.
